(** * Qa_model: preprocessing, span metrics, batch cycling and training loop

    A shallow embedding of [code/abstract_model.py] (class [Qa_model]) and
    the properties of its preprocessing units, evaluation metrics, batch
    iterator and training loop.

    Conventions.
    - Python integers are [Z]; NumPy arrays are lists (a 2-D array is a list
      of rows).
    - A Python call that may raise is a computation in the [result] monad;
      [Raise e] is the exception propagating to the caller.
    - Floating point values and their operations are kept abstract (the
      class [FloatOps]), so that no statement depends on rounding; the
      random generator, the TensorFlow session and the network of the
      derived class are interfaces as well. *)

From Stdlib Require Import String Ascii.
From Stdlib Require Import ZArith QArith List Finite Bool Lia Permutation Sorted.
Import ListNotations.
Open Scope Z_scope.

(* ------------------------------------------------------------------ *)
(** * Python and NumPy primitives *)
(* ------------------------------------------------------------------ *)

Module Py.

(** The exceptions the modelled code can raise. *)
Inductive exn : Type :=
| IndexError
| ValueError
| OverflowError
| ZeroDivisionError
| NotImplementedError.

Inductive result (A : Type) : Type :=
| Ok (a : A)
| Raise (e : exn).
Arguments Ok {A} a.
Arguments Raise {A} e.

Definition bind {A B} (c : result A) (k : A -> result B) : result B :=
  match c with
  | Ok a => k a
  | Raise e => Raise e
  end.

(** [mapM f l]: a list comprehension / loop whose body may raise; the first
    failing element aborts it. *)
Fixpoint mapM {A B} (f : A -> result B) (l : list A) : result (list B) :=
  match l with
  | [] => Ok []
  | x :: t =>
      bind (f x) (fun y => bind (mapM f t) (fun ys => Ok (y :: ys)))
  end.

(** [len(l)] *)
Definition len {A} (l : list A) : Z := Z.of_nat (length l).

(** [np.arange(n)] (also [range(n)]): empty for [n <= 0]. *)
Definition arange (n : Z) : list Z :=
  map Z.of_nat (seq 0 (Z.to_nat n)).

(** [n * [x]] for a Python int [n]: empty when [n <= 0]. *)
Definition replicate {A} (n : Z) (x : A) : list A := repeat x (Z.to_nat n).

(** Bound of a slice [a[i:...]] / [a[...:i]] on a sequence of length [n]:
    a negative bound counts from the end, and the result is clamped to
    [0..n]. *)
Definition slice_bound (n i : Z) : Z :=
  if i <? 0 then Z.max (i + n) 0 else Z.min i n.

(** [l[start:stop]] *)
Definition slice {A} (l : list A) (start stop : Z) : list A :=
  let lo := slice_bound (len l) start in
  let hi := slice_bound (len l) stop in
  firstn (Z.to_nat (hi - lo)) (skipn (Z.to_nat lo) l).

(** [l[:stop]] *)
Definition slice_to {A} (l : list A) (stop : Z) : list A := slice l 0 stop.

(** Integer indexing of a sequence of length [n]: [-n <= i < 0] counts from
    the end; anything outside [-n, n) raises [IndexError]. *)
Definition index (n i : Z) : result nat :=
  if (0 <=? i) && (i <? n) then Ok (Z.to_nat i)
  else if (- n <=? i) && (i <? 0) then Ok (Z.to_nat (i + n))
  else Raise IndexError.

(** [l[i]] *)
Definition getitem {A} (l : list A) (i : Z) : result A :=
  bind (index (len l) i)
       (fun k => match nth_error l k with
                 | Some x => Ok x
                 | None => Raise IndexError
                 end).

Fixpoint list_set {A} (l : list A) (k : nat) (v : A) : list A :=
  match l, k with
  | [], _ => []
  | _ :: t, O => v :: t
  | x :: t, S k' => x :: list_set t k' v
  end.

(** [a[i] = v] *)
Definition setitem {A} (a : list A) (i : Z) (v : A) : result (list A) :=
  bind (index (len a) i) (fun k => Ok (list_set a k v)).

(** [a[start:stop] = v] (a scalar broadcast over the slice). *)
Definition fill_slice {A} (a : list A) (start stop : Z) (v : A) : list A :=
  let lo := slice_bound (len a) start in
  let hi := slice_bound (len a) stop in
  firstn (Z.to_nat lo) a
    ++ repeat v (length (firstn (Z.to_nat (hi - lo)) (skipn (Z.to_nat lo) a)))
    ++ skipn (Z.to_nat lo + Z.to_nat (hi - lo)) a.

(** [np.zeros(n, dtype=np.int32)]: a negative dimension is a [ValueError]. *)
Definition np_zeros (n : Z) : result (list Z) :=
  if n <? 0 then Raise ValueError else Ok (replicate n 0).

(** [np.sum] of an integer vector. *)
Definition np_sum (l : list Z) : Z := fold_right Z.add 0 l.

(** [np.argmax]: index of the first occurrence of the maximum; raises
    [ValueError] on an empty sequence. *)
Fixpoint argmax_from (best_i best_v i : Z) (l : list Z) : Z :=
  match l with
  | [] => best_i
  | x :: t =>
      if best_v <? x then argmax_from i x (i + 1) t
      else argmax_from best_i best_v (i + 1) t
  end.

Definition np_argmax (l : list Z) : result Z :=
  match l with
  | [] => Raise ValueError
  | x :: t => Ok (argmax_from 0 x 1 t)
  end.

(** [X[idx]] with an integer index array [idx] (row gather). *)
Definition np_take {A} (X : list A) (idx : list Z) : result (list A) :=
  mapM (getitem X) idx.

End Py.

Import Py.

Declare Scope py_scope.
Delimit Scope py_scope with py.
Notation "x <- c ;; k" := (bind c (fun x => k))
  (at level 61, c at next level, right associativity) : py_scope.
Notation "' pat <- c ;; k" := (bind c (fun x => match x with pat => k end))
  (at level 61, pat pattern, c at next level, right associativity) : py_scope.
Open Scope py_scope.

(* ------------------------------------------------------------------ *)
(** * Loading and preprocessing data *)
(* ------------------------------------------------------------------ *)

(** ** [span_to_y] *)

(** One iteration of the loop of [span_to_y]: two fresh zero vectors, then
    the two item assignments (start first). *)
Definition span_row (max_length : Z) (se : Z * Z)
  : result (list Z * list Z) :=
  let '(start_id, end_id) := se in
  labelS <- np_zeros max_length ;;
  labelE <- np_zeros max_length ;;
  labelS <- setitem labelS start_id 1 ;;
  labelE <- setitem labelE end_id 1 ;;
  Ok (labelS, labelE).

(** [span_to_y(self, y, max_length=None)]; [y] is the array of
    [(start_id, end_id)] rows and [max_c_length] stands for
    [self.max_c_length]. Returns [(S, E)]. *)
Definition span_to_y (max_c_length : Z) (y : list (Z * Z))
           (max_length : option Z) : result (list (list Z) * list (list Z)) :=
  let max_length := match max_length with
                    | None => max_c_length
                    | Some n => n
                    end in
  rows <- mapM (span_row max_length) y ;;
  Ok (map fst rows, map snd rows).

(** The vector of length [L] that is 1 at position [k] and 0 elsewhere
    (for [0 <= k < L]). *)
Definition one_hot (L k : Z) : list Z :=
  repeat 0 (Z.to_nat k) ++ 1 :: repeat 0 (Z.to_nat (L - k - 1)).

(** Where an in-range NumPy index lands. *)
Definition wrap_index (L i : Z) : Z := if i <? 0 then i + L else i.

(** [row] has length [L], a 1 at position [k] and 0 everywhere else. *)
Definition hot_at (row : list Z) (L k : Z) : Prop :=
  len row = L /\
  forall j, 0 <= j < L ->
            nth (Z.to_nat j) row 0 = if j =? k then 1 else 0.

(** ** [read_and_pad] *)

(** A line is the sequence of the code points of a Python 3 [str], taken
    below 256. Among these [str.split()] (no argument) splits on: tab to
    carriage return (9 to 13), the four separators 28 to 31, the space (32),
    the next-line character (133) and the no-break space (160). *)
Definition is_space (c : ascii) : bool :=
  let n := nat_of_ascii c in
  ((9 <=? n) && (n <=? 13) || (28 <=? n) && (n <=? 32)
   || (n =? 133) || (n =? 160))%nat.

Fixpoint split_from (tok : string) (s : string) : list string :=
  match s with
  | EmptyString =>
      match tok with EmptyString => [] | _ => [tok] end
  | String c rest =>
      if is_space c then
        match tok with
        | EmptyString => split_from EmptyString rest
        | _ => tok :: split_from EmptyString rest
        end
      else split_from (tok ++ String c EmptyString)%string rest
  end.

(** [line.split()]: the maximal runs of non-whitespace characters. *)
Definition split (line : string) : list string :=
  split_from EmptyString line.

Definition int32_min : Z := - 2 ^ 31.
Definition int32_max : Z := 2 ^ 31 - 1.
Definition in_int32 (z : Z) : bool := (int32_min <=? z) && (z <=? int32_max).

Definition digit_of (c : ascii) : option Z :=
  let n := nat_of_ascii c in
  if ((48 <=? n) && (n <=? 57))%nat then Some (Z.of_nat n - 48) else None.

(** The digits that follow a digit of a literal, [acc] being the value read
    so far: more digits, each possibly preceded by one underscore. *)
Fixpoint digits_after (acc : Z) (s : string) : option Z :=
  match s with
  | EmptyString => Some acc
  | String c rest =>
      match digit_of c with
      | Some d => digits_after (10 * acc + d) rest
      | None =>
          if Ascii.eqb c "_"%char then
            match rest with
            | String c' rest' =>
                match digit_of c' with
                | Some d => digits_after (10 * acc + d) rest'
                | None => None
                end
            | EmptyString => None
            end
          else None
      end
  end.

(** An unsigned literal: a digit, then [digits_after]. *)
Definition digits_value (s : string) : option Z :=
  match s with
  | EmptyString => None
  | String c rest =>
      match digit_of c with
      | Some d => digits_after d rest
      | None => None
      end
  end.

(** [int(s)] for a token [s] (which holds no whitespace): an optional sign,
    then decimal digits, where single underscores may stand between digits
    (Python 3.6 and later); leading zeros are allowed. [None] is the
    [ValueError] of a token that is no such literal. Below code point 256
    the decimal digits are the ASCII digits. *)
Definition int_of_str (s : string) : option Z :=
  match s with
  | String "-"%char rest => option_map Z.opp (digits_value rest)
  | String "+"%char rest => digits_value rest
  | _ => digits_value s
  end.

(** An element of a row handed to [np.array(..., dtype=np.int32)]: a token
    read from the file (still a [str]) or the integer [pad_value]. *)
Inductive cell : Type :=
| Tok (s : string)
| Int (z : Z).

(** Conversion of one element to [np.int32]: a token that is not an integer
    literal is a [ValueError], a value outside the 32-bit range an
    [OverflowError] (older NumPy releases wrapped such a value instead of
    raising; the statements below keep to values in range). *)
Definition int32_of_int (z : Z) : result Z :=
  if in_int32 z then Ok z else Raise OverflowError.

Definition int32_of_cell (c : cell) : result Z :=
  match c with
  | Tok s => match int_of_str s with
             | Some z => int32_of_int z
             | None => Raise ValueError
             end
  | Int z => int32_of_int z
  end.

Definition same_lengths {A} (rows : list (list A)) : bool :=
  match rows with
  | [] => true
  | r :: rest => forallb (fun r' => (length r' =? length r)%nat) rest
  end.

(** [np.array(rows, dtype=np.int32)]: rows of unequal length cannot form an
    integer array ([ValueError]). *)
Definition np_array_int32 (rows : list (list cell)) : result (list (list Z)) :=
  if same_lengths rows then mapM (mapM int32_of_cell) rows
  else Raise ValueError.

(** Body of the loop of [read_and_pad] for one [line]: returns the padded
    [line] and its [mask]. *)
Definition pad_line (length pad_value : Z) (line : list cell)
  : list cell * list bool :=
  let line := slice_to line length in
  let add_length := length - len line in
  let mask := replicate (len line) true ++ replicate add_length false in
  let line := line ++ replicate add_length (Int pad_value) in
  (line, mask).

(** [read_and_pad(self, filename, length, pad_value)]. The argument [lines]
    is what [f.readlines()] returns for the file. The mask rows have the
    lengths of the id rows, so [np.array(mask_array)] is reached only with
    rows of equal length and keeps them as they are. *)
Definition read_and_pad (lines : list string) (length pad_value : Z)
  : result (list (list Z) * list (list bool)) :=
  let lines := map (fun line => map Tok (split line)) lines in
  let padded := map (pad_line length pad_value) lines in
  line_array <- np_array_int32 (map fst padded) ;;
  Ok (line_array, map snd padded).

(** The ids of a file line, as the spec reads it. *)
Definition line_ids (line : string) : result (list Z) :=
  mapM (fun tok => int32_of_cell (Tok tok)) (split line).

(** The row and the mask the spec describes for a line with ids [ids]: the
    first [min(k, L)] ids, then [L - min(k, L)] copies of the pad value. *)
Definition padded_row (L P : Z) (ids : list Z) : list Z :=
  let m := Nat.min (length ids) (Z.to_nat L) in
  firstn m ids ++ repeat P (Z.to_nat L - m).

Definition padded_mask (L : Z) (ids : list Z) : list bool :=
  let m := Nat.min (length ids) (Z.to_nat L) in
  repeat true m ++ repeat false (Z.to_nat L - m).

(** The fixture of [test_preprocessing_units]. *)
Definition unit_test_lines : list string :=
  [ String.concat "" ["0 1 2"; String "010" ""]
  ; String.concat "" ["0 1 0 1 0 1"; String "010" ""]
  ; String.concat "" ["2 1"; String "010" ""] ]%string.

(* ------------------------------------------------------------------ *)
(** * Evaluation metrics *)
(* ------------------------------------------------------------------ *)

(** Floating point numbers and the operations the code applies to them.
    They stay uninterpreted: the statements below hold whatever the
    rounding is. *)
Class FloatOps (F : Type) : Type := {
  f_of_Z : Z -> F;                 (* int -> float, e.g. [float(n)], [0.0] *)
  fadd : F -> F -> F;
  fmul : F -> F -> F;
  fdiv : F -> F -> F;              (* division by a non-zero divisor *)
  np_mean : list F -> F;           (* [np.mean] of a list of scalars *)
  astype_float32 : F -> F;         (* [.astype(np.float32)] on one entry *)
  astype_float32_zero : astype_float32 (f_of_Z 0) = f_of_Z 0
}.

(** [for x in l: body], the loop state threaded through; an exception in
    the body leaves the loop. *)
Fixpoint for_each {A S} (l : list A) (body : A -> S -> result S) (s : S)
  : result S :=
  match l with
  | [] => Ok s
  | x :: t => s' <- body x s ;; for_each t body s'
  end.

(** Elementwise product of two vectors of equal length ([y * yp]). *)
Fixpoint np_mul (a b : list Z) : list Z :=
  match a, b with
  | x :: a', y :: b' => x * y :: np_mul a' b'
  | _, _ => []
  end.

(** The predicted coverage vector of one sample in [get_f1]:
    [yp = np.zeros_like(y)] and then the two slice assignments, [ypS:ypE+1]
    first and [ypE:ypS+1] second. The entries of [y] and [yp] are 0.0 or
    1.0, kept here as the integers 0 and 1. *)
Definition pred_cover (y : list Z) (pS pE : Z) : list Z :=
  let yp := map (fun _ => 0) y in
  let yp := fill_slice yp pS (pE + 1) 1 in
  let yp := fill_slice yp pE (pS + 1) 1 in
  yp.

Section Metrics.
Context {F : Type} `{FloatOps F}.

(** The F1 term of one sample from its two coverage vectors, added to
    [f1_tot]. *)
Definition f1_add (f1_tot : F) (y yp : list Z) : F :=
  let n_true_pos := np_sum (np_mul y yp) in
  let n_pred_pos := np_sum yp in
  let n_actual_pos := np_sum y in
  if n_true_pos =? 0 then fadd f1_tot (f_of_Z 0)
  else
    let precision :=
      fdiv (fmul (f_of_Z 1) (f_of_Z n_true_pos)) (f_of_Z n_pred_pos) in
    let recall :=
      fdiv (fmul (f_of_Z 1) (f_of_Z n_true_pos)) (f_of_Z n_actual_pos) in
    fadd f1_tot
         (fdiv (fmul (fmul (f_of_Z 2) precision) recall)
               (fadd precision recall)).

(** [get_f1(self, yS, yE, ypS, ypE, mask)] *)
Definition get_f1 (max_c_length : Z) (yS yE : list (list Z))
           (ypS ypE : list Z) (mask : list (list bool)) : result F :=
  f1_tot <- for_each (arange (len yS))
              (fun i f1_tot =>
                 y <- np_zeros max_c_length ;;
                 rowS <- getitem yS i ;;
                 s <- np_argmax rowS ;;
                 rowE <- getitem yE i ;;
                 e <- np_argmax rowE ;;
                 let y := fill_slice y s (e + 1) 1 in
                 pS <- getitem ypS i ;;
                 pE <- getitem ypE i ;;
                 let yp := pred_cover y pS pE in
                 Ok (f1_add f1_tot y yp))
              (f_of_Z 0) ;;
  if len yS =? 0 then Raise ZeroDivisionError
  else Ok (fdiv f1_tot (f_of_Z (len yS))).

(** [get_exact_match(self, yS, yE, ypS, ypE, mask)]; the [and] evaluates
    [ypE[i]] only when the start matches. *)
Definition get_exact_match (yS yE : list (list Z)) (ypS ypE : list Z)
           (mask : list (list bool)) : result F :=
  count <- for_each (arange (len yS))
             (fun i count =>
                rowS <- getitem yS i ;;
                s <- np_argmax rowS ;;
                rowE <- getitem yE i ;;
                e <- np_argmax rowE ;;
                pS <- getitem ypS i ;;
                if s =? pS then
                  pE <- getitem ypE i ;;
                  if e =? pE then Ok (count + 1) else Ok count
                else Ok count)
             0 ;;
  if len yS =? 0 then Raise ZeroDivisionError
  else Ok (fdiv (f_of_Z count) (f_of_Z (len yS))).

End Metrics.

(* ------------------------------------------------------------------ *)
(** * Batch processing *)
(* ------------------------------------------------------------------ *)

(** The global NumPy random generator: [np.random.permutation(n)] consumes
    the generator state and returns an array. *)
Class Rng (R : Type) : Type := {
  random_permutation : Z -> R -> list Z * R
}.

(** What NumPy documents for it: the result is a permutation of
    [np.arange(n)]. *)
Class RngLawful (R : Type) `{Rng R} : Prop := {
  random_permutation_perm :
    forall n r, Permutation (fst (random_permutation n r)) (arange n)
}.

(** The training arrays of [self], read-only once loaded. *)
Record TrainData : Type := {
  X_c : list (list Z);
  X_c_mask : list (list bool);
  X_q : list (list Z);
  X_q_mask : list (list bool);
  yS : list (list Z);
  yE : list (list Z)
}.

(** The fields of [self] owned by the batch iterator. *)
Record Batching : Type := {
  batch_index : Z;
  max_batch_index : Z;
  batch_permutation : list Z
}.

(** The [permutation] argument of [initialize_batch_processing]:
    ['by_length'], ['random'], or anything else (the default [None]). *)
Inductive ordering : Type :=
| by_length
| random
| no_permutation.

Fixpoint insert_by_key (x : Z * Z) (l : list (Z * Z)) : list (Z * Z) :=
  match l with
  | [] => [x]
  | y :: t => if snd x <=? snd y then x :: y :: t else y :: insert_by_key x t
  end.

(** [np.argsort(keys)]: the indices of [keys] in ascending key order (equal
    keys are left in index order here; NumPy does not fix their order). *)
Definition np_argsort (keys : list Z) : list Z :=
  map fst (fold_right insert_by_key [] (combine (arange (len keys)) keys)).

(** [np.sum(mask, axis=1)]: the number of [True] entries of each row. *)
Definition row_sums (mask : list (list bool)) : list Z :=
  map (fun row => len (filter (fun b => b) row)) mask.

Section Batches.
Context {R : Type} `{Rng R}.

(** [initialize_batch_processing(self, n_samples, permutation=None)] *)
Definition initialize_batch_processing (d : TrainData) (n_samples : Z)
           (permutation : ordering) (r : R) : Batching * R :=
  match permutation with
  | by_length =>
      let length_of_each_context_paragraph := row_sums (X_c_mask d) in
      ({| batch_index := 0; max_batch_index := n_samples;
          batch_permutation := np_argsort length_of_each_context_paragraph |},
       r)
  | random =>
      let '(p, r') := random_permutation n_samples r in
      ({| batch_index := 0; max_batch_index := n_samples;
          batch_permutation := p |}, r')
  | no_permutation =>
      ({| batch_index := 0; max_batch_index := n_samples;
          batch_permutation := arange n_samples |}, r)
  end.

(** The cursor part of [next_batch]: the wrap test with its reshuffle, the
    index array [self.batch_permutation[start:end]] that all six results are
    gathered with, and the advance of [self.batch_index]. *)
Definition next_indices (b : Batching) (r : R) (batch_size : Z)
  : list Z * Batching * R :=
  let '(b, r) :=
    if max_batch_index b <=? batch_index b then
      let '(p, r') := random_permutation (max_batch_index b) r in
      ({| batch_index := 0; max_batch_index := max_batch_index b;
          batch_permutation := p |}, r')
    else (b, r) in
  let start := batch_index b in
  let end_ := batch_index b + batch_size in
  (slice (batch_permutation b) start end_,
   {| batch_index := batch_index b + batch_size;
      max_batch_index := max_batch_index b;
      batch_permutation := batch_permutation b |},
   r).

(** A batch: [(Xcres, Xcmaskres, Xqres, Xqmaskres, yresS, yresE)]. *)
Record Batch : Type := {
  Xcres : list (list Z);
  Xcmaskres : list (list bool);
  Xqres : list (list Z);
  Xqmaskres : list (list bool);
  yresS : list (list Z);
  yresE : list (list Z)
}.

(** The six gathers of [next_batch], in source order. *)
Definition gather (d : TrainData) (idx : list Z) : result Batch :=
  xc <- np_take (X_c d) idx ;;
  xcm <- np_take (X_c_mask d) idx ;;
  xq <- np_take (X_q d) idx ;;
  xqm <- np_take (X_q_mask d) idx ;;
  ys <- np_take (yS d) idx ;;
  ye <- np_take (yE d) idx ;;
  Ok {| Xcres := xc; Xcmaskres := xcm; Xqres := xq; Xqmaskres := xqm;
        yresS := ys; yresE := ye |}.

(** [next_batch(self, batch_size)] *)
Definition next_batch (d : TrainData) (b : Batching) (r : R) (batch_size : Z)
  : result (Batch * Batching * R) :=
  let '(idx, b', r') := next_indices b r batch_size in
  batch <- gather d idx ;;
  Ok (batch, b', r').

(** [k] successive calls of the cursor, with the index arrays they issue. *)
Fixpoint issue (k : nat) (b : Batching) (r : R) (batch_size : Z)
  : list (list Z) * Batching * R :=
  match k with
  | O => ([], b, r)
  | S k' =>
      let '(idx, b1, r1) := next_indices b r batch_size in
      let '(rest, b2, r2) := issue k' b1 r1 batch_size in
      (idx :: rest, b2, r2)
  end.

(** [k] successive calls of [next_batch]. *)
Fixpoint next_batches (k : nat) (d : TrainData) (b : Batching) (r : R)
         (batch_size : Z) : result (list Batch * Batching * R) :=
  match k with
  | O => Ok ([], b, r)
  | S k' =>
      '(batch, b1, r1) <- next_batch d b r batch_size ;;
      '(rest, b2, r2) <- next_batches k' d b1 r1 batch_size ;;
      Ok (batch :: rest, b2, r2)
  end.

End Batches.

(** Number of calls that make one pass over [n] samples in batches of [b]:
    the ceiling of [n / b]. *)
Definition calls_per_pass (n b : Z) : nat := Z.to_nat ((n + b - 1) / b).

(** [k] successive chunks of [n] elements of [l] (the last ones shorter or
    empty when [l] runs out). *)
Fixpoint chunks {A} (k n : nat) (l : list A) : list (list A) :=
  match k with
  | O => []
  | S k' => firstn n l :: chunks k' n (skipn n l)
  end.

(** What one pass over [N] samples in batches of [B] has to issue: the
    batches are the consecutive slices of the permutation [p] in force, they
    hold every index of [0, N) exactly once, there are [ceil(N / B)] of
    them, none is empty or longer than [B], and all but the last have
    exactly [B] indices. *)
Definition full_pass (N B : Z) (p : list Z) (batches : list (list Z))
  : Prop :=
  concat batches = p
  /\ Permutation (concat batches) (arange N)
  /\ NoDup (concat batches)
  /\ (forall i, In i (concat batches) <-> 0 <= i < N)
  /\ length batches = calls_per_pass N B
  /\ (forall j batch,
         nth_error batches j = Some batch ->
         0 < len batch <= B
         /\ ((S j < calls_per_pass N B)%nat -> len batch = B)).

(* ------------------------------------------------------------------ *)
(** * The data directory and [load_and_preprocess_data] *)
(* ------------------------------------------------------------------ *)

(** What [np.loadtxt] returns for a file of rows of two integers: the 2-D
    array of the rows when there are at least two of them; for a single row
    the 1-D array of its two entries, and for no row an empty 1-D array
    (the default [ndmin=0] drops the axis). *)
Inductive loadtxt_array : Type :=
| Array2D (rows : list (Z * Z))
| Array1D (entries : list Z).

Definition np_loadtxt (rows : list (Z * Z)) : loadtxt_array :=
  match rows with
  | [] => Array1D []
  | [(s, e)] => Array1D [s; e]
  | _ :: _ :: _ => Array2D rows
  end.

(** A 2-D float array with its shape [(len m_rows, n_cols)]; the column
    count is kept apart because an array may have no row. *)
Record Matrix (F : Type) : Type := {
  n_cols : Z;
  m_rows : list (list F)
}.
Arguments n_cols {F} m.
Arguments m_rows {F} m.

(** The files under [FLAGS.data_dir]: the array [np.load(...)['glove']],
    the rows (two 32-bit integers each) of the two span files, and the
    [readlines()] of the four id files. *)
Record DataDir (F : Type) : Type := {
  glove : Matrix F;
  train_span : list (Z * Z);
  val_span : list (Z * Z);
  train_ids_context : list string;
  val_ids_context : list string;
  train_ids_question : list string;
  val_ids_question : list string
}.
Arguments glove {F} d.
Arguments train_span {F} d.
Arguments val_span {F} d.
Arguments train_ids_context {F} d.
Arguments val_ids_context {F} d.
Arguments train_ids_question {F} d.
Arguments val_ids_question {F} d.

(** The validation arrays of [self]. *)
Record ValData : Type := {
  Xval_c : list (list Z);
  Xval_c_mask : list (list bool);
  Xval_q : list (list Z);
  Xval_q_mask : list (list bool);
  yvalS : list (list Z);
  yvalE : list (list Z)
}.

(** The method a derived class has to supply; [G] is what [build_model]
    leaves in [self] (prediction, loss and training operations). *)
Class Network (F G : Type) : Type := {
  add_prediction_and_loss : Z -> Z -> Matrix F -> result G
}.

(** What [load_and_preprocess_data] stores in [self]. *)
Record Loaded (F G : Type) : Type := {
  WordEmbeddingMatrix : Matrix F;
  graph : G;
  train_data : TrainData;
  val_data : ValData
}.
Arguments WordEmbeddingMatrix {F G} l.
Arguments graph {F G} l.
Arguments train_data {F G} l.
Arguments val_data {F G} l.

Section Loading.
Context {F G : Type} `{FloatOps F} `{Network F G}.

(** [np.vstack((W, np.zeros(k)))]: the column counts have to agree. *)
Definition vstack_zeros (W : Matrix F) (k : Z) : result (Matrix F) :=
  if n_cols W =? k then
    Ok {| n_cols := n_cols W;
          m_rows := m_rows W ++ [replicate k (f_of_Z 0)] |}
  else Raise ValueError.

Definition matrix_astype_float32 (W : Matrix F) : Matrix F :=
  {| n_cols := n_cols W; m_rows := map (map astype_float32) (m_rows W) |}.

(** [build_model(self)]: placeholders, the abstract
    [add_prediction_and_loss], then the training operation. *)
Definition build_model (max_q_length max_c_length : Z) (W : Matrix F)
  : result G :=
  add_prediction_and_loss max_q_length max_c_length W.

(** [self.span_to_y(np.loadtxt(file, dtype=np.int32))] where [file] has the
    rows [rows]: on what [np.loadtxt] returns for fewer than two rows the
    column selection [y[:, 0]] raises. *)
Definition span_to_y_loadtxt (max_c_length : Z) (rows : list (Z * Z))
  : result (list (list Z) * list (list Z)) :=
  match np_loadtxt rows with
  | Array2D y => span_to_y max_c_length y None
  | Array1D _ => Raise IndexError
  end.

(** [load_and_preprocess_data(self)] *)
Definition load_and_preprocess_data (max_q_length max_c_length : Z)
           (dir : DataDir F) : result (Loaded F G) :=
  let W := glove dir in
  let null_wordvec_index := len (m_rows W) in
  W <- vstack_zeros W 100 ;;
  let W := matrix_astype_float32 W in
  g <- build_model max_q_length max_c_length W ;;
  '(yS_, yE_) <- span_to_y_loadtxt max_c_length (train_span dir) ;;
  '(yvalS_, yvalE_) <- span_to_y_loadtxt max_c_length (val_span dir) ;;
  '(X_c_, X_c_mask_) <-
     read_and_pad (train_ids_context dir) max_c_length null_wordvec_index ;;
  '(Xval_c_, Xval_c_mask_) <-
     read_and_pad (val_ids_context dir) max_c_length null_wordvec_index ;;
  '(X_q_, X_q_mask_) <-
     read_and_pad (train_ids_question dir) max_q_length null_wordvec_index ;;
  '(Xval_q_, Xval_q_mask_) <-
     read_and_pad (val_ids_question dir) max_q_length null_wordvec_index ;;
  Ok {| WordEmbeddingMatrix := W;
        graph := g;
        train_data := {| X_c := X_c_; X_c_mask := X_c_mask_;
                         X_q := X_q_; X_q_mask := X_q_mask_;
                         yS := yS_; yE := yE_ |};
        val_data := {| Xval_c := Xval_c_; Xval_c_mask := Xval_c_mask_;
                       Xval_q := Xval_q_; Xval_q_mask := Xval_q_mask_;
                       yvalS := yvalS_; yvalE := yvalE_ |} |}.

End Loading.

(* ------------------------------------------------------------------ *)
(** * Training *)
(* ------------------------------------------------------------------ *)

(** The TensorFlow session: [S] is its state (the variables). The two
    [sess.run] calls of [train] are given the arrays of the feed
    dictionary; the first also updates the variables and returns
    [(current_loss, predictionS, predictionE, grad_norm)], the second
    returns [(val_loss, predictionS, predictionE)]. *)
Class Session (F S : Type) : Type := {
  run_train_op : S -> Batch -> result (S * (F * list Z * list Z * F));
  run_validation : S -> ValData -> result (F * list Z * list Z)
}.

(** The scalars of one training step. *)
Record Scalars (F : Type) : Type := {
  s_loss : F;
  s_EM : F;
  s_f1 : F;
  s_grad_norm : F
}.
Arguments s_loss {F} s.
Arguments s_EM {F} s.
Arguments s_f1 {F} s.
Arguments s_grad_norm {F} s.

(** The rolling accumulators [losses, EMs, f1s, grad_norms]. *)
Record Accum (F : Type) : Type := {
  losses : list F;
  EMs : list F;
  f1s : list F;
  grad_norms : list F
}.
Arguments losses {F} a.
Arguments EMs {F} a.
Arguments f1s {F} a.
Arguments grad_norms {F} a.

(** The history lists [global_losses, global_EMs, global_f1s,
    global_grad_norms]. *)
Record History (F : Type) : Type := {
  global_losses : list F;
  global_EMs : list F;
  global_f1s : list F;
  global_grad_norms : list F
}.
Arguments global_losses {F} h.
Arguments global_EMs {F} h.
Arguments global_f1s {F} h.
Arguments global_grad_norms {F} h.

Definition empty_accum {F} : Accum F :=
  {| losses := []; EMs := []; f1s := []; grad_norms := [] |}.

(** The accumulators that hold exactly the scalars of the steps [w]. *)
Definition accum_of {F} (w : list (Scalars F)) : Accum F :=
  {| losses := map s_loss w; EMs := map s_EM w; f1s := map s_f1 w;
     grad_norms := map s_grad_norm w |}.

(** Cut [l] into its successive full windows of [w] elements and the
    remaining elements (fewer than [w]). *)
Fixpoint windows_fuel {A} (fuel w : nat) (l : list A)
  : list (list A) * list A :=
  match fuel with
  | O => ([], l)
  | S fuel' =>
      if (w <=? length l)%nat then
        let '(ws, rest) := windows_fuel fuel' w (skipn w l) in
        (firstn w l :: ws, rest)
      else ([], l)
  end.

Definition windows {A} (w : nat) (l : list A) : list (list A) * list A :=
  windows_fuel (length l) w l.

Section Training.
Context {F S R : Type} `{FloatOps F} `{Rng R} `{Session F S}.

(** The means of the accumulators, as one point of the history. *)
Definition append_means (h : History F) (a : Accum F) : History F :=
  {| global_losses := global_losses h ++ [np_mean (losses a)];
     global_EMs := global_EMs h ++ [np_mean (EMs a)];
     global_f1s := global_f1s h ++ [np_mean (f1s a)];
     global_grad_norms := global_grad_norms h ++ [np_mean (grad_norms a)] |}.

(** The history after one point per window of [ws] has been appended. *)
Definition extend_history (h : History F) (ws : list (list (Scalars F)))
  : History F :=
  {| global_losses :=
       global_losses h ++ map (fun w => np_mean (map s_loss w)) ws;
     global_EMs := global_EMs h ++ map (fun w => np_mean (map s_EM w)) ws;
     global_f1s := global_f1s h ++ map (fun w => np_mean (map s_f1 w)) ws;
     global_grad_norms :=
       global_grad_norms h
         ++ map (fun w => np_mean (map s_grad_norm w)) ws |}.

(** [int(n_samples / batch_size)] under Python 3: true division, then
    truncation. Under Python 2 the division is the floor; both give the
    same [range] (empty unless the quotient is positive, where they
    agree). *)
Definition n_steps (n_samples batch_size : Z) : result Z :=
  if batch_size =? 0 then Raise ZeroDivisionError
  else Ok (Z.quot n_samples batch_size).

(** One training step up to its four scalars: the batch, the session run
    and the two metrics. *)
Definition train_step (max_c_length : Z) (d : TrainData) (batch_size : Z)
           (st : S * Batching * R) : result (S * Batching * R * Scalars F) :=
  let '(sess, b, r) := st in
  '(batch, b, r) <- next_batch d b r batch_size ;;
  '(sess, (current_loss, predictionS, predictionE, grad_norm)) <-
     run_train_op sess batch ;;
  em <- get_exact_match (yresS batch) (yresE batch) predictionS predictionE
          (Xcmaskres batch) ;;
  f1 <- get_f1 max_c_length (yresS batch) (yresE batch) predictionS
          predictionE (Xcmaskres batch) ;;
  Ok (sess, b, r,
      {| s_loss := current_loss; s_EM := em; s_f1 := f1;
         s_grad_norm := grad_norm |}).

(** The four [append]s and the flush test at the end of the loop body. *)
Definition record_step (sc : Scalars F) (ah : Accum F * History F)
  : Accum F * History F :=
  let '(a, h) := ah in
  let a := {| losses := losses a ++ [s_loss sc];
              EMs := EMs a ++ [s_EM sc];
              f1s := f1s a ++ [s_f1 sc];
              grad_norms := grad_norms a ++ [s_grad_norm sc] |} in
  if 20 <=? len (losses a) then (empty_accum, append_means h a)
  else (a, h).

(** The body of the inner loop of [train]. *)
Definition train_iteration (max_c_length : Z) (d : TrainData)
           (batch_size : Z)
           (st : S * Batching * R * (Accum F * History F))
  : result (S * Batching * R * (Accum F * History F)) :=
  let '(sbr, ah) := st in
  '(sbr, sc) <- train_step max_c_length d batch_size sbr ;;
  Ok (sbr, record_step sc ah).

(** "train for one epoch": the progress bar range, the fresh accumulators
    and the inner loop. Returns the accumulators as the loop leaves them. *)
Definition train_one_epoch (max_c_length : Z) (d : TrainData)
           (batch_size : Z) (sbr : S * Batching * R) (h : History F)
  : result (S * Batching * R * (Accum F * History F)) :=
  let n_samples := len (yS d) in
  n <- n_steps n_samples batch_size ;;
  for_each (arange n)
           (fun _ st => train_iteration max_c_length d batch_size st)
           (sbr, (empty_accum, h)).

(** The state of [train] between epochs. *)
Record Run : Type := {
  run_state : S * Batching * R;
  run_history : History F;
  EMs_val : list F;
  F1s_val : list F
}.

(** One iteration of the epoch loop of [train]; the plots are written from
    the histories and leave them unchanged. The accumulators of the epoch
    are local to it. *)
Definition train_epoch (max_c_length : Z) (d : TrainData) (v : ValData)
           (batch_size : Z) (run : Run) : result Run :=
  '(sbr, (_, h)) <-
     train_one_epoch max_c_length d batch_size (run_state run)
                     (run_history run) ;;
  let '(sess, _, _) := sbr in
  '(val_loss, predictionS, predictionE) <- run_validation sess v ;;
  EM_val <- get_exact_match (yvalS v) (yvalE v) predictionS predictionE
              (Xval_c_mask v) ;;
  F1_val <- get_f1 max_c_length (yvalS v) (yvalE v) predictionS predictionE
              (Xval_c_mask v) ;;
  Ok {| run_state := sbr; run_history := h;
        EMs_val := EMs_val run ++ [EM_val];
        F1s_val := F1s_val run ++ [F1_val] |}.

(** [train(self)], from a fresh session [sess]. *)
Definition train (max_c_length : Z) (d : TrainData) (v : ValData)
           (epochs batch_size : Z) (sess : S) (r : R) : result Run :=
  let n_samples := len (yS d) in
  let '(b, r) := initialize_batch_processing d n_samples no_permutation r in
  for_each (map (fun i => i + 1) (arange epochs))
           (fun _ run => train_epoch max_c_length d v batch_size run)
           {| run_state := (sess, b, r);
              run_history := {| global_losses := []; global_EMs := [];
                                global_f1s := []; global_grad_norms := [] |};
              EMs_val := []; F1s_val := [] |}.

(** The scalars of [k] successive training steps. *)
Fixpoint run_steps (k : nat) (max_c_length : Z) (d : TrainData)
         (batch_size : Z) (sbr : S * Batching * R)
  : result (list (Scalars F) * (S * Batching * R)) :=
  match k with
  | O => Ok ([], sbr)
  | Datatypes.S k' =>
      '(sbr1, sc) <- train_step max_c_length d batch_size sbr ;;
      '(rest, sbr2) <- run_steps k' max_c_length d batch_size sbr1 ;;
      Ok (sc :: rest, sbr2)
  end.

End Training.

(* ------------------------------------------------------------------ *)
(** * Concrete instances, used to run the model *)
(* ------------------------------------------------------------------ *)

Module Instances.

(** Exact rational arithmetic in place of floating point. *)
Definition q_mean (l : list Q) : Q :=
  Qdiv (fold_right Qplus (inject_Z 0) l) (inject_Z (len l)).

#[export] Instance Q_float : FloatOps Q := {|
  f_of_Z := inject_Z;
  fadd := Qplus;
  fmul := Qmult;
  fdiv := Qdiv;
  np_mean := q_mean;
  astype_float32 := fun q => q;
  astype_float32_zero := eq_refl
|}.

(** A generator whose [k]-th permutation is the identity rotated by [k]. *)
Definition rotate {A} (k : nat) (l : list A) : list A :=
  skipn (k mod length l) l ++ firstn (k mod length l) l.

#[export] Instance rotating_rng : Rng nat := {|
  random_permutation := fun n r => (rotate r (arange n), S r)
|}.

(** A session that counts its training runs and always predicts the span
    [(0, 0)]; the loss is the run number. *)
#[export] Instance counting_session : Session Q nat := {|
  run_train_op := fun s batch =>
    Ok (S s, (inject_Z (Z.of_nat s),
              map (fun _ => 0) (yresS batch),
              map (fun _ => 0) (yresS batch),
              inject_Z 1));
  run_validation := fun s v =>
    Ok (inject_Z 0, map (fun _ => 0) (yvalS v), map (fun _ => 0) (yvalS v))
|}.

(** The base class [Qa_model] itself: [add_prediction_and_loss] raises. *)
Definition abstract_network : Network Q unit := {|
  add_prediction_and_loss := fun _ _ _ => Raise NotImplementedError
|}.

(** A derived class whose network needs nothing. *)
Definition trivial_network : Network Q unit := {|
  add_prediction_and_loss := fun _ _ _ => Ok tt
|}.

(** [n] samples with contexts of 3 tokens, questions of 2, and the gold
    span [(i mod 3, 2)] for sample [i]. *)
Definition toy_data (n : Z) : TrainData := {|
  X_c := map (fun i => [i; i + 1; i + 2]) (arange n);
  X_c_mask := map (fun _ => [true; true; true]) (arange n);
  X_q := map (fun i => [i; i]) (arange n);
  X_q_mask := map (fun _ => [true; true]) (arange n);
  yS := map (fun i => one_hot 3 (i mod 3)) (arange n);
  yE := map (fun _ => one_hot 3 2) (arange n)
|}.

(** A file line: the text followed by the newline character. *)
Definition ln (text : string) : string :=
  (text ++ String "010" EmptyString)%string.

(** A data directory with a table of two vectors of width [cols], two
    training and two validation samples. *)
Definition toy_dir (cols : Z) : DataDir Q := {|
  glove := {| n_cols := cols;
              m_rows := [replicate cols (inject_Z 1);
                         replicate cols (inject_Z 2)] |};
  train_span := [(0, 1); (1, 2)];
  val_span := [(2, 2); (0, 1)];
  train_ids_context := [ln "0 1 1"; ln "1 0"];
  val_ids_context := [ln "1"; ln "0 0 1 1"];
  train_ids_question := [ln "0"; ln "1 1 1"];
  val_ids_question := [ln ""; ln "1 0"]
|}.

End Instances.

Import Instances.

(* ------------------------------------------------------------------ *)
(** * Specification-level notions used by the properties below *)
(* ------------------------------------------------------------------ *)

(** A vector of zeros and ones. *)
Definition bits (l : list Z) : Prop := Forall (fun x => x = 0 \/ x = 1) l.

(** Order of [(index, key)] pairs by key. *)
Definition by_key (a b : Z * Z) : Prop := snd a <= snd b.

(** The samples a metric loops over, one tuple
    [(yS[i], (yE[i], (ypS[i], ypE[i])))] per index. *)
Definition samples (yS yE : list (list Z)) (ypS ypE : list Z)
  : list (list Z * (list Z * (Z * Z))) :=
  combine yS (combine yE (combine ypS ypE)).

(** [np.argmax] of a row known to be non-empty. *)
Definition argmax_of (row : list Z) : Z :=
  match np_argmax row with
  | Ok i => i
  | Raise _ => 0
  end.

(** The sample is an exact match: both decoded gold indices equal the
    predicted ones. *)
Definition em_hit (z : list Z * (list Z * (Z * Z))) : bool :=
  let '(rowS, (rowE, (pS, pE))) := z in
  (argmax_of rowS =? pS) && (argmax_of rowE =? pE).

(** Number of exact matches among the samples. *)
Definition em_matches (zs : list (list Z * (list Z * (Z * Z)))) : Z :=
  len (filter em_hit zs).

(** Number of positions at which the predicted pair is the span itself. *)
Definition span_hits (y : list (Z * Z)) (ypS ypE : list Z) : Z :=
  len (filter (fun z : (Z * Z) * (Z * Z) =>
                 (fst (fst z) =? fst (snd z)) && (snd (fst z) =? snd (snd z)))
              (combine y (combine ypS ypE))).

(** The gold coverage vector [y] of [get_f1] for decoded indices [s], [e]. *)
Definition gold_cover (max_c_length s e : Z) : list Z :=
  fill_slice (replicate max_c_length 0) s (e + 1) 1.

Section MetricSpecs.
Context {F : Type} `{FloatOps F}.

(** The F1 term of one sample added to a running total. *)
Definition f1_sample_add (max_c_length : Z) (f1_tot : F)
           (z : list Z * (list Z * (Z * Z))) : F :=
  let '(rowS, (rowE, (pS, pE))) := z in
  let y := gold_cover max_c_length (argmax_of rowS) (argmax_of rowE) in
  f1_add f1_tot y (pred_cover y pS pE).

End MetricSpecs.

(** The batch iterator is in a sound state for [N] samples: the bound is
    [N], the cursor is not negative and the permutation in force is a
    permutation of [0, N). *)
Definition cursor_ok (N : Z) (b : Batching) : Prop :=
  max_batch_index b = N /\ 0 <= batch_index b
  /\ Permutation (batch_permutation b) (arange N).

(** An index array fit to gather [N]-row data with: not empty, at most [B]
    long, without repetition, all indices in [0, N). *)
Definition valid_batch (N B : Z) (idx : list Z) : Prop :=
  idx <> [] /\ len idx <= B /\ NoDup idx
  /\ forall i, In i idx -> 0 <= i < N.

(** [rows] are the rows of [X] at the indices [idx], in order. *)
Definition gathered {A} (X : list A) (idx : list Z) (rows : list A) : Prop :=
  Forall2 (fun i row => nth_error X (Z.to_nat i) = Some row) idx rows.

(** All six training arrays have [N] rows. *)
Definition data_rows (N : Z) (d : TrainData) : Prop :=
  len (X_c d) = N /\ len (X_c_mask d) = N /\ len (X_q d) = N
  /\ len (X_q_mask d) = N /\ len (yS d) = N /\ len (yE d) = N.

(** [batch] holds, array by array, the rows of [d] at the indices [idx]. *)
Definition aligned (d : TrainData) (idx : list Z) (batch : Batch) : Prop :=
  gathered (X_c d) idx (Xcres batch)
  /\ gathered (X_c_mask d) idx (Xcmaskres batch)
  /\ gathered (X_q d) idx (Xqres batch)
  /\ gathered (X_q_mask d) idx (Xqmaskres batch)
  /\ gathered (yS d) idx (yresS batch)
  /\ gathered (yE d) idx (yresE batch).

(** The iterator stands at the start of a pass over [N] samples: freshly
    initialised (cursor 0, a permutation of [0, N) in force) or exhausted
    (cursor at or beyond [N], so that the next call reshuffles). *)
Definition pass_start (N : Z) (b : Batching) : Prop :=
  max_batch_index b = N
  /\ ((batch_index b = 0 /\ Permutation (batch_permutation b) (arange N))
      \/ N <= batch_index b).

Section SessionSpecs.
Context {F S : Type} `{Session F S}.

(** The training run of the session raises nothing and predicts a start and
    an end index for every sample of the batch it is fed. *)
Definition predicts_whole_batch : Prop :=
  forall (s : S) (batch : Batch),
  exists s' loss pS pE grad_norm,
    run_train_op s batch = Ok (s', (loss, pS, pE, grad_norm))
    /\ len (yresS batch) <= len pS /\ len (yresS batch) <= len pE.

End SessionSpecs.

(** The lengths of the four histories and of the two validation lists of a
    training run. *)
Definition history_lengths {F S R : Type} (run : @Run F S R)
           (points epochs : nat) : Prop :=
  length (global_losses (run_history run)) = points
  /\ length (global_EMs (run_history run)) = points
  /\ length (global_f1s (run_history run)) = points
  /\ length (global_grad_norms (run_history run)) = points
  /\ length (EMs_val run) = epochs
  /\ length (F1s_val run) = epochs.

(** A 2-D array of [n] rows of [L] entries. *)
Definition shape {A} (rows : list (list A)) (n L : Z) : Prop :=
  len rows = n /\ Forall (fun row => len row = L) rows.

(** Every position of [rows] that its mask marks [False] holds an id whose
    row in the matrix [W] is [zero]. *)
Definition pads_embed_to {E} (W : list (list E)) (zero : list E)
           (rows : list (list Z)) (masks : list (list bool)) : Prop :=
  Forall2 (fun row mask =>
             forall j, (j < length row)%nat ->
                       nth j mask true = false ->
                       getitem W (nth j row 0) = Ok zero)
          rows masks.

(* ------------------------------------------------------------------ *)
(** * Properties of the primitives *)
(* ------------------------------------------------------------------ *)

Lemma len_nonneg {A} (l : list A) : 0 <= len l.
Proof. unfold len; lia. Qed.

Lemma len_repeat {A} (x : A) (n : nat) : len (repeat x n) = Z.of_nat n.
Proof. unfold len; now rewrite repeat_length. Qed.

Lemma len_replicate {A} (x : A) (n : Z) : 0 <= n -> len (replicate n x) = n.
Proof. intros Hn; unfold replicate; rewrite len_repeat; lia. Qed.

Lemma index_nonneg (n i : Z) : 0 <= i < n -> index n i = Ok (Z.to_nat i).
Proof.
  intros Hi; unfold index.
  replace (0 <=? i) with true by (symmetry; apply Z.leb_le; lia).
  replace (i <? n) with true by (symmetry; apply Z.ltb_lt; lia).
  reflexivity.
Qed.

Lemma index_negative (n i : Z) :
  - n <= i < 0 -> index n i = Ok (Z.to_nat (i + n)).
Proof.
  intros Hi; unfold index.
  replace (0 <=? i) with false by (symmetry; apply Z.leb_gt; lia).
  replace (- n <=? i) with true by (symmetry; apply Z.leb_le; lia).
  replace (i <? 0) with true by (symmetry; apply Z.ltb_lt; lia).
  reflexivity.
Qed.

Lemma index_outside (n i : Z) :
  n <= i \/ i < - n -> 0 <= n -> index n i = Raise IndexError.
Proof.
  intros Hi Hn; unfold index.
  destruct (Z.leb_spec 0 i), (Z.ltb_spec i n), (Z.leb_spec (- n) i),
    (Z.ltb_spec i 0); simpl; try reflexivity; lia.
Qed.

Lemma index_wrap (n i : Z) :
  - n <= i < n -> index n i = Ok (Z.to_nat (wrap_index n i)).
Proof.
  intros Hi; unfold wrap_index.
  destruct (Z.ltb_spec i 0).
  - apply index_negative; lia.
  - apply index_nonneg; lia.
Qed.

Lemma list_set_repeat {A} (a v : A) (n k : nat) :
  (k < n)%nat ->
  list_set (repeat a n) k v = repeat a k ++ v :: repeat a (n - k - 1).
Proof.
  revert k; induction n as [|n IH]; intros k Hk; [lia|].
  destruct k as [|k]; simpl.
  - now rewrite Nat.sub_0_r.
  - rewrite IH by lia. reflexivity.
Qed.

Lemma mapM_ok {A B} (f : A -> result B) (g : A -> B) (l : list A) :
  (forall x, In x l -> f x = Ok (g x)) -> mapM f l = Ok (map g l).
Proof.
  induction l as [|x t IH]; intros Hf; simpl; [reflexivity|].
  rewrite (Hf x) by now left. simpl.
  rewrite IH by (intros; apply Hf; now right). reflexivity.
Qed.

Lemma mapM_raise {A B} (f : A -> result B) (e : exn) (l : list A) :
  (forall x e', In x l -> f x = Raise e' -> e' = e) ->
  (exists x, In x l /\ f x = Raise e) ->
  mapM f l = Raise e.
Proof.
  induction l as [|x t IH]; intros Honly [b [Hb Hfb]]; [destruct Hb|].
  simpl. destruct (f x) as [y|e'] eqn:Hfx; simpl.
  - destruct Hb as [->|Hb]; [congruence|].
    rewrite IH; [reflexivity| |exists b; now split].
    intros x' e' Hin; apply Honly; now right.
  - f_equal. apply (Honly x); [now left|assumption].
Qed.

Lemma mapM_Forall2 {A B} (f : A -> result B) (l : list A) (l' : list B) :
  Forall2 (fun x y => f x = Ok y) l l' -> mapM f l = Ok l'.
Proof.
  induction 1 as [|x y l l' Hxy _ IH]; simpl; [reflexivity|].
  now rewrite Hxy, IH.
Qed.

(** ** One-hot vectors *)

Lemma one_hot_hot_at (L k : Z) : 0 <= k < L -> hot_at (one_hot L k) L k.
Proof.
  intros Hk; unfold hot_at, one_hot, len; split.
  - rewrite length_app; simpl; rewrite !repeat_length; lia.
  - intros j Hj. destruct (Z.eqb_spec j k) as [->|Hne].
    + rewrite app_nth2; rewrite repeat_length; [|lia].
      now rewrite Nat.sub_diag.
    + destruct (Z.lt_ge_cases j k) as [Hlt|Hge].
      * rewrite app_nth1 by (rewrite repeat_length; lia).
        apply nth_repeat.
      * rewrite app_nth2; rewrite repeat_length; [|lia].
        destruct (Z.to_nat j - Z.to_nat k)%nat as [|m] eqn:Hm; [lia|].
        simpl. apply nth_repeat.
Qed.

Lemma np_sum_repeat_0 (n : nat) : np_sum (repeat 0 n) = 0.
Proof. unfold np_sum; induction n; simpl; [reflexivity|assumption]. Qed.

Lemma np_sum_app (a b : list Z) : np_sum (a ++ b) = np_sum a + np_sum b.
Proof.
  unfold np_sum; induction a as [|x a IH]; simpl; [reflexivity|].
  rewrite IH; lia.
Qed.

Lemma np_sum_one_hot (L k : Z) : np_sum (one_hot L k) = 1.
Proof.
  unfold one_hot. rewrite np_sum_app, np_sum_repeat_0.
  change (np_sum (1 :: ?r)) with (1 + np_sum r).
  now rewrite np_sum_repeat_0.
Qed.

Lemma argmax_from_zeros (m : nat) (bi i : Z) :
  argmax_from bi 1 i (repeat 0 m) = bi.
Proof. revert i; induction m; intros i; simpl; [reflexivity|apply IHm]. Qed.

Lemma argmax_from_zeros_one (a m : nat) (bi i : Z) :
  argmax_from bi 0 i (repeat 0 a ++ 1 :: repeat 0 m) = i + Z.of_nat a.
Proof.
  revert i; induction a as [|a IH]; intros i; simpl.
  - rewrite argmax_from_zeros; lia.
  - rewrite IH; lia.
Qed.

Lemma np_argmax_one_hot (L k : Z) :
  0 <= k < L -> np_argmax (one_hot L k) = Ok k.
Proof.
  intros Hk; unfold one_hot.
  destruct (Z.to_nat k) as [|a] eqn:Ha; simpl.
  - rewrite argmax_from_zeros. f_equal; lia.
  - rewrite argmax_from_zeros_one. f_equal; lia.
Qed.

(** ** [span_to_y] *)

Lemma setitem_zeros (L i : Z) :
  - L <= i < L ->
  setitem (replicate L 0) i 1 = Ok (one_hot L (wrap_index L i)).
Proof.
  intros Hi. assert (HL : 0 <= L) by lia.
  unfold setitem. rewrite len_replicate by assumption.
  rewrite index_wrap by assumption. simpl.
  unfold replicate, one_hot.
  assert (Hw : 0 <= wrap_index L i < L)
    by (unfold wrap_index; destruct (Z.ltb_spec i 0); lia).
  rewrite list_set_repeat by lia.
  replace (Z.to_nat L - Z.to_nat (wrap_index L i) - 1)%nat
    with (Z.to_nat (L - wrap_index L i - 1)) by lia.
  reflexivity.
Qed.

Lemma span_row_in_range (L s e : Z) :
  - L <= s < L -> - L <= e < L ->
  span_row L (s, e)
  = Ok (one_hot L (wrap_index L s), one_hot L (wrap_index L e)).
Proof.
  intros Hs He; unfold span_row, np_zeros.
  replace (L <? 0) with false by (symmetry; apply Z.ltb_ge; lia).
  simpl. rewrite (setitem_zeros L s Hs). simpl.
  rewrite (setitem_zeros L e He). reflexivity.
Qed.

Lemma setitem_zeros_outside (L i : Z) :
  0 <= L -> L <= i \/ i < - L ->
  setitem (replicate L 0) i 1 = Raise IndexError.
Proof.
  intros HL Hi; unfold setitem. rewrite len_replicate by assumption.
  now rewrite index_outside.
Qed.

Lemma setitem_zeros_cases (L i : Z) :
  0 <= L ->
  (exists row, setitem (replicate L 0) i 1 = Ok row)
  \/ setitem (replicate L 0) i 1 = Raise IndexError.
Proof.
  intros HL.
  destruct (Z.le_gt_cases L i); [right; apply setitem_zeros_outside; lia|].
  destruct (Z.lt_ge_cases i (- L));
    [right; apply setitem_zeros_outside; lia|].
  left; eexists; apply setitem_zeros; lia.
Qed.

Lemma span_row_raises_only_IndexError (L : Z) (se : Z * Z) (e' : exn) :
  0 <= L -> span_row L se = Raise e' -> e' = IndexError.
Proof.
  intros HL; destruct se as [s e]; unfold span_row, np_zeros.
  replace (L <? 0) with false by (symmetry; apply Z.ltb_ge; lia).
  simpl.
  destruct (setitem_zeros_cases L s HL) as [[rs ->]| ->]; simpl;
    [|congruence].
  destruct (setitem_zeros_cases L e HL) as [[re ->]| ->]; simpl; congruence.
Qed.

Lemma span_row_outside (L s e : Z) :
  0 <= L -> (L <= s \/ s < - L) \/ (L <= e \/ e < - L) ->
  span_row L (s, e) = Raise IndexError.
Proof.
  intros HL Hbad; unfold span_row, np_zeros.
  replace (L <? 0) with false by (symmetry; apply Z.ltb_ge; lia).
  simpl.
  destruct (setitem_zeros_cases L s HL) as [[rs Hs]| ->]; [|reflexivity].
  rewrite Hs; simpl.
  destruct Hbad as [Hbad|Hbad].
  - rewrite setitem_zeros_outside in Hs by assumption. discriminate.
  - now rewrite setitem_zeros_outside.
Qed.

Lemma span_to_y_in_range (mcl : Z) (y : list (Z * Z)) (L : Z) :
  (forall s e, In (s, e) y -> - L <= s < L /\ - L <= e < L) ->
  span_to_y mcl y (Some L)
  = Ok (map (fun se => one_hot L (wrap_index L (fst se))) y,
        map (fun se => one_hot L (wrap_index L (snd se))) y).
Proof.
  intros Hy; unfold span_to_y.
  rewrite (mapM_ok _ (fun se => (one_hot L (wrap_index L (fst se)),
                                 one_hot L (wrap_index L (snd se))))).
  - simpl. now rewrite !map_map.
  - intros [s e] Hin. destruct (Hy s e Hin). now apply span_row_in_range.
Qed.

Lemma span_to_y_default (L : Z) (y : list (Z * Z)) :
  span_to_y L y None = span_to_y L y (Some L).
Proof. reflexivity. Qed.

Lemma Forall2_combine_map {A B C} (P : A -> B * C -> Prop)
      (f : A -> B) (g : A -> C) (l : list A) :
  (forall x, In x l -> P x (f x, g x)) ->
  Forall2 P l (combine (map f l) (map g l)).
Proof.
  induction l as [|x t IH]; intros HP; simpl; constructor.
  - apply HP; now left.
  - apply IH; intros; apply HP; now right.
Qed.

(** C6: for spans whose start and end both lie in [0, L), [span_to_y]
    returns one start row and one end row per span; the start row is 1
    exactly at [start] and 0 elsewhere, the end row 1 exactly at [end], the
    two rows sum to 2 and [np.argmax] of each gives back [start] and [end];
    and the spans [[1,2],[2,4],[1,1],[0,0]] with length 5 give the rows
    asserted by [test_preprocessing_units]. *)
Theorem span_to_y_one_hot :
  (forall (mcl : Z) (y : list (Z * Z)) (L : Z),
      (forall s e, In (s, e) y -> 0 <= s < L /\ 0 <= e < L) ->
      exists S E,
        span_to_y mcl y (Some L) = Ok (S, E)
        /\ length S = length y /\ length E = length y
        /\ Forall2 (fun se rows =>
                      hot_at (fst rows) L (fst se)
                      /\ hot_at (snd rows) L (snd se)
                      /\ np_sum (fst rows) + np_sum (snd rows) = 2
                      /\ np_argmax (fst rows) = Ok (fst se)
                      /\ np_argmax (snd rows) = Ok (snd se))
                   y (combine S E))
  /\ (forall mcl,
         span_to_y mcl [(1, 2); (2, 4); (1, 1); (0, 0)] (Some 5)
         = Ok ([[0; 1; 0; 0; 0]; [0; 0; 1; 0; 0]; [0; 1; 0; 0; 0];
                [1; 0; 0; 0; 0]],
               [[0; 0; 1; 0; 0]; [0; 0; 0; 0; 1]; [0; 1; 0; 0; 0];
                [1; 0; 0; 0; 0]])).
Proof.
  split; [|reflexivity].
  intros mcl y L Hy.
  assert (Hw : forall s e, In (s, e) y ->
                           wrap_index L s = s /\ wrap_index L e = e).
  { intros s e Hin; destruct (Hy s e Hin) as [Hs He]; unfold wrap_index.
    destruct (Z.ltb_spec s 0), (Z.ltb_spec e 0); lia. }
  eexists _, _; split; [|split; [|split]].
  - apply span_to_y_in_range. intros s e Hin; destruct (Hy s e Hin); lia.
  - apply length_map.
  - apply length_map.
  - apply Forall2_combine_map. intros [s e] Hin; simpl.
    destruct (Hy s e Hin) as [Hs He], (Hw s e Hin) as [-> ->].
    rewrite !np_sum_one_hot, !np_argmax_one_hot by assumption.
    repeat split; auto using one_hot_hot_at; apply one_hot_hot_at;
      assumption.
Qed.

Lemma span_to_y_one_hot_witness :
  exists S E,
    span_to_y 7 [(0, 3); (2, 1)] (Some 4) = Ok (S, E)
    /\ length S = 2%nat /\ length E = 2%nat
    /\ Forall2 (fun se rows =>
                  hot_at (fst rows) 4 (fst se)
                  /\ hot_at (snd rows) 4 (snd se)
                  /\ np_sum (fst rows) + np_sum (snd rows) = 2
                  /\ np_argmax (fst rows) = Ok (fst se)
                  /\ np_argmax (snd rows) = Ok (snd se))
               [(0, 3); (2, 1)] (combine S E).
Proof.
  apply (proj1 span_to_y_one_hot 7 [(0, 3); (2, 1)] 4).
  intros s e [Heq|[Heq|[]]]; inversion Heq; subst; lia.
Defined.

(** C9: when every start and end index lies in [-L, L), [span_to_y] raises
    nothing, and an index [i] in [-L, -1] puts the 1 of its row at position
    [L + i] (a non-negative index at [i] itself). *)
Theorem span_to_y_negative_wraps (mcl : Z) (y : list (Z * Z)) (L : Z) :
  (forall s e, In (s, e) y -> - L <= s < L /\ - L <= e < L) ->
  exists S E,
    span_to_y mcl y (Some L) = Ok (S, E)
    /\ length S = length y /\ length E = length y
    /\ Forall2 (fun se rows =>
                  hot_at (fst rows) L
                         (if fst se <? 0 then L + fst se else fst se)
                  /\ hot_at (snd rows) L
                            (if snd se <? 0 then L + snd se else snd se))
               y (combine S E).
Proof.
  intros Hy.
  eexists _, _; split; [|split; [|split]].
  - apply span_to_y_in_range, Hy.
  - apply length_map.
  - apply length_map.
  - apply Forall2_combine_map. intros [s e] Hin; simpl.
    destruct (Hy s e Hin) as [Hs He].
    replace (if s <? 0 then L + s else s) with (wrap_index L s)
      by (unfold wrap_index; destruct (s <? 0); lia).
    replace (if e <? 0 then L + e else e) with (wrap_index L e)
      by (unfold wrap_index; destruct (e <? 0); lia).
    split; apply one_hot_hot_at; unfold wrap_index;
      [destruct (Z.ltb_spec s 0)|destruct (Z.ltb_spec e 0)]; lia.
Qed.

Lemma span_to_y_negative_wraps_witness :
  exists S E,
    span_to_y 5 [(-1, 2); (3, -5)] (Some 5) = Ok (S, E)
    /\ length S = 2%nat /\ length E = 2%nat
    /\ Forall2 (fun se rows =>
                  hot_at (fst rows) 5
                         (if fst se <? 0 then 5 + fst se else fst se)
                  /\ hot_at (snd rows) 5
                            (if snd se <? 0 then 5 + snd se else snd se))
               [(-1, 2); (3, -5)] (combine S E).
Proof.
  apply (span_to_y_negative_wraps 5 [(-1, 2); (3, -5)] 5).
  intros s e [Heq|[Heq|[]]]; inversion Heq; subst; lia.
Defined.

(** C4 (amended): for a length [L >= 0], [span_to_y] raises [IndexError] as
    soon as some start or end index is [>= L] or [< -L]; this is the bounds
    check of the item assignment, the only check there is. *)
Theorem span_to_y_out_of_range (mcl : Z) (y : list (Z * Z)) (L s e : Z) :
  0 <= L ->
  In (s, e) y ->
  L <= s \/ s < - L \/ L <= e \/ e < - L ->
  span_to_y mcl y (Some L) = Raise IndexError.
Proof.
  intros HL Hin Hbad; unfold span_to_y.
  rewrite (mapM_raise (span_row L) IndexError); [reflexivity| |].
  - intros x e' _. now apply span_row_raises_only_IndexError.
  - exists (s, e); split; [assumption|].
    apply span_row_outside; [assumption|lia].
Qed.

Lemma span_to_y_out_of_range_witness :
  span_to_y 9 [(1, 2); (5, 2)] (Some 5) = Raise IndexError.
Proof.
  apply (span_to_y_out_of_range 9 [(1, 2); (5, 2)] 5 5 2);
    [lia | simpl; auto | lia].
Defined.

(** C4, as stated, fails: the start index -1 is below 0, and the span is
    encoded, with the 1 of the start row at the last position. *)
Lemma span_to_y_accepts_negative_index :
  -1 < 0
  /\ span_to_y 5 [(-1, 2)] (Some 5)
     = Ok ([[0; 0; 0; 0; 1]], [[0; 0; 1; 0; 0]]).
Proof. split; [lia|reflexivity]. Qed.

(** ** [read_and_pad] *)

Lemma mapM_inv {A B} (f : A -> result B) (l : list A) (l' : list B) :
  mapM f l = Ok l' -> Forall2 (fun x y => f x = Ok y) l l'.
Proof.
  revert l'; induction l as [|x t IH]; intros l'; simpl.
  - intros Heq; inversion Heq; constructor.
  - destruct (f x) as [y|] eqn:Hfx; simpl; [|discriminate].
    destruct (mapM f t) as [ys|]; simpl; [|discriminate].
    intros Heq; inversion Heq; subst. constructor; auto.
Qed.

Lemma mapM_map {A B C} (f : B -> result C) (g : A -> B) (l : list A) :
  mapM f (map g l) = mapM (fun x => f (g x)) l.
Proof.
  induction l as [|x t IH]; simpl; [reflexivity|]. now rewrite IH.
Qed.

Lemma Forall2_firstn {A B} (P : A -> B -> Prop) (n : nat) l l' :
  Forall2 P l l' -> Forall2 P (firstn n l) (firstn n l').
Proof.
  intros Hll; revert n; induction Hll; intros [|n]; simpl; constructor; auto.
Qed.

Lemma Forall2_repeat {A B} (P : A -> B -> Prop) (a : A) (b : B) (n : nat) :
  P a b -> Forall2 P (repeat a n) (repeat b n).
Proof. intros Hab; induction n; simpl; constructor; auto. Qed.

Lemma firstn_min {A} (n : nat) (l : list A) :
  firstn (Nat.min (length l) n) l = firstn n l.
Proof.
  destruct (Nat.le_ge_cases n (length l)).
  - now rewrite Nat.min_r.
  - rewrite Nat.min_l by assumption.
    now rewrite firstn_all, firstn_all2.
Qed.

Lemma slice_to_nonneg {A} (l : list A) (n : Z) :
  0 <= n -> slice_to l n = firstn (Z.to_nat n) l.
Proof.
  intros Hn; unfold slice_to, slice, slice_bound.
  pose proof (len_nonneg l) as Hl.
  replace (0 <? 0) with false by reflexivity.
  replace (n <? 0) with false by (symmetry; apply Z.ltb_ge; lia).
  rewrite (Z.min_l 0) by assumption. rewrite Z.sub_0_r.
  change (skipn (Z.to_nat 0) l) with l.
  rewrite <- (firstn_min (Z.to_nat n)). f_equal. unfold len in *; lia.
Qed.

Lemma pad_line_eq (L P : Z) (cells : list cell) :
  0 <= L ->
  let m := Nat.min (length cells) (Z.to_nat L) in
  pad_line L P cells
  = (firstn m cells ++ repeat (Int P) (Z.to_nat L - m),
     repeat true m ++ repeat false (Z.to_nat L - m)).
Proof.
  intros HL m; unfold pad_line. rewrite slice_to_nonneg by assumption.
  unfold replicate, len. rewrite length_firstn.
  rewrite <- (firstn_min (Z.to_nat L) cells).
  rewrite (Nat.min_comm (Z.to_nat L)). fold m.
  replace (Z.to_nat (Z.of_nat m)) with m by lia.
  replace (Z.to_nat (L - Z.of_nat m)) with (Z.to_nat L - m)%nat by lia.
  reflexivity.
Qed.

Lemma same_lengths_all {A} (n : nat) (rows : list (list A)) :
  Forall (fun r => length r = n) rows -> same_lengths rows = true.
Proof.
  intros Hrows; destruct rows as [|r rest]; [reflexivity|].
  inversion Hrows as [|? ? Hr Hrest]; subst; simpl.
  apply forallb_forall. intros r' Hin. apply Nat.eqb_eq.
  rewrite Forall_forall in Hrest. now apply Hrest.
Qed.

Lemma padded_row_length (L P : Z) (ids : list Z) :
  length (padded_row L P ids) = Z.to_nat L.
Proof.
  unfold padded_row. rewrite length_app, length_firstn, repeat_length. lia.
Qed.

Lemma padded_mask_length (L : Z) (ids : list Z) :
  length (padded_mask L ids) = Z.to_nat L.
Proof.
  unfold padded_mask. rewrite length_app, !repeat_length. lia.
Qed.

(** One line: the padded row converts to the padded ids, and the mask is
    the padded mask. *)
Lemma pad_line_ids (L P : Z) (line : string) (ids : list Z) :
  0 <= L -> in_int32 P = true -> line_ids line = Ok ids ->
  let padded := pad_line L P (map Tok (split line)) in
  mapM int32_of_cell (fst padded) = Ok (padded_row L P ids)
  /\ snd padded = padded_mask L ids
  /\ length (fst padded) = Z.to_nat L.
Proof.
  intros HL HP Hids padded; subst padded.
  apply mapM_inv in Hids.
  assert (Hlen : length (map Tok (split line)) = length ids)
    by (rewrite length_map; eapply Forall2_length; eassumption).
  rewrite pad_line_eq by assumption. simpl. rewrite Hlen.
  split; [|split].
  - apply mapM_Forall2. unfold padded_row. apply Forall2_app.
    + apply Forall2_firstn.
      clear Hlen; induction Hids; simpl; constructor; auto.
    + apply Forall2_repeat. simpl. unfold int32_of_int. now rewrite HP.
  - reflexivity.
  - rewrite length_app, length_firstn, repeat_length. lia.
Qed.

Lemma read_and_pad_rows (L P : Z) (lines : list string)
      (ids : list (list Z)) :
  0 <= L -> in_int32 P = true ->
  Forall2 (fun line row => line_ids line = Ok row) lines ids ->
  read_and_pad lines L P
  = Ok (map (padded_row L P) ids, map (padded_mask L) ids).
Proof.
  intros HL HP Hids; unfold read_and_pad, np_array_int32.
  rewrite !map_map.
  set (row := fun line => fst (pad_line L P (map Tok (split line)))).
  set (mask := fun line => snd (pad_line L P (map Tok (split line)))).
  assert (Hall : Forall (fun r => length r = Z.to_nat L) (map row lines)
                 /\ mapM (mapM int32_of_cell) (map row lines)
                    = Ok (map (padded_row L P) ids)
                 /\ map mask lines = map (padded_mask L) ids).
  { induction Hids as [|line r lines ids Hline _ IH]; simpl.
    - repeat split; constructor.
    - destruct IH as [IHlen [IHrows IHmask]].
      destruct (pad_line_ids L P line r HL HP Hline) as [Hrow [Hmask Hlen]].
      fold (row line) in Hrow, Hlen. fold (mask line) in Hmask.
      split; [|split].
      + constructor; assumption.
      + now rewrite Hrow, IHrows.
      + now rewrite Hmask, IHmask. }
  destruct Hall as [Hlen [Hrows Hmask]].
  rewrite (same_lengths_all _ _ Hlen), Hrows, Hmask. reflexivity.
Qed.

(** C2: for lines of integer ids (32-bit, as is the pad value [P]) and a
    length [L >= 0], [read_and_pad] returns one id row and one mask row of
    length [L] per line: the first [min(k, L)] ids of the line followed by
    [L - min(k, L)] copies of [P], and [True] on exactly the first
    [min(k, L)] positions. A line of more than [L] ids is cut to its first
    [L] ids, an empty line gives a row of pads with an all-[False] mask, and
    the fixture of [test_preprocessing_units] gives the rows asserted
    there. *)
Theorem read_and_pad_spec :
  (forall (lines : list string) (ids : list (list Z)) (L P : Z),
      0 <= L -> in_int32 P = true ->
      Forall2 (fun line k => line_ids line = Ok k) lines ids ->
      exists rows masks,
        read_and_pad lines L P = Ok (rows, masks)
        /\ length rows = length lines /\ length masks = length lines
        /\ Forall (fun r => len r = L) rows
        /\ Forall (fun m => len m = L) masks
        /\ Forall2
             (fun k rm =>
                let m := Z.min (len k) L in
                fst rm = firstn (Z.to_nat m) k ++ replicate (L - m) P
                /\ snd rm = replicate m true ++ replicate (L - m) false
                /\ (L < len k ->
                    fst rm = firstn (Z.to_nat L) k
                    /\ snd rm = replicate L true)
                /\ (k = [] ->
                    fst rm = replicate L P /\ snd rm = replicate L false))
             ids (combine rows masks))
  /\ read_and_pad unit_test_lines 5 (-1)
     = Ok ([[0; 1; 2; -1; -1]; [0; 1; 0; 1; 0]; [2; 1; -1; -1; -1]],
           [[true; true; true; false; false];
            [true; true; true; true; true];
            [true; true; false; false; false]]).
Proof.
  split; [|reflexivity].
  intros lines ids L P HL HP Hids.
  exists (map (padded_row L P) ids), (map (padded_mask L) ids).
  pose proof (Forall2_length Hids) as Hlen.
  split; [now apply read_and_pad_rows|].
  split; [now rewrite length_map|].
  split; [now rewrite length_map|].
  split; [|split].
  - apply Forall_forall; intros r Hin. apply in_map_iff in Hin.
    destruct Hin as [k [<- _]]. unfold len.
    rewrite padded_row_length; lia.
  - apply Forall_forall; intros r Hin. apply in_map_iff in Hin.
    destruct Hin as [k [<- _]]. unfold len.
    rewrite padded_mask_length; lia.
  - apply Forall2_combine_map. intros k _. cbv zeta. simpl fst; simpl snd.
    assert (Hm : Z.to_nat (Z.min (len k) L)
                 = Nat.min (length k) (Z.to_nat L)) by (unfold len; lia).
    assert (Hr : Z.to_nat (L - Z.min (len k) L)
                 = (Z.to_nat L - Nat.min (length k) (Z.to_nat L))%nat)
      by (unfold len; lia).
    assert (Hrow : padded_row L P k
                   = firstn (Z.to_nat (Z.min (len k) L)) k
                       ++ replicate (L - Z.min (len k) L) P)
      by (unfold padded_row, replicate; now rewrite Hm, Hr).
    assert (Hmask : padded_mask L k
                    = replicate (Z.min (len k) L) true
                        ++ replicate (L - Z.min (len k) L) false)
      by (unfold padded_mask, replicate; now rewrite Hm, Hr).
    split; [exact Hrow|]. split; [exact Hmask|]. split.
    + intros Hlong. rewrite Hrow, Hmask.
      rewrite Z.min_r, Z.sub_diag by lia.
      unfold replicate at 1 3; simpl. now rewrite !app_nil_r.
    + intros ->. rewrite Hrow, Hmask.
      change (len (@nil Z)) with 0. rewrite Z.min_l, Z.sub_0_r by lia.
      split; reflexivity.
Qed.

Lemma read_and_pad_spec_witness :
  exists rows masks,
    read_and_pad ["7 8 9 10"; ""; "5"]%string 3 0 = Ok (rows, masks)
    /\ length rows = 3%nat /\ length masks = 3%nat
    /\ Forall (fun r => len r = 3) rows
    /\ Forall (fun m => len m = 3) masks
    /\ Forall2
         (fun k rm =>
            let m := Z.min (len k) 3 in
            fst rm = firstn (Z.to_nat m) k ++ replicate (3 - m) 0
            /\ snd rm = replicate m true ++ replicate (3 - m) false
            /\ (3 < len k ->
                fst rm = firstn (Z.to_nat 3) k /\ snd rm = replicate 3 true)
            /\ (k = [] ->
                fst rm = replicate 3 0 /\ snd rm = replicate 3 false))
         [[7; 8; 9; 10]; []; [5]] (combine rows masks).
Proof.
  apply (proj1 read_and_pad_spec ["7 8 9 10"; ""; "5"]%string
               [[7; 8; 9; 10]; []; [5]] 3 0).
  - lia.
  - reflexivity.
  - repeat (constructor; [reflexivity|]). constructor.
Defined.

(* ------------------------------------------------------------------ *)
(** * Properties of the metrics *)
(* ------------------------------------------------------------------ *)

Lemma for_each_ext {A S} (l : list A) (f g : A -> S -> result S) (s : S) :
  (forall x s', f x s' = g x s') -> for_each l f s = for_each l g s.
Proof.
  intros Hfg; revert s; induction l as [|x t IH]; intros s; simpl;
    [reflexivity|].
  rewrite Hfg. destruct (g x s); simpl; auto.
Qed.

Lemma getitem_raises_only_IndexError {A} (l : list A) (i : Z) (e : exn) :
  getitem l i = Raise e -> e = IndexError.
Proof.
  unfold getitem, index.
  destruct ((0 <=? i) && (i <? len l)); simpl.
  - destruct (nth_error l (Z.to_nat i)); congruence.
  - destruct ((- len l <=? i) && (i <? 0)); simpl; [|congruence].
    destruct (nth_error l (Z.to_nat (i + len l))); congruence.
Qed.

Lemma slice_bound_range (n i : Z) : 0 <= n -> 0 <= slice_bound n i <= n.
Proof. intros Hn; unfold slice_bound; destruct (Z.ltb_spec i 0); lia. Qed.

Lemma fill_slice_length {A} (a : list A) (s e : Z) (v : A) :
  length (fill_slice a s e v) = length a.
Proof.
  unfold fill_slice.
  pose proof (slice_bound_range (len a) s (len_nonneg a)) as Hlo.
  pose proof (slice_bound_range (len a) e (len_nonneg a)) as Hhi.
  rewrite !length_app, repeat_length, !length_firstn, !length_skipn.
  unfold len in *; lia.
Qed.

(** Entry [j] of [a] after [a[s:e] = v]. *)
Lemma fill_slice_nth {A} (a : list A) (s e : Z) (v d : A) (j : nat) :
  (j < length a)%nat ->
  nth j (fill_slice a s e v) d
  = if (slice_bound (len a) s <=? Z.of_nat j)
       && (Z.of_nat j <? slice_bound (len a) e)
    then v else nth j a d.
Proof.
  intros Hj; unfold fill_slice.
  pose proof (slice_bound_range (len a) s (len_nonneg a)) as Hlo.
  pose proof (slice_bound_range (len a) e (len_nonneg a)) as Hhi.
  set (lo := slice_bound (len a) s) in *.
  set (hi := slice_bound (len a) e) in *.
  unfold len in Hlo, Hhi.
  destruct (Z.leb_spec lo (Z.of_nat j)) as [Hge|Hlt]; simpl.
  - rewrite app_nth2; rewrite length_firstn; [|lia].
    replace (Nat.min (Z.to_nat lo) (length a)) with (Z.to_nat lo) by lia.
    destruct (Z.ltb_spec (Z.of_nat j) hi) as [Hin|Hout].
    + rewrite app_nth1; [apply nth_repeat_lt|];
        rewrite ?repeat_length, length_firstn, length_skipn; lia.
    + rewrite app_nth2;
        rewrite repeat_length, length_firstn, length_skipn; [|lia].
      rewrite nth_skipn. f_equal. lia.
  - rewrite app_nth1 by (rewrite length_firstn; lia).
    rewrite nth_firstn.
    replace (j <? Z.to_nat lo)%nat with true
      by (symmetry; apply Nat.ltb_lt; lia).
    reflexivity.
Qed.

(** Two slice assignments of the same value commute. *)
Lemma fill_slice_comm {A} (a : list A) (s1 e1 s2 e2 : Z) (v : A) :
  fill_slice (fill_slice a s1 e1 v) s2 e2 v
  = fill_slice (fill_slice a s2 e2 v) s1 e1 v.
Proof.
  apply nth_ext with (d := v) (d' := v).
  - now rewrite !fill_slice_length.
  - intros j Hj. rewrite !fill_slice_length in Hj.
    rewrite !fill_slice_nth by (rewrite ?fill_slice_length; assumption).
    unfold len. rewrite !fill_slice_length.
    destruct ((slice_bound (Z.of_nat (length a)) s2 <=? Z.of_nat j)
              && (Z.of_nat j <? slice_bound (Z.of_nat (length a)) e2)),
             ((slice_bound (Z.of_nat (length a)) s1 <=? Z.of_nat j)
              && (Z.of_nat j <? slice_bound (Z.of_nat (length a)) e1));
      reflexivity.
Qed.

Lemma pred_cover_flip (y : list Z) (pS pE : Z) :
  pred_cover y pS pE = pred_cover y pE pS.
Proof. unfold pred_cover. apply fill_slice_comm. Qed.

(** C5: swapping the predicted start and end changes neither the predicted
    coverage vector nor the value (or the exception) of [get_f1]. *)
Theorem get_f1_flip_invariant {F : Type} `{FloatOps F} :
  (forall (y : list Z) (pS pE : Z),
      pred_cover y pS pE = pred_cover y pE pS)
  /\ (forall (max_c_length : Z) (yS yE : list (list Z)) (ypS ypE : list Z)
             (mask : list (list bool)),
         get_f1 max_c_length yS yE ypS ypE mask
         = get_f1 max_c_length yS yE ypE ypS mask).
Proof.
  split; [exact pred_cover_flip|].
  intros mcl yS yE ypS ypE mask; unfold get_f1. f_equal.
  apply for_each_ext. intros i f1_tot.
  destruct (np_zeros mcl) as [y|]; simpl; [|reflexivity].
  destruct (getitem yS i) as [rowS|]; simpl; [|reflexivity].
  destruct (np_argmax rowS) as [s|]; simpl; [|reflexivity].
  destruct (getitem yE i) as [rowE|]; simpl; [|reflexivity].
  destruct (np_argmax rowE) as [e|]; simpl; [|reflexivity].
  destruct (getitem ypS i) as [pS|eS] eqn:HS,
           (getitem ypE i) as [pE|eE] eqn:HE; simpl.
  - now rewrite pred_cover_flip.
  - reflexivity.
  - reflexivity.
  - apply getitem_raises_only_IndexError in HS, HE. now subst.
Qed.

(** C10: neither metric depends on its [mask] argument. *)
Theorem metrics_ignore_mask {F : Type} `{FloatOps F}
        (max_c_length : Z) (yS yE : list (list Z)) (ypS ypE : list Z)
        (mask1 mask2 : list (list bool)) :
  get_exact_match yS yE ypS ypE mask1 = get_exact_match yS yE ypS ypE mask2
  /\ get_f1 max_c_length yS yE ypS ypE mask1
     = get_f1 max_c_length yS yE ypS ypE mask2.
Proof. split; reflexivity. Qed.

(** C3 (amended): over zero samples both metrics raise
    [ZeroDivisionError], whatever the other arguments are; the division by
    the sample count is not guarded and no value is returned. *)
Theorem metrics_zero_samples_raise {F : Type} `{FloatOps F}
        (max_c_length : Z) (yE : list (list Z)) (ypS ypE : list Z)
        (mask : list (list bool)) :
  get_exact_match [] yE ypS ypE mask = Raise ZeroDivisionError
  /\ get_f1 max_c_length [] yE ypS ypE mask = Raise ZeroDivisionError.
Proof. split; reflexivity. Qed.

(** C3, as stated, fails: with empty gold arrays both metrics, run on exact
    rationals, end in the divide-by-zero exception. *)
Lemma metrics_empty_divide_by_zero :
  @get_exact_match Q Q_float [] [] [] [] []
  = Raise ZeroDivisionError
  /\ @get_f1 Q Q_float 5 [] [] [] [] [] = Raise ZeroDivisionError.
Proof. split; reflexivity. Qed.

(* ------------------------------------------------------------------ *)
(** * Properties of the batch iterator *)
(* ------------------------------------------------------------------ *)

Lemma firstn_add_skipn {A} (a b : nat) (l : list A) :
  firstn (a + b) l = firstn a l ++ firstn b (skipn a l).
Proof.
  revert l; induction a as [|a IH]; intros l; simpl; [reflexivity|].
  destruct l as [|x l]; simpl.
  - now rewrite firstn_nil.
  - now rewrite IH.
Qed.

Lemma concat_chunks {A} (k n : nat) (l : list A) :
  concat (chunks k n l) = firstn (k * n) l.
Proof.
  revert l; induction k as [|k IH]; intros l; simpl; [reflexivity|].
  now rewrite IH, firstn_add_skipn.
Qed.

Lemma chunks_length {A} (k n : nat) (l : list A) :
  length (chunks k n l) = k.
Proof. revert l; induction k; intros l; simpl; auto. Qed.

Lemma chunks_nth_error {A} (k n j : nat) (l c : list A) :
  nth_error (chunks k n l) j = Some c -> c = firstn n (skipn (j * n) l).
Proof.
  revert j l; induction k as [|k IH]; intros j l; simpl.
  - destruct j; discriminate.
  - destruct j as [|j]; simpl.
    + intros Heq; now inversion Heq.
    + intros Heq. apply IH in Heq. rewrite Heq.
      now rewrite skipn_skipn, Nat.add_comm.
Qed.

Lemma slice_nonneg {A} (l : list A) (a b : Z) :
  0 <= a <= b ->
  slice l a b = firstn (Z.to_nat (b - a)) (skipn (Z.to_nat a) l).
Proof.
  intros Hab; unfold slice, slice_bound, len.
  replace (a <? 0) with false by (symmetry; apply Z.ltb_ge; lia).
  replace (b <? 0) with false by (symmetry; apply Z.ltb_ge; lia).
  destruct (Z.le_gt_cases (Z.of_nat (length l)) a) as [Hout|Hin].
  - rewrite !skipn_all2 by lia. now rewrite !firstn_nil.
  - rewrite (Z.min_l a) by lia.
    destruct (Z.le_gt_cases b (Z.of_nat (length l))).
    + now rewrite Z.min_l by lia.
    + rewrite Z.min_r by lia.
      rewrite !firstn_all2; [reflexivity| |]; rewrite length_skipn; lia.
Qed.

Section BatchProps.
Context {R : Type} `{Rng R}.

(** From a cursor [c] that stays below [N] for [k] calls, the calls issue
    the successive chunks of the permutation in force and change nothing
    but the cursor. *)
Lemma issue_no_wrap (k : nat) (B : Z) (b : Batching) (r : R) :
  0 < B -> 0 <= batch_index b ->
  (k <> O ->
   batch_index b + (Z.of_nat k - 1) * B < max_batch_index b) ->
  issue k b r B
  = (chunks k (Z.to_nat B)
            (skipn (Z.to_nat (batch_index b)) (batch_permutation b)),
     {| batch_index := batch_index b + Z.of_nat k * B;
        max_batch_index := max_batch_index b;
        batch_permutation := batch_permutation b |},
     r).
Proof.
  intros HB; revert b r; induction k as [|k IH]; intros b r Hc Hk.
  - simpl. destruct b; simpl. repeat f_equal. lia.
  - cbn [issue]. unfold next_indices at 1.
    assert (Hlt : batch_index b < max_batch_index b)
      by (specialize (Hk ltac:(discriminate)); nia).
    replace (max_batch_index b <=? batch_index b) with false
      by (symmetry; apply Z.leb_gt; assumption).
    rewrite IH; cbn [batch_index max_batch_index batch_permutation].
    + rewrite slice_nonneg by lia.
      cbn [chunks]. rewrite skipn_skipn.
      replace (batch_index b + B - batch_index b) with B by lia.
      replace (Z.to_nat B + Z.to_nat (batch_index b))%nat
        with (Z.to_nat (batch_index b + B)) by lia.
      replace (batch_index b + B + Z.of_nat k * B)
        with (batch_index b + Z.of_nat (S k) * B) by lia.
      reflexivity.
    + lia.
    + intros Hne. specialize (Hk ltac:(discriminate)). nia.
Qed.

End BatchProps.

Lemma calls_per_pass_bounds (N B : Z) :
  0 < N -> 0 < B ->
  1 <= Z.of_nat (calls_per_pass N B)
  /\ (Z.of_nat (calls_per_pass N B) - 1) * B < N
      <= Z.of_nat (calls_per_pass N B) * B.
Proof.
  intros HN HB; unfold calls_per_pass.
  pose proof (Z.div_mod (N + B - 1) B ltac:(lia)) as Hdm.
  pose proof (Z.mod_pos_bound (N + B - 1) B HB) as Hmod.
  assert (Hq : 1 <= (N + B - 1) / B) by (apply Z.div_le_lower_bound; lia).
  rewrite Z2Nat.id by lia. nia.
Qed.

Lemma arange_length (n : Z) : length (arange n) = Z.to_nat n.
Proof. unfold arange. now rewrite length_map, length_seq. Qed.

Lemma arange_In (n i : Z) : In i (arange n) <-> 0 <= i < n.
Proof.
  unfold arange. rewrite in_map_iff. split.
  - intros [k [<- Hk]]. apply in_seq in Hk. lia.
  - intros Hi. exists (Z.to_nat i). split; [lia|]. apply in_seq. lia.
Qed.

Lemma arange_NoDup (n : Z) : NoDup (arange n).
Proof.
  unfold arange. apply Finite.Injective_map_NoDup; [|apply seq_NoDup].
  intros x y Hxy. lia.
Qed.

Lemma chunks_full_pass (N B : Z) (p : list Z) :
  0 < N -> 0 < B -> Permutation p (arange N) ->
  full_pass N B p (chunks (calls_per_pass N B) (Z.to_nat B) p).
Proof.
  intros HN HB Hp.
  destruct (calls_per_pass_bounds N B HN HB) as [HK1 [HKlo HKhi]].
  pose proof (Permutation_length Hp) as Hlen. rewrite arange_length in Hlen.
  assert (Hcat : concat (chunks (calls_per_pass N B) (Z.to_nat B) p) = p).
  { rewrite concat_chunks. apply firstn_all2. nia. }
  unfold full_pass. rewrite Hcat.
  split; [reflexivity|]. split; [assumption|]. split; [|split; [|split]].
  - apply (Permutation_NoDup (Permutation_sym Hp)), arange_NoDup.
  - intros i. rewrite <- arange_In. split; apply Permutation_in;
      [assumption|now apply Permutation_sym].
  - apply chunks_length.
  - intros j batch Hj.
    assert (HjK : (j < calls_per_pass N B)%nat).
    { rewrite <- (chunks_length (calls_per_pass N B) (Z.to_nat B) p).
      apply nth_error_Some. congruence. }
    apply chunks_nth_error in Hj. subst batch. unfold len.
    rewrite length_firstn, length_skipn. split; [nia|]. intros HSj. nia.
Qed.

Lemma insert_by_key_perm (x : Z * Z) (l : list (Z * Z)) :
  Permutation (insert_by_key x l) (x :: l).
Proof.
  induction l as [|y t IH]; simpl; [reflexivity|].
  destruct (snd x <=? snd y); [reflexivity|].
  rewrite IH. apply perm_swap.
Qed.

Lemma map_fst_combine_le {A B} (l : list A) (l' : list B) :
  length l = length l' -> map fst (combine l l') = l.
Proof.
  revert l'; induction l as [|x l IH]; intros [|y l'] Hlen; simpl;
    try discriminate; [reflexivity|].
  f_equal. apply IH. now inversion Hlen.
Qed.

Lemma np_argsort_perm (keys : list Z) :
  Permutation (np_argsort keys) (arange (len keys)).
Proof.
  unfold np_argsort.
  rewrite <- (map_fst_combine_le (arange (len keys)) keys) at 2
    by (rewrite arange_length; unfold len; lia).
  apply Permutation_map.
  induction (combine (arange (len keys)) keys) as [|x l IH]; simpl;
    [reflexivity|].
  rewrite insert_by_key_perm. now constructor.
Qed.

Section PassProps.
Context {R : Type} `{Rng R}.

(** [next_batch] gathers with the index arrays of [issue], call by call. *)
Lemma next_batches_issue (k : nat) (d : TrainData) (b : Batching) (r : R)
      (B : Z) :
  next_batches k d b r B
  = let '(idxs, b', r') := issue k b r B in
    bs <- mapM (gather d) idxs ;; Ok (bs, b', r').
Proof.
  revert b r; induction k as [|k IH]; intros b r; [reflexivity|].
  cbn [next_batches issue]. unfold next_batch.
  destruct (next_indices b r B) as [[idx b1] r1].
  destruct (gather d idx) as [batch|e] eqn:Hg; cbn [bind].
  - rewrite IH. destruct (issue k b1 r1 B) as [[idxs b2] r2].
    cbn [mapM]. rewrite Hg.
    destruct (mapM (gather d) idxs); reflexivity.
  - destruct (issue k b1 r1 B) as [[idxs b2] r2].
    cbn [mapM]. now rewrite Hg.
Qed.

(** A pass from cursor 0. *)
Lemma issue_pass (N B : Z) (b : Batching) (r : R) :
  0 < N -> 0 < B ->
  max_batch_index b = N -> batch_index b = 0 ->
  Permutation (batch_permutation b) (arange N) ->
  exists batches b',
    issue (calls_per_pass N B) b r B = (batches, b', r)
    /\ full_pass N B (batch_permutation b') batches
    /\ batch_permutation b' = batch_permutation b
    /\ N <= batch_index b'
    /\ max_batch_index b' = N.
Proof.
  intros HN HB Hmax Hidx Hp.
  destruct (calls_per_pass_bounds N B HN HB) as [HK1 [HKlo HKhi]].
  eexists _, _. split; [apply issue_no_wrap; lia|].
  cbn [batch_index max_batch_index batch_permutation].
  rewrite Hidx. change (Z.to_nat 0) with O. rewrite skipn_O.
  split; [now apply chunks_full_pass|].
  split; [reflexivity|]. split; [lia|assumption].
Qed.

Lemma next_indices_wrap (b : Batching) (r : R) (B : Z) :
  0 < max_batch_index b -> max_batch_index b <= batch_index b ->
  next_indices b r B
  = next_indices
      {| batch_index := 0; max_batch_index := max_batch_index b;
         batch_permutation :=
           fst (random_permutation (max_batch_index b) r) |}
      (snd (random_permutation (max_batch_index b) r)) B.
Proof.
  intros Hpos Hwrap; unfold next_indices.
  replace (max_batch_index b <=? batch_index b) with true
    by (symmetry; apply Z.leb_le; assumption).
  destruct (random_permutation (max_batch_index b) r) as [p r'].
  cbn [fst snd batch_index max_batch_index batch_permutation].
  replace (max_batch_index b <=? 0) with false
    by (symmetry; apply Z.leb_gt; assumption).
  reflexivity.
Qed.

Lemma initialize_batch_processing_fresh `{!RngLawful R}
      (d : TrainData) (N : Z) (mode : ordering) (r : R) :
  (mode = by_length -> len (X_c_mask d) = N) ->
  let b0 := fst (initialize_batch_processing d N mode r) in
  max_batch_index b0 = N /\ batch_index b0 = 0
  /\ Permutation (batch_permutation b0) (arange N).
Proof.
  intros Hlen; destruct mode; cbn.
  - repeat split. rewrite <- (Hlen eq_refl).
    replace (len (X_c_mask d)) with (len (row_sums (X_c_mask d)))
      by (unfold len, row_sums; now rewrite length_map).
    apply np_argsort_perm.
  - pose proof (random_permutation_perm N r) as Hp.
    destruct (random_permutation N r) as [p r']. now repeat split.
  - now repeat split.
Qed.

End PassProps.

(** C1: for [N > 0] samples and batch size [B > 0], the [ceil(N / B)]
    calls of [next_batch] that follow [initialize_batch_processing] (in any
    ordering mode; for ['by_length'] the mask has its [N] rows), and
    likewise the [ceil(N / B)] calls that start with a wrap, gather with
    index arrays that are the successive slices of one permutation of
    [0, N): every index is issued exactly once, only the last array may be
    shorter than [B], and the cursor then stands at or beyond [N], so that
    the following call wraps. *)
Theorem next_batch_full_pass {R : Type} `{Rng R} `{!RngLawful R} (N B : Z) :
  0 < N -> 0 < B ->
  (forall (d : TrainData) (mode : ordering) (r : R) b0 r0,
      (mode = by_length -> len (X_c_mask d) = N) ->
      initialize_batch_processing d N mode r = (b0, r0) ->
      exists batches b',
        issue (calls_per_pass N B) b0 r0 B = (batches, b', r0)
        /\ full_pass N B (batch_permutation b0) batches
        /\ batch_permutation b' = batch_permutation b0
        /\ N <= batch_index b' /\ max_batch_index b' = N)
  /\ (forall (b : Batching) (r : R),
         max_batch_index b = N -> N <= batch_index b ->
         exists batches b',
           issue (calls_per_pass N B) b r B
           = (batches, b', snd (random_permutation N r))
           /\ full_pass N B (fst (random_permutation N r)) batches
           /\ batch_permutation b' = fst (random_permutation N r)
           /\ N <= batch_index b' /\ max_batch_index b' = N)
  /\ (forall (k : nat) (d : TrainData) (b : Batching) (r : R),
         next_batches k d b r B
         = let '(idxs, b', r') := issue k b r B in
           bs <- mapM (gather d) idxs ;; Ok (bs, b', r')).
Proof.
  intros HN HB. split; [|split].
  - intros d mode r b0 r0 Hlen Hinit.
    pose proof (initialize_batch_processing_fresh d N mode r Hlen) as Hfresh.
    rewrite Hinit in Hfresh. cbn [fst] in Hfresh.
    destruct Hfresh as [Hmax [Hidx Hp]].
    destruct (issue_pass N B b0 r0 HN HB Hmax Hidx Hp)
      as [batches [b' [Hiss [Hpass [Hperm Hend]]]]].
    exists batches, b'. rewrite Hperm in Hpass. auto.
  - intros b r Hmax Hwrap.
    set (b1 := {| batch_index := 0; max_batch_index := N;
                  batch_permutation := fst (random_permutation N r) |}).
    destruct (issue_pass N B b1 (snd (random_permutation N r)) HN HB
                         eq_refl eq_refl (random_permutation_perm N r))
      as [batches [b' [Hiss [Hpass [Hperm Hend]]]]].
    exists batches, b'. rewrite Hperm in Hpass.
    split; [|auto].
    rewrite <- Hiss.
    destruct (calls_per_pass_bounds N B HN HB) as [HK1 _].
    destruct (calls_per_pass N B) as [|k]; [lia|].
    cbn [issue]. rewrite next_indices_wrap by lia.
    rewrite Hmax. reflexivity.
  - intros k d b r. apply next_batches_issue.
Qed.

Lemma rotate_perm {A} (k : nat) (l : list A) :
  Permutation (rotate k l) l.
Proof.
  unfold rotate.
  rewrite Permutation_app_comm. now rewrite firstn_skipn.
Qed.

Lemma rotating_rng_lawful : RngLawful nat.
Proof. constructor. intros n r. apply rotate_perm. Qed.

Lemma next_batch_full_pass_witness :
  (exists batches b',
      issue (calls_per_pass 7 3)
            (fst (initialize_batch_processing (toy_data 7) 7
                                              by_length 2%nat))
            2%nat 3
      = (batches, b', 2%nat)
      /\ full_pass 7 3 [0; 1; 2; 3; 4; 5; 6] batches
      /\ batch_permutation b' = [0; 1; 2; 3; 4; 5; 6]
      /\ 7 <= batch_index b' /\ max_batch_index b' = 7)
  /\ (exists batches b',
         issue (calls_per_pass 7 3)
               {| batch_index := 9; max_batch_index := 7;
                  batch_permutation := [0; 1; 2; 3; 4; 5; 6] |}
               5%nat 3
         = (batches, b', 6%nat)
         /\ full_pass 7 3 [5; 6; 0; 1; 2; 3; 4] batches
         /\ batch_permutation b' = [5; 6; 0; 1; 2; 3; 4]
         /\ 7 <= batch_index b' /\ max_batch_index b' = 7).
Proof.
  destruct (@next_batch_full_pass nat rotating_rng
              rotating_rng_lawful 7 3 ltac:(lia) ltac:(lia))
    as [Hinit [Hwrap _]].
  split.
  - apply (Hinit (toy_data 7) by_length 2%nat);
      [reflexivity|reflexivity].
  - apply (Hwrap {| batch_index := 9; max_batch_index := 7;
                    batch_permutation := [0; 1; 2; 3; 4; 5; 6] |} 5%nat);
      [reflexivity|simpl; lia].
Defined.

(* ------------------------------------------------------------------ *)
(** * Properties of the training loop *)
(* ------------------------------------------------------------------ *)

Lemma windows_fuel_enough {A} (w : nat) (fuel fuel' : nat) (l : list A) :
  (0 < w)%nat -> (length l <= fuel)%nat -> (length l <= fuel')%nat ->
  windows_fuel fuel w l = windows_fuel fuel' w l.
Proof.
  intros Hw; revert fuel' l; induction fuel as [|fuel IH];
    intros fuel' l Hf Hf'.
  - destruct l; [|simpl in Hf; lia].
    destruct fuel'; simpl; [reflexivity|].
    destruct w; [lia|reflexivity].
  - destruct fuel' as [|fuel'].
    + destruct l; [|simpl in Hf'; lia]. simpl.
      destruct w; [lia|reflexivity].
    + simpl. destruct (Nat.leb_spec w (length l)); [|reflexivity].
      rewrite (IH fuel' (skipn w l)); [reflexivity| |];
        rewrite length_skipn; lia.
Qed.

Lemma windows_short {A} (w : nat) (l : list A) :
  (length l < w)%nat -> windows w l = ([], l).
Proof.
  intros Hl; unfold windows. destruct (length l) eqn:Hlen; simpl;
    [reflexivity|].
  rewrite Hlen. destruct (Nat.leb_spec w (S n)); [lia|reflexivity].
Qed.

Lemma firstn_app_exact {A} (a t : list A) : firstn (length a) (a ++ t) = a.
Proof.
  rewrite firstn_app, firstn_all, Nat.sub_diag. simpl. apply app_nil_r.
Qed.

Lemma skipn_app_exact {A} (a t : list A) : skipn (length a) (a ++ t) = t.
Proof. rewrite skipn_app, skipn_all, Nat.sub_diag. reflexivity. Qed.

Lemma windows_app {A} (w : nat) (a t : list A) :
  (0 < w)%nat -> length a = w ->
  windows w (a ++ t) = (a :: fst (windows w t), snd (windows w t)).
Proof.
  intros Hw Ha; unfold windows.
  pose proof (firstn_app_exact a t) as Hfirst.
  pose proof (skipn_app_exact a t) as Hskip.
  rewrite Ha in Hfirst, Hskip.
  rewrite length_app, Ha.
  replace (w + length t)%nat with (S (w - 1 + length t)) by lia.
  cbn [windows_fuel]. rewrite length_app, Ha, Hfirst, Hskip.
  replace (w <=? w + length t)%nat with true
    by (symmetry; apply Nat.leb_le; lia).
  rewrite (windows_fuel_enough w (w - 1 + length t) (length t) t) by lia.
  now destruct (windows_fuel (length t) w t).
Qed.

(** What [windows] returns: the input cut into full windows and a shorter
    remainder. *)
Lemma windows_spec {A} (w : nat) (l : list A) :
  (0 < w)%nat ->
  concat (fst (windows w l)) ++ snd (windows w l) = l
  /\ Forall (fun x => length x = w) (fst (windows w l))
  /\ (length (snd (windows w l)) < w)%nat.
Proof.
  intros Hw; unfold windows.
  assert (Hgen : forall fuel (l : list A),
             (length l <= fuel)%nat ->
             concat (fst (windows_fuel fuel w l))
               ++ snd (windows_fuel fuel w l) = l
             /\ Forall (fun x => length x = w) (fst (windows_fuel fuel w l))
             /\ (length (snd (windows_fuel fuel w l)) < w)%nat).
  { induction fuel as [|fuel IH]; intros l0 Hl0; simpl.
    - destruct l0; [|simpl in Hl0; lia]. simpl. repeat split; auto.
    - destruct (Nat.leb_spec w (length l0)).
      + destruct (IH (skipn w l0)) as [Hcat [Hall Hrest]];
          [rewrite length_skipn; lia|].
        destruct (windows_fuel fuel w (skipn w l0)) as [ws rest]; simpl in *.
        split; [|split; [|assumption]].
        * rewrite <- app_assoc, Hcat. apply firstn_skipn.
        * constructor; [|assumption]. rewrite length_firstn; lia.
      + simpl. repeat split; auto. }
  apply Hgen. lia.
Qed.

Section TrainingProps.
Context {F S R : Type} `{FloatOps F} `{Rng R} `{Session F S}.

Lemma extend_history_nil (h : History F) : extend_history h [] = h.
Proof.
  destruct h; unfold extend_history; simpl. now rewrite !app_nil_r.
Qed.

Lemma extend_history_cons (h : History F) (w : list (Scalars F)) ws :
  extend_history (append_means h (accum_of w)) ws
  = extend_history h (w :: ws).
Proof.
  unfold extend_history, append_means; simpl.
  now rewrite <- !app_assoc.
Qed.

(** The appends and flushes of the steps [t], started with the steps [w]
    (fewer than 20) in the accumulators. *)
Lemma record_steps (t w : list (Scalars F)) (h : History F) :
  (length w < 20)%nat ->
  fold_left (fun ah sc => record_step sc ah) t (accum_of w, h)
  = (accum_of (snd (windows 20 (w ++ t))),
     extend_history h (fst (windows 20 (w ++ t)))).
Proof.
  revert w h; induction t as [|sc t IH]; intros w h Hw.
  - rewrite app_nil_r, windows_short by assumption. simpl.
    now rewrite extend_history_nil.
  - cbn [fold_left]. unfold record_step at 2.
    cbn [accum_of losses EMs f1s grad_norms]. rewrite <- !map_last.
    fold (accum_of (w ++ [sc])).
    replace (len (map s_loss (w ++ [sc]))) with (Z.of_nat (length w) + 1)
      by (unfold len; rewrite length_map, length_app; simpl; lia).
    replace (w ++ sc :: t) with ((w ++ [sc]) ++ t)
      by (now rewrite <- app_assoc).
    destruct (Z.leb_spec 20 (Z.of_nat (length w) + 1)) as [Hfull|Hpart].
    + change empty_accum with (accum_of (@nil (Scalars F))).
      rewrite IH by (simpl; lia).
      rewrite (windows_app 20 (w ++ [sc]) t)
        by (rewrite ?length_app; simpl; lia).
      cbn [fst snd app]. now rewrite extend_history_cons.
    + apply IH. rewrite length_app; simpl; lia.
Qed.

(** The inner loop is the sequence of its steps followed by their
    recording. *)
Lemma train_loop_steps {A} (l : list A) (mcl : Z) (d : TrainData) (B : Z)
      (sbr : S * Batching * R) (ah : Accum F * History F) :
  for_each l (fun _ st => train_iteration mcl d B st) (sbr, ah)
  = match run_steps (length l) mcl d B sbr with
    | Raise e => Raise e
    | Ok (t, sbr') =>
        Ok (sbr', fold_left (fun ah sc => record_step sc ah) t ah)
    end.
Proof.
  revert sbr ah; induction l as [|x l IH]; intros sbr ah; [reflexivity|].
  cbn [for_each length run_steps]. unfold train_iteration at 1.
  destruct (train_step mcl d B sbr) as [[sbr1 sc]|e]; cbn [bind];
    [|reflexivity].
  rewrite IH.
  destruct (run_steps (length l) mcl d B sbr1) as [[t sbr2]|e]; reflexivity.
Qed.

Lemma run_steps_length (k : nat) (mcl : Z) (d : TrainData) (B : Z)
      (sbr sbr' : S * Batching * R) (t : list (Scalars F)) :
  run_steps k mcl d B sbr = Ok (t, sbr') -> length t = k.
Proof.
  revert sbr t; induction k as [|k IH]; intros sbr t; cbn [run_steps].
  - intros Heq; now inversion Heq.
  - destruct (train_step mcl d B sbr) as [[sbr1 sc]|]; cbn [bind];
      [|discriminate].
    destruct (run_steps k mcl d B sbr1) as [[t' sbr2]|] eqn:Hrun;
      cbn [bind]; [|discriminate].
    intros Heq; inversion Heq; subst. simpl. f_equal. eapply IH; eauto.
Qed.

(** C7: with a batch size [B > 0] the inner loop of an epoch runs exactly
    [floor(N / B)] training steps ([N = len(self.yS)]); if one of them
    raises, so does the epoch. Otherwise the steps are cut into windows of
    20: for every full window the means of its 20 losses, EMs, F1s and
    gradient norms are appended to the four histories and the accumulators
    are emptied, and the fewer than 20 steps after the last full window stay
    in the accumulators, which no history of the epoch receives. *)
Theorem train_epoch_windows (max_c_length : Z) (d : TrainData) (B : Z)
        (sbr : S * Batching * R) (h : History F) :
  0 < B ->
  let K := Z.to_nat (len (yS d) / B) in
  match run_steps K max_c_length d B sbr with
  | Raise e => train_one_epoch max_c_length d B sbr h = Raise e
  | Ok (trace, sbr') =>
      length trace = K
      /\ train_one_epoch max_c_length d B sbr h
         = Ok (sbr', (accum_of (snd (windows 20 trace)),
                      extend_history h (fst (windows 20 trace))))
      /\ concat (fst (windows 20 trace)) ++ snd (windows 20 trace) = trace
      /\ Forall (fun w => length w = 20%nat) (fst (windows 20 trace))
      /\ (length (snd (windows 20 trace)) < 20)%nat
      /\ (forall (v : ValData) (run run' : Run),
             run_state run = sbr -> run_history run = h ->
             train_epoch max_c_length d v B run = Ok run' ->
             run_history run'
             = extend_history h (fst (windows 20 trace)))
  end.
Proof.
  intros HB K.
  assert (Hloop : train_one_epoch max_c_length d B sbr h
                  = match run_steps K max_c_length d B sbr with
                    | Raise e => Raise e
                    | Ok (t, sbr') =>
                        Ok (sbr',
                            fold_left (fun ah sc => record_step sc ah) t
                                      (empty_accum, h))
                    end).
  { unfold train_one_epoch, n_steps.
    replace (B =? 0) with false by (symmetry; apply Z.eqb_neq; lia).
    cbn [bind]. rewrite train_loop_steps, arange_length.
    rewrite Z.quot_div_nonneg by (pose proof (len_nonneg (yS d)); lia).
    reflexivity. }
  destruct (run_steps K max_c_length d B sbr) as [[trace sbr']|e] eqn:Hrun;
    [|assumption].
  change (@empty_accum F) with (accum_of (@nil (Scalars F))) in Hloop.
  rewrite record_steps in Hloop by (simpl; lia). cbn [app] in Hloop.
  destruct (windows_spec 20 trace ltac:(lia)) as [Hcat [Hfull Hrest]].
  split; [eapply run_steps_length; eassumption|].
  split; [assumption|]. split; [assumption|]. split; [assumption|].
  split; [assumption|].
  intros v run run' Hst Hh; unfold train_epoch. rewrite Hst, Hh, Hloop.
  cbn [bind]. destruct sbr' as [[sess b] r].
  destruct (run_validation sess v) as [[[val_loss pS] pE]|]; cbn [bind];
    [|discriminate].
  destruct (get_exact_match _ _ _ _ _); cbn [bind]; [|discriminate].
  destruct (get_f1 _ _ _ _ _ _); cbn [bind]; [|discriminate].
  intros Heq; inversion Heq; reflexivity.
Qed.

End TrainingProps.


(** The toy run behind the witness below: 45 samples in batches of 2 give
    22 steps, one flushed window and two steps left in the accumulators. *)
Example train_one_epoch_toy :
  let b0 := fst (initialize_batch_processing (toy_data 45) 45
                                             no_permutation 0%nat) in
  match train_one_epoch 3 (toy_data 45) 2 (0%nat, b0, 0%nat)
                        {| global_losses := []; global_EMs := [];
                           global_f1s := []; global_grad_norms := [] |} with
  | Ok (sess, b, _, (a, h)) =>
      sess = 22%nat /\ batch_index b = 44
      /\ length (losses a) = 2%nat /\ length (global_losses h) = 1%nat
  | Raise _ => False
  end.
Proof. vm_compute. repeat split. Qed.

Lemma train_epoch_windows_witness :
  let d := toy_data 45 in
  let sbr := (0%nat,
              fst (initialize_batch_processing d 45 no_permutation 0%nat),
              0%nat) in
  let h := {| global_losses := []; global_EMs := []; global_f1s := [];
              global_grad_norms := [] |} in
  let K := Z.to_nat (len (yS d) / 2) in
  match run_steps K 3 d 2 sbr with
  | Raise e => train_one_epoch 3 d 2 sbr h = Raise e
  | Ok (trace, sbr') =>
      length trace = K
      /\ train_one_epoch 3 d 2 sbr h
         = Ok (sbr', (accum_of (snd (windows 20 trace)),
                      extend_history h (fst (windows 20 trace))))
      /\ concat (fst (windows 20 trace)) ++ snd (windows 20 trace) = trace
      /\ Forall (fun w => length w = 20%nat) (fst (windows 20 trace))
      /\ (length (snd (windows 20 trace)) < 20)%nat
      /\ (forall (v : ValData) (run run' : Run),
             run_state run = sbr -> run_history run = h ->
             train_epoch 3 d v 2 run = Ok run' ->
             run_history run'
             = extend_history h (fst (windows 20 trace)))
  end.
Proof.
  intros d sbr h.
  apply (@train_epoch_windows Q nat nat _ _ _ 3 d 2 sbr h). lia.
Defined.

(* ------------------------------------------------------------------ *)
(** * Properties of [load_and_preprocess_data] *)
(* ------------------------------------------------------------------ *)

Lemma getitem_app_last {A} (l : list A) (x : A) :
  getitem (l ++ [x]) (len l) = Ok x.
Proof.
  unfold getitem, len. rewrite length_app. simpl.
  rewrite index_nonneg by lia. simpl.
  rewrite Nat2Z.id, nth_error_app2, Nat.sub_diag by lia. reflexivity.
Qed.

(** C8 (amended): a word-vector table of shape (V, 100) is loaded with
    exactly one row of 100 zeros appended after its V rows, so that row V
    of the stored matrix is the zero vector, and the four [read_and_pad]
    calls pad with the index V, the row count taken before the append. A
    table of any other width makes the load raise [ValueError]. *)
Theorem load_pads_with_zero_row {F G : Type} `{FloatOps F} `{Network F G}
        (max_q_length max_c_length : Z) (dir : DataDir F) :
  let V := len (m_rows (glove dir)) in
  (n_cols (glove dir) <> 100 ->
   load_and_preprocess_data max_q_length max_c_length dir
   = Raise ValueError)
  /\ (forall loaded : Loaded F G,
         n_cols (glove dir) = 100 ->
         load_and_preprocess_data max_q_length max_c_length dir = Ok loaded ->
         let W := WordEmbeddingMatrix loaded in
         m_rows W
         = map (map astype_float32) (m_rows (glove dir))
             ++ [replicate 100 (f_of_Z 0)]
         /\ n_cols W = 100
         /\ len (m_rows W) = V + 1
         /\ getitem (m_rows W) V = Ok (replicate 100 (f_of_Z 0))
         /\ read_and_pad (train_ids_context dir) max_c_length V
            = Ok (X_c (train_data loaded), X_c_mask (train_data loaded))
         /\ read_and_pad (val_ids_context dir) max_c_length V
            = Ok (Xval_c (val_data loaded), Xval_c_mask (val_data loaded))
         /\ read_and_pad (train_ids_question dir) max_q_length V
            = Ok (X_q (train_data loaded), X_q_mask (train_data loaded))
         /\ read_and_pad (val_ids_question dir) max_q_length V
            = Ok (Xval_q (val_data loaded), Xval_q_mask (val_data loaded))).
Proof.
  intros V; split.
  - intros Hcols; unfold load_and_preprocess_data, vstack_zeros.
    replace (n_cols (glove dir) =? 100) with false
      by (symmetry; apply Z.eqb_neq; assumption).
    reflexivity.
  - intros loaded Hcols; unfold load_and_preprocess_data, vstack_zeros.
    rewrite Hcols. cbn [Z.eqb Pos.eqb bind]. fold V.
    destruct (build_model _ _ _) as [g|]; cbn [bind]; [|discriminate].
    destruct (span_to_y_loadtxt _ (train_span dir)) as [[yS_ yE_]|];
      cbn [bind]; [|discriminate].
    destruct (span_to_y_loadtxt _ (val_span dir)) as [[yvS yvE]|];
      cbn [bind]; [|discriminate].
    destruct (read_and_pad (train_ids_context dir) _ _) as [[xc xcm]|];
      cbn [bind]; [|discriminate].
    destruct (read_and_pad (val_ids_context dir) _ _) as [[xvc xvcm]|];
      cbn [bind]; [|discriminate].
    destruct (read_and_pad (train_ids_question dir) _ _) as [[xq xqm]|];
      cbn [bind]; [|discriminate].
    destruct (read_and_pad (val_ids_question dir) _ _) as [[xvq xvqm]|];
      cbn [bind]; [|discriminate].
    intros Heq; inversion Heq; subst loaded; clear Heq.
    cbn [WordEmbeddingMatrix train_data val_data X_c X_c_mask X_q X_q_mask
         Xval_c Xval_c_mask Xval_q Xval_q_mask matrix_astype_float32
         m_rows n_cols].
    assert (Hrows : map (map astype_float32)
                        (m_rows (glove dir) ++ [replicate 100 (f_of_Z 0)])
                    = map (map astype_float32) (m_rows (glove dir))
                        ++ [replicate 100 (f_of_Z 0)]).
    { rewrite map_app. cbn [map]. f_equal. f_equal.
      unfold replicate. rewrite map_repeat. now rewrite astype_float32_zero. }
    rewrite Hrows.
    assert (HV : V = len (map (map astype_float32) (m_rows (glove dir))))
      by (unfold V, len; now rewrite length_map).
    repeat split.
    + unfold len. rewrite length_app, length_map. unfold V, len. simpl. lia.
    + rewrite HV. apply getitem_app_last.
Qed.

Lemma load_pads_with_zero_row_witness :
  exists loaded : Loaded Q unit,
    @load_and_preprocess_data Q unit Q_float trivial_network 2 3
                              (toy_dir 100)
    = Ok loaded
    /\ len (m_rows (WordEmbeddingMatrix loaded)) = 2 + 1
    /\ getitem (m_rows (WordEmbeddingMatrix loaded)) 2
       = Ok (replicate 100 (inject_Z 0))
    /\ read_and_pad (train_ids_context (toy_dir 100)) 3 2
       = Ok (X_c (train_data loaded), X_c_mask (train_data loaded)).
Proof.
  eexists. split; [vm_compute; reflexivity|].
  edestruct (proj2 (@load_pads_with_zero_row Q unit Q_float trivial_network
                      2 3 (toy_dir 100)))
    as [_ [_ [Hlen [Hzero [Hpad _]]]]];
    [reflexivity|vm_compute; reflexivity|].
  split; [exact Hlen|]. split; [exact Hzero|exact Hpad].
Defined.

(** C8, as stated, fails: a table of shape (2, 2) cannot be stacked on the
    row of 100 zeros, and the load raises instead of appending a row. *)
Lemma load_rejects_other_widths :
  n_cols (glove (toy_dir 2)) = 2
  /\ len (m_rows (glove (toy_dir 2))) = 2
  /\ @load_and_preprocess_data Q unit Q_float trivial_network 2 3 (toy_dir 2)
     = Raise ValueError.
Proof. repeat split. Qed.

(** The base class cannot be loaded: its [add_prediction_and_loss] raises
    as soon as the embedding matrix is in place. *)
Example load_base_class_raises :
  @load_and_preprocess_data Q unit Q_float abstract_network 2 3 (toy_dir 100)
  = Raise NotImplementedError.
Proof. reflexivity. Qed.

(* ------------------------------------------------------------------ *)
(** * Further properties of [read_and_pad] *)
(* ------------------------------------------------------------------ *)

Lemma pad_line_firstn (L P : Z) (cells : list cell) :
  0 <= L ->
  pad_line L P (firstn (Z.to_nat L) cells) = pad_line L P cells.
Proof.
  intros HL. rewrite !pad_line_eq by assumption. cbv zeta.
  rewrite length_firstn.
  replace (Nat.min (Nat.min (Z.to_nat L) (length cells)) (Z.to_nat L))
    with (Nat.min (length cells) (Z.to_nat L)) by lia.
  rewrite firstn_firstn.
  replace (Nat.min (Nat.min (length cells) (Z.to_nat L)) (Z.to_nat L))
    with (Nat.min (length cells) (Z.to_nat L)) by lia.
  reflexivity.
Qed.

(** X1: [read_and_pad] looks at the first [length] tokens of each line
    only: two files whose lines agree on these tokens give the same result
    (the same arrays or the same exception), whatever follows them, be it
    not even a number. *)
Theorem read_and_pad_ignores_tail (lines lines' : list string) (L P : Z) :
  0 <= L ->
  map (fun line => firstn (Z.to_nat L) (split line)) lines
  = map (fun line => firstn (Z.to_nat L) (split line)) lines' ->
  read_and_pad lines L P = read_and_pad lines' L P.
Proof.
  intros HL Heq; unfold read_and_pad. rewrite !map_map.
  assert (Hpad : map (fun line => pad_line L P (map Tok (split line))) lines
                 = map (fun line => pad_line L P (map Tok (split line)))
                       lines').
  { transitivity
      (map (fun toks => pad_line L P (map Tok toks))
           (map (fun line => firstn (Z.to_nat L) (split line)) lines)).
    - rewrite map_map. apply map_ext. intros line.
      now rewrite <- firstn_map, pad_line_firstn.
    - rewrite Heq, map_map. apply map_ext. intros line.
      now rewrite <- firstn_map, pad_line_firstn. }
  rewrite <- (map_map (fun line => pad_line L P (map Tok (split line))) fst).
  rewrite <- (map_map (fun line => pad_line L P (map Tok (split line))) snd).
  rewrite <- (map_map (fun line => pad_line L P (map Tok (split line))) fst
                      lines').
  rewrite <- (map_map (fun line => pad_line L P (map Tok (split line))) snd
                      lines').
  now rewrite Hpad.
Qed.

Lemma read_and_pad_ignores_tail_witness :
  read_and_pad ["4 5 six 7"; "8"]%string 2 0
  = read_and_pad ["4 5"; "8"]%string 2 0.
Proof.
  apply read_and_pad_ignores_tail; [lia|reflexivity].
Defined.

Lemma int32_of_cell_raises (c : cell) (e : exn) :
  int32_of_cell c = Raise e -> e = ValueError \/ e = OverflowError.
Proof.
  destruct c as [s|z]; simpl; unfold int32_of_int.
  - destruct (int_of_str s) as [z|]; [|intros Heq; inversion Heq; auto].
    destruct (in_int32 z); intros Heq; inversion Heq; auto.
  - destruct (in_int32 z); intros Heq; inversion Heq; auto.
Qed.

Lemma mapM_raise_inv {A B} (f : A -> result B) (l : list A) (e : exn) :
  mapM f l = Raise e -> exists x, In x l /\ f x = Raise e.
Proof.
  induction l as [|x t IH]; simpl; [discriminate|].
  destruct (f x) as [y|e'] eqn:Hfx; simpl.
  - destruct (mapM f t) as [ys|e'']; simpl; [discriminate|].
    intros Heq; inversion Heq; subst.
    destruct (IH eq_refl) as [x' [Hin Hx']]. exists x'; auto.
  - intros Heq; inversion Heq; subst. exists x; auto.
Qed.

Lemma mapM_raise_some {A B} (f : A -> result B) (l : list A) (x : A)
      (e0 : exn) :
  In x l -> f x = Raise e0 -> exists e, mapM f l = Raise e.
Proof.
  intros Hin Hfx. destruct (mapM f l) as [ys|e] eqn:Hm; [|eauto].
  apply mapM_inv in Hm. exfalso.
  induction Hm as [|a b l l' Hab _ IH]; [destruct Hin|].
  destruct Hin as [->|Hin]; [congruence|auto].
Qed.

Lemma pad_line_row_length (L P : Z) (cells : list cell) :
  0 <= L -> length (fst (pad_line L P cells)) = Z.to_nat L.
Proof.
  intros HL. rewrite pad_line_eq by assumption. simpl.
  rewrite length_app, length_firstn, repeat_length. lia.
Qed.

Lemma read_and_pad_unfold (lines : list string) (L P : Z) :
  0 <= L ->
  read_and_pad lines L P
  = (line_array <-
       mapM (mapM int32_of_cell)
            (map (fun line => fst (pad_line L P (map Tok (split line))))
                 lines) ;;
     Ok (line_array,
         map (fun line => snd (pad_line L P (map Tok (split line)))) lines)).
Proof.
  intros HL; unfold read_and_pad, np_array_int32. rewrite !map_map.
  rewrite (same_lengths_all (Z.to_nat L)); [reflexivity|].
  apply Forall_forall. intros r Hin. apply in_map_iff in Hin.
  destruct Hin as [line [<- _]]. now apply pad_line_row_length.
Qed.

(** X2: a token among the first [length] tokens of some line that is not
    an integer literal makes [read_and_pad] raise, with [ValueError] or
    [OverflowError]; no partial array is returned. *)
Theorem read_and_pad_malformed_token (lines : list string) (L P : Z)
        (line tok : string) :
  0 <= L ->
  In line lines ->
  In tok (firstn (Z.to_nat L) (split line)) ->
  int_of_str tok = None ->
  exists e, read_and_pad lines L P = Raise e
            /\ (e = ValueError \/ e = OverflowError).
Proof.
  intros HL Hline Htok Hnone. rewrite read_and_pad_unfold by assumption.
  assert (Hbad : int32_of_cell (Tok tok) = Raise ValueError)
    by (simpl; now rewrite Hnone).
  set (row := fun line => fst (pad_line L P (map Tok (split line)))).
  assert (Hrow : exists e1, mapM int32_of_cell (row line) = Raise e1).
  { apply (mapM_raise_some _ _ (Tok tok) ValueError); [|assumption].
    unfold row. rewrite pad_line_eq by assumption. simpl.
    apply in_or_app; left. rewrite firstn_min, firstn_map.
    now apply in_map. }
  destruct Hrow as [e1 Hrow].
  destruct (mapM_raise_some (mapM int32_of_cell) (map row lines) (row line)
                            e1 (in_map row lines line Hline) Hrow)
    as [e He].
  exists e. rewrite He. split; [reflexivity|].
  apply mapM_raise_inv in He. destruct He as [r [_ Hr]].
  apply mapM_raise_inv in Hr. destruct Hr as [c [_ Hc]].
  now apply int32_of_cell_raises in Hc.
Qed.

Lemma read_and_pad_malformed_token_witness :
  exists e, read_and_pad ["1 2"; "3 4x 5"]%string 2 0 = Raise e
            /\ (e = ValueError \/ e = OverflowError).
Proof.
  apply (read_and_pad_malformed_token ["1 2"; "3 4x 5"]%string 2 0
           "3 4x 5"%string "4x"%string).
  - lia.
  - simpl; auto.
  - simpl; auto.
  - reflexivity.
Defined.

Lemma Forall2_all_right {A B} (P : A -> B -> Prop) (a : A) (n : nat)
      (l : list B) (Q : B -> Prop) :
  (forall b, P a b -> Q b) -> Forall2 P (repeat a n) l -> Forall Q l.
Proof.
  intros HPQ; revert l; induction n as [|n IH]; intros l Hl;
    inversion Hl; subst; constructor; auto.
Qed.

Lemma In_firstn_In {A} (n : nat) (l : list A) (x : A) :
  In x (firstn n l) -> In x l.
Proof.
  intros Hin. rewrite <- (firstn_skipn n l). apply in_or_app. now left.
Qed.

Lemma Forall2_nth_error_right {A B} (P : A -> B -> Prop) l l' (j : nat)
      (y : B) :
  Forall2 P l l' -> nth_error l' j = Some y ->
  exists x, nth_error l j = Some x /\ P x y.
Proof.
  intros Hll; revert j; induction Hll as [|a b l l' Hab _ IH];
    intros [|j] Hj; simpl in *; try discriminate.
  - inversion Hj; subst. eauto.
  - auto.
Qed.

(** One line of a successful [read_and_pad]: the padded cells convert to
    [row], and [mask] is their mask. *)
Lemma pad_line_mask (L P : Z) (toks : list string) (row : list Z) :
  0 <= L ->
  mapM int32_of_cell (fst (pad_line L P (map Tok toks))) = Ok row ->
  let mask := snd (pad_line L P (map Tok toks)) in
  length row = Z.to_nat L /\ length mask = Z.to_nat L
  /\ (forall j, (j < Z.to_nat L)%nat ->
                nth j mask true = false -> nth j row 0 = P)
  /\ ((forall tok, In tok toks -> int_of_str tok <> Some P) ->
      forall j, (j < Z.to_nat L)%nat ->
                nth j row 0 = P -> nth j mask true = false).
Proof.
  intros HL Hrow. rewrite pad_line_eq in * by assumption.
  cbn [fst snd] in *. rewrite length_map in *.
  set (m := Nat.min (length toks) (Z.to_nat L)) in *.
  apply mapM_inv in Hrow. apply Forall2_app_inv_l in Hrow.
  destruct Hrow as [r1 [r2 [Hr1 [Hr2 ->]]]].
  pose proof (Forall2_length Hr1) as Hlen1.
  pose proof (Forall2_length Hr2) as Hlen2.
  rewrite length_firstn, length_map in Hlen1. rewrite repeat_length in Hlen2.
  assert (Hm : length r1 = m) by lia.
  assert (Hpads : Forall (fun z => z = P) r2).
  { eapply Forall2_all_right; [|exact Hr2].
    intros z Hz. simpl in Hz. unfold int32_of_int in Hz.
    destruct (in_int32 P); now inversion Hz. }
  split; [rewrite length_app; lia|].
  split; [rewrite length_app, !repeat_length; lia|].
  split.
  - intros j Hj Hmask.
    destruct (Nat.lt_ge_cases j m) as [Hlt|Hge].
    + rewrite app_nth1 in Hmask by (rewrite repeat_length; lia).
      rewrite nth_repeat_lt in Hmask by lia. discriminate.
    + rewrite app_nth2 by lia.
      rewrite Forall_forall in Hpads. apply Hpads, nth_In. lia.
  - intros Hne j Hj Hval.
    destruct (Nat.lt_ge_cases j m) as [Hlt|Hge].
    + exfalso. rewrite app_nth1 in Hval by lia.
      assert (Hj1 : (j < length r1)%nat) by lia.
      destruct (Forall2_nth_error_right _ _ _ j (nth j r1 0) Hr1)
        as [c [Hc Hconv]].
      { apply nth_error_nth'. assumption. }
      rewrite firstn_map, nth_error_map in Hc.
      destruct (nth_error (firstn m toks) j) as [tok|] eqn:Htok;
        [|discriminate].
      inversion Hc; subst c. simpl in Hconv.
      assert (Hin : In tok toks)
        by (eapply (In_firstn_In m), nth_error_In; eassumption).
      specialize (Hne tok Hin).
      destruct (int_of_str tok) as [z|]; [|discriminate].
      unfold int32_of_int in Hconv. destruct (in_int32 z); [|discriminate].
      inversion Hconv. congruence.
    + rewrite app_nth2 by (rewrite repeat_length; lia).
      rewrite repeat_length. apply nth_repeat_lt. lia.
Qed.

Lemma read_and_pad_lines (lines : list string) (L P : Z) rows masks :
  0 <= L ->
  read_and_pad lines L P = Ok (rows, masks) ->
  masks = map (fun line => snd (pad_line L P (map Tok (split line)))) lines
  /\ Forall2 (fun line row =>
                mapM int32_of_cell
                     (fst (pad_line L P (map Tok (split line)))) = Ok row)
             lines rows.
Proof.
  intros HL. rewrite read_and_pad_unfold by assumption.
  destruct (mapM _ _) as [la|] eqn:Hm; cbn [bind]; [|discriminate].
  intros Heq; inversion Heq; subst. split; [reflexivity|].
  apply mapM_inv in Hm. clear Heq.
  revert rows Hm; induction lines as [|line lines IH]; intros rows Hm;
    inversion Hm; subst; constructor; auto.
Qed.

(** X3: in what [read_and_pad] returns, every position whose mask entry is
    [False] holds the pad value; and when no token of the file reads as the
    pad value, a position holding the pad value has the mask entry [False]
    (the docstring's "False iff the corresponding id is a pad_value"). All
    id rows and mask rows have the requested length. *)
Theorem read_and_pad_mask_marks_padding (lines : list string) (L P : Z)
        (rows : list (list Z)) (masks : list (list bool)) :
  0 <= L ->
  read_and_pad lines L P = Ok (rows, masks) ->
  Forall2 (fun row mask =>
             length row = Z.to_nat L /\ length mask = Z.to_nat L
             /\ forall j, (j < Z.to_nat L)%nat ->
                          nth j mask true = false -> nth j row 0 = P)
          rows masks
  /\ ((forall line tok, In line lines -> In tok (split line) ->
                        int_of_str tok <> Some P) ->
      Forall2 (fun row mask =>
                 forall j, (j < Z.to_nat L)%nat ->
                           nth j row 0 = P -> nth j mask true = false)
              rows masks).
Proof.
  intros HL Hread.
  destruct (read_and_pad_lines lines L P rows masks HL Hread) as [-> Hrows].
  clear Hread. split.
  - induction Hrows as [|line row lines rows Hrow _ IH]; simpl;
      constructor; [|assumption].
    destruct (pad_line_mask L P (split line) row HL Hrow)
      as [H1 [H2 [H3 _]]]. auto.
  - intros Hne.
    induction Hrows as [|line row lines rows Hrow _ IH]; simpl;
      constructor.
    + destruct (pad_line_mask L P (split line) row HL Hrow)
        as [_ [_ [_ H4]]].
      apply H4. intros tok Htok. apply (Hne line); [now left|assumption].
    + apply IH. intros line' tok Hin. apply Hne. now right.
Qed.

Lemma read_and_pad_mask_marks_padding_witness :
  Forall2 (fun row mask =>
             length row = 3%nat /\ length mask = 3%nat
             /\ forall j, (j < 3)%nat ->
                          nth j mask true = false -> nth j row 0 = 9)
          [[4; 9; 9]; [9; 9; 9]; [1; 2; 3]]
          [[true; false; false]; [false; false; false];
           [true; true; true]].
Proof.
  apply (proj1 (read_and_pad_mask_marks_padding
                  ["4"; ""; "1 2 3 4"]%string 3 9 _ _ ltac:(lia) eq_refl)).
Defined.

Lemma row_sums_repeat (m k : nat) :
  len (filter (fun b : bool => b) (repeat true m ++ repeat false k))
  = Z.of_nat m.
Proof.
  unfold len. rewrite filter_app, length_app. f_equal.
  replace (length (filter (fun b : bool => b) (repeat false k))) with O.
  - replace (filter (fun b : bool => b) (repeat true m)) with (repeat true m).
    + rewrite repeat_length. lia.
    + induction m; simpl; [reflexivity|]. now f_equal.
  - induction k; simpl; auto.
Qed.

(** X4: the row sums of the mask returned by [read_and_pad] (what
    ['by_length'] sorts by) are the numbers of tokens kept from the lines:
    the token count of the line, capped at [length]. *)
Theorem read_and_pad_mask_row_sums (lines : list string) (L P : Z)
        (rows : list (list Z)) (masks : list (list bool)) :
  0 <= L ->
  read_and_pad lines L P = Ok (rows, masks) ->
  row_sums masks = map (fun line => Z.min (len (split line)) L) lines.
Proof.
  intros HL Hread.
  destruct (read_and_pad_lines lines L P rows masks HL Hread) as [-> _].
  unfold row_sums. rewrite map_map. apply map_ext. intros line.
  rewrite pad_line_eq by assumption. cbn [snd].
  rewrite row_sums_repeat, length_map. unfold len. lia.
Qed.

Lemma read_and_pad_mask_row_sums_witness :
  row_sums [[true; false; false]; [false; false; false]; [true; true; true]]
  = map (fun line => Z.min (len (split line)) 3)
        ["4"; ""; "1 2 3 4"]%string.
Proof.
  apply (read_and_pad_mask_row_sums ["4"; ""; "1 2 3 4"]%string 3 9
           [[4; 9; 9]; [9; 9; 9]; [1; 2; 3]] _ ltac:(lia) eq_refl).
Defined.

(* ------------------------------------------------------------------ *)
(** * Further properties of [span_to_y] *)
(* ------------------------------------------------------------------ *)

(** X5: the degenerate lengths of [span_to_y]. An empty span array gives two
    empty arrays whatever the length is; for a non-empty array a negative
    length raises [ValueError] (from [np.zeros]) and the length 0 raises
    [IndexError], since no index fits a vector of length 0. The length is
    [max_length], or [self.max_c_length] when that is [None]. *)
Theorem span_to_y_degenerate_lengths (mcl : Z) (ml : option Z) :
  let L := match ml with None => mcl | Some n => n end in
  span_to_y mcl [] ml = Ok ([], [])
  /\ (forall y, y <> [] -> L < 0 -> span_to_y mcl y ml = Raise ValueError)
  /\ (forall y, y <> [] -> L = 0 -> span_to_y mcl y ml = Raise IndexError).
Proof.
  intros L. split; [reflexivity|]. split.
  - intros [|[s e] y] Hy HL; [congruence|].
    unfold span_to_y. fold L. cbn [mapM]. unfold span_row at 1, np_zeros.
    replace (L <? 0) with true by (symmetry; apply Z.ltb_lt; assumption).
    reflexivity.
  - intros [|[s e] y] Hy HL; [congruence|].
    unfold span_to_y. fold L. cbn [mapM].
    rewrite span_row_outside by lia. reflexivity.
Qed.

Lemma span_to_y_degenerate_lengths_witness :
  span_to_y (-3) [(0, 0)] None = Raise ValueError
  /\ span_to_y 7 [(0, 0)] (Some 0) = Raise IndexError.
Proof.
  split.
  - apply (proj1 (proj2 (span_to_y_degenerate_lengths (-3) None)));
      [discriminate|lia].
  - apply (proj2 (proj2 (span_to_y_degenerate_lengths 7 (Some 0))));
      [discriminate|reflexivity].
Defined.

(* ------------------------------------------------------------------ *)
(** * The ['by_length'] ordering *)
(* ------------------------------------------------------------------ *)

Lemma insert_by_key_sorted (x : Z * Z) (l : list (Z * Z)) :
  Sorted by_key l -> Sorted by_key (insert_by_key x l).
Proof.
  induction 1 as [|y l Hl IH Hhd]; simpl; [repeat constructor|].
  destruct (Z.leb_spec (snd x) (snd y)).
  - constructor; [now constructor|]. constructor. assumption.
  - constructor; [assumption|].
    destruct l as [|z l]; simpl in *.
    + constructor. unfold by_key. lia.
    + destruct (Z.leb_spec (snd x) (snd z)).
      * constructor. unfold by_key. lia.
      * constructor. now inversion Hhd.
Qed.

Lemma sort_by_key_sorted (l : list (Z * Z)) :
  Sorted by_key (fold_right insert_by_key [] l).
Proof.
  induction l; simpl; [constructor|now apply insert_by_key_sorted].
Qed.

Lemma sort_by_key_perm (l : list (Z * Z)) :
  Permutation (fold_right insert_by_key [] l) l.
Proof.
  induction l as [|x l IH]; simpl; [reflexivity|].
  rewrite insert_by_key_perm. now constructor.
Qed.

Lemma Sorted_map_snd (l : list (Z * Z)) :
  Sorted by_key l -> Sorted Z.le (map snd l).
Proof.
  induction 1 as [|y l Hl IH Hhd]; simpl; constructor; [assumption|].
  destruct Hhd; simpl; constructor. assumption.
Qed.

Lemma combine_arange_nth (keys : list Z) (i k : Z) :
  In (i, k) (combine (arange (len keys)) keys) ->
  nth (Z.to_nat i) keys 0 = k.
Proof.
  intros Hin. apply (In_nth _ _ (0, 0)) in Hin.
  destruct Hin as [j [Hj Hnth]].
  rewrite length_combine, arange_length in Hj.
  rewrite combine_nth in Hnth
    by (rewrite arange_length; unfold len; lia).
  injection Hnth as Hi Hk. unfold arange in Hi.
  change 0 with (Z.of_nat 0) in Hi at 1. rewrite map_nth in Hi.
  rewrite seq_nth in Hi by (unfold len in *; lia).
  subst i. rewrite <- Hk. f_equal. lia.
Qed.

(** X6: ['by_length'] sets the cursor to 0 and orders the samples by
    ascending number of [True] entries of their context mask: the
    permutation holds every index of the mask's rows once, and the row sums
    read along it never decrease. The length of the permutation is the
    number of mask rows, whatever [n_samples] is. *)
Theorem by_length_sorts_ascending {R : Type} `{Rng R}
        (d : TrainData) (n_samples : Z) (r : R) :
  let b := fst (initialize_batch_processing d n_samples by_length r) in
  let keys := row_sums (X_c_mask d) in
  batch_index b = 0 /\ max_batch_index b = n_samples
  /\ Permutation (batch_permutation b) (arange (len (X_c_mask d)))
  /\ Sorted Z.le
            (map (fun i => nth (Z.to_nat i) keys 0) (batch_permutation b)).
Proof.
  cbn. split; [reflexivity|]. split; [reflexivity|]. split.
  - replace (len (X_c_mask d)) with (len (row_sums (X_c_mask d)))
      by (unfold len, row_sums; now rewrite length_map).
    apply np_argsort_perm.
  - unfold np_argsort. set (keys := row_sums (X_c_mask d)).
    set (sorted := fold_right insert_by_key []
                              (combine (arange (len keys)) keys)).
    rewrite map_map.
    rewrite (map_ext_in _ snd).
    + apply Sorted_map_snd, sort_by_key_sorted.
    + intros [i k] Hin. simpl. apply combine_arange_nth.
      eapply Permutation_in; [apply sort_by_key_perm|exact Hin].
Qed.

(* ------------------------------------------------------------------ *)
(** * Further properties of the metrics *)
(* ------------------------------------------------------------------ *)

Lemma skipn_nth_error_cons {A} (l : list A) (k : nat) (z : A) :
  nth_error l k = Some z -> skipn k l = z :: skipn (S k) l.
Proof.
  revert l; induction k as [|k IH]; intros [|x l] Hk; simpl in *;
    try discriminate.
  - now inversion Hk.
  - now apply IH.
Qed.

(** A loop over [range(len(zs))] whose body reads position [i] is a loop
    over the elements of [zs]. *)
Lemma for_each_indexed {A S} (zs : list A) (body : Z -> S -> result S)
      (step : A -> S -> result S) (acc : S) :
  (forall k z s, nth_error zs k = Some z ->
                 body (Z.of_nat k) s = step z s) ->
  for_each (arange (len zs)) body acc = for_each zs step acc.
Proof.
  intros Hbody.
  assert (Hgen : forall m k acc,
             (k + m = length zs)%nat ->
             for_each (map Z.of_nat (seq k m)) body acc
             = for_each (skipn k zs) step acc).
  { induction m as [|m IH]; intros k acc0 Hkm.
    - rewrite skipn_all2 by lia. reflexivity.
    - destruct (nth_error zs k) as [z|] eqn:Hz;
        [|apply nth_error_None in Hz; lia].
      rewrite (skipn_nth_error_cons zs k z Hz). cbn [seq map for_each].
      rewrite (Hbody k z acc0 Hz).
      destruct (step z acc0); cbn [bind]; [|reflexivity].
      apply IH. lia. }
  unfold arange, len. rewrite Nat2Z.id. now apply Hgen.
Qed.

Lemma for_each_pure {A S} (zs : list A) (g : S -> A -> S) (acc : S) :
  for_each zs (fun z s => Ok (g s z)) acc = Ok (fold_left g zs acc).
Proof.
  revert acc; induction zs as [|z zs IH]; intros acc; simpl; auto.
Qed.

Lemma getitem_nth_error {A} (l : list A) (k : nat) (x : A) :
  nth_error l k = Some x -> getitem l (Z.of_nat k) = Ok x.
Proof.
  intros Hk. unfold getitem.
  assert (Hlt : (k < length l)%nat) by (apply nth_error_Some; congruence).
  rewrite index_nonneg by (unfold len; lia). cbn [bind].
  now rewrite Nat2Z.id, Hk.
Qed.

Lemma nth_error_combine {A B} (a : list A) (b : list B) (k : nat) x y :
  nth_error (combine a b) k = Some (x, y) ->
  nth_error a k = Some x /\ nth_error b k = Some y.
Proof.
  revert b k; induction a as [|x0 a IH]; intros [|y0 b] [|k] Hk;
    simpl in *; try discriminate.
  - inversion Hk; auto.
  - now apply IH.
Qed.

Lemma nth_error_samples yS yE ypS ypE (k : nat) rowS rowE pS pE :
  nth_error (samples yS yE ypS ypE) k = Some (rowS, (rowE, (pS, pE))) ->
  nth_error yS k = Some rowS /\ nth_error yE k = Some rowE
  /\ nth_error ypS k = Some pS /\ nth_error ypE k = Some pE.
Proof.
  unfold samples. intros Hk.
  apply nth_error_combine in Hk. destruct Hk as [HS Hk].
  apply nth_error_combine in Hk. destruct Hk as [HE Hk].
  apply nth_error_combine in Hk. tauto.
Qed.

Lemma samples_length yS yE ypS ypE :
  len yS <= len yE -> len yS <= len ypS -> len yS <= len ypE ->
  len (samples yS yE ypS ypE) = len yS.
Proof.
  unfold samples, len. rewrite !length_combine. lia.
Qed.

Lemma np_argmax_nonempty (row : list Z) :
  row <> [] -> np_argmax row = Ok (argmax_of row).
Proof. destruct row; [congruence|reflexivity]. Qed.

Lemma fold_count {A} (hit : A -> bool) (zs : list A) (c : Z) :
  fold_left (fun c z => if hit z then c + 1 else c) zs c
  = c + len (filter hit zs).
Proof.
  revert c; induction zs as [|z zs IH]; intros c; simpl.
  - unfold len; simpl; lia.
  - rewrite IH. destruct (hit z); unfold len; simpl; lia.
Qed.

Section MetricProps.
Context {F : Type} `{FloatOps F}.

Lemma get_exact_match_eq (yS yE : list (list Z)) (ypS ypE : list Z)
      (mask : list (list bool)) :
  yS <> [] ->
  len yS <= len yE -> len yS <= len ypS -> len yS <= len ypE ->
  Forall (fun row => row <> []) yS -> Forall (fun row => row <> []) yE ->
  get_exact_match yS yE ypS ypE mask
  = Ok (fdiv (f_of_Z (em_matches (samples yS yE ypS ypE)))
             (f_of_Z (len yS))).
Proof.
  intros Hne HE HpS HpE HrS HrE. unfold get_exact_match.
  rewrite <- (samples_length yS yE ypS ypE HE HpS HpE) at 1.
  rewrite (for_each_indexed _ _
             (fun z count => Ok (if em_hit z then count + 1 else count))).
  - rewrite (for_each_pure _ (fun c z => if em_hit z then c + 1 else c)).
    cbn [bind]. rewrite fold_count.
    replace (len yS =? 0) with false.
    + reflexivity.
    + symmetry. apply Z.eqb_neq. destruct yS; [congruence|].
      unfold len; simpl; lia.
  - intros k [rowS [rowE [pS pE]]] count Hk.
    apply nth_error_samples in Hk. destruct Hk as [HS [HE' [HPS HPE]]].
    rewrite (getitem_nth_error _ _ _ HS), (getitem_nth_error _ _ _ HE'),
      (getitem_nth_error _ _ _ HPS), (getitem_nth_error _ _ _ HPE).
    cbn [bind].
    rewrite Forall_forall in HrS, HrE.
    rewrite (np_argmax_nonempty rowS)
      by (apply HrS; eapply nth_error_In; eassumption).
    rewrite (np_argmax_nonempty rowE)
      by (apply HrE; eapply nth_error_In; eassumption).
    cbn [bind]. unfold em_hit.
    destruct (argmax_of rowS =? pS); [|reflexivity]. cbn [bind andb].
    destruct (argmax_of rowE =? pE); reflexivity.
Qed.

Lemma em_matches_bounds (zs : list (list Z * (list Z * (Z * Z)))) :
  0 <= em_matches zs <= len zs.
Proof.
  unfold em_matches, len. pose proof (filter_length_le em_hit zs). lia.
Qed.

End MetricProps.

(** X7: on a batch of [n > 0] samples whose gold rows are non-empty and
    whose prediction arrays are at least as long as the gold arrays,
    [get_exact_match] returns the number of samples whose two decoded gold
    indices both equal the predicted ones, divided by [n]; this number lies
    between 0 and [n]. *)
Theorem get_exact_match_counts {F : Type} `{FloatOps F}
        (yS yE : list (list Z)) (ypS ypE : list Z)
        (mask : list (list bool)) :
  yS <> [] ->
  len yS <= len yE -> len yS <= len ypS -> len yS <= len ypE ->
  Forall (fun row => row <> []) yS -> Forall (fun row => row <> []) yE ->
  get_exact_match yS yE ypS ypE mask
  = Ok (fdiv (f_of_Z (em_matches (samples yS yE ypS ypE)))
             (f_of_Z (len yS)))
  /\ 0 <= em_matches (samples yS yE ypS ypE) <= len yS.
Proof.
  intros Hne HE HpS HpE HrS HrE. split.
  - now apply get_exact_match_eq.
  - pose proof (em_matches_bounds (samples yS yE ypS ypE)) as Hb.
    now rewrite (samples_length yS yE ypS ypE HE HpS HpE) in Hb.
Qed.

Lemma get_exact_match_counts_witness :
  @get_exact_match Q Q_float [[0; 1; 0]; [1; 0; 0]] [[0; 0; 1]; [0; 1; 0]]
                   [1; 0] [2; 2] []
  = Ok (fdiv (f_of_Z (em_matches (samples [[0; 1; 0]; [1; 0; 0]]
                                          [[0; 0; 1]; [0; 1; 0]]
                                          [1; 0] [2; 2])))
             (f_of_Z (len [[0; 1; 0]; [1; 0; 0]])))
  /\ 0 <= em_matches (samples [[0; 1; 0]; [1; 0; 0]] [[0; 0; 1]; [0; 1; 0]]
                              [1; 0] [2; 2])
     <= len [[0; 1; 0]; [1; 0; 0]].
Proof.
  apply (@get_exact_match_counts Q Q_float);
    try discriminate; try (unfold len; simpl; lia);
    repeat constructor; discriminate.
Defined.

Lemma argmax_of_one_hot (L k : Z) :
  0 <= k < L -> argmax_of (one_hot L k) = k.
Proof.
  intros Hk. unfold argmax_of. now rewrite np_argmax_one_hot.
Qed.

Lemma one_hot_nonempty (L k : Z) : one_hot L k <> [].
Proof. unfold one_hot. destruct (repeat 0 (Z.to_nat k)); discriminate. Qed.

Lemma em_matches_one_hot (L : Z) (y : list (Z * Z)) (ypS ypE : list Z) :
  (forall s e, In (s, e) y -> 0 <= s < L /\ 0 <= e < L) ->
  em_matches (samples (map (fun se => one_hot L (fst se)) y)
                      (map (fun se => one_hot L (snd se)) y) ypS ypE)
  = span_hits y ypS ypE.
Proof.
  unfold em_matches, span_hits, samples.
  revert ypS ypE; induction y as [|[s e] y IH]; intros ypS ypE Hy;
    [reflexivity|].
  destruct ypS as [|pS ypS]; [reflexivity|].
  destruct ypE as [|pE ypE]; [reflexivity|].
  destruct (Hy s e (or_introl eq_refl)) as [Hs He].
  cbn [map combine filter em_hit fst snd].
  rewrite !argmax_of_one_hot by assumption.
  specialize (IH ypS ypE (fun s' e' Hin => Hy s' e' (or_intror Hin))).
  destruct ((s =? pS) && (e =? pE)); unfold len in *; simpl; lia.
Qed.

Lemma span_hits_self (y : list (Z * Z)) :
  span_hits y (map fst y) (map snd y) = len y.
Proof.
  unfold span_hits. induction y as [|[s e] y IH]; [reflexivity|].
  cbn [map combine filter fst snd]. rewrite !Z.eqb_refl. cbn [andb].
  unfold len in *; simpl; lia.
Qed.

(** X8: encoding and scoring compose to an exact round trip. For a
    non-empty array of spans with all indices in [0, L), [span_to_y]
    succeeds and [get_exact_match] on its output counts exactly the
    positions where the predicted pair is the original span; scored against
    the spans themselves the count is all [n] samples of [n]. *)
Theorem span_to_y_exact_match_round_trip {F : Type} `{FloatOps F}
        (mcl : Z) (y : list (Z * Z)) (L : Z) (ypS ypE : list Z)
        (mask : list (list bool)) :
  y <> [] ->
  (forall s e, In (s, e) y -> 0 <= s < L /\ 0 <= e < L) ->
  len y <= len ypS -> len y <= len ypE ->
  exists S E,
    span_to_y mcl y (Some L) = Ok (S, E)
    /\ get_exact_match S E ypS ypE mask
       = Ok (fdiv (f_of_Z (span_hits y ypS ypE)) (f_of_Z (len y)))
    /\ get_exact_match S E (map fst y) (map snd y) mask
       = Ok (fdiv (f_of_Z (len y)) (f_of_Z (len y))).
Proof.
  intros Hne Hy HpS HpE.
  exists (map (fun se => one_hot L (fst se)) y),
         (map (fun se => one_hot L (snd se)) y).
  assert (Hlen : forall (f : Z * Z -> list Z), len (map f y) = len y)
    by (intros f; unfold len; now rewrite length_map).
  assert (Hlenz : forall (f : Z * Z -> Z), len (map f y) = len y)
    by (intros f; unfold len; now rewrite length_map).
  assert (Hrows : forall (f : Z * Z -> Z),
             Forall (fun row => row <> [])
                    (map (fun se => one_hot L (f se)) y)).
  { intros f. apply Forall_forall. intros row Hin.
    apply in_map_iff in Hin. destruct Hin as [se [<- _]].
    apply one_hot_nonempty. }
  assert (Hne' : map (fun se => one_hot L (fst se)) y <> [])
    by (destruct y; [congruence|discriminate]).
  split; [|split].
  - rewrite span_to_y_in_range
      by (intros s e Hin; destruct (Hy s e Hin); lia).
    f_equal. f_equal; apply map_ext_in; intros [s e] Hin; simpl;
      destruct (Hy s e Hin); unfold wrap_index;
      [destruct (Z.ltb_spec s 0)|destruct (Z.ltb_spec e 0)];
      try reflexivity; lia.
  - rewrite get_exact_match_eq;
      rewrite ?Hlen; try assumption; try lia; try apply Hrows.
    now rewrite em_matches_one_hot.
  - rewrite get_exact_match_eq;
      rewrite ?Hlen, ?Hlenz; try assumption; try lia; try apply Hrows.
    now rewrite em_matches_one_hot, span_hits_self.
Qed.

Lemma span_to_y_exact_match_round_trip_witness :
  exists S E,
    span_to_y 9 [(1, 2); (0, 3)] (Some 4) = Ok (S, E)
    /\ @get_exact_match Q Q_float S E [1; 0] [2; 1] []
       = Ok (fdiv (f_of_Z (span_hits [(1, 2); (0, 3)] [1; 0] [2; 1]))
                  (f_of_Z (len [(1, 2); (0, 3)])))
    /\ @get_exact_match Q Q_float S E (map fst [(1, 2); (0, 3)])
                        (map snd [(1, 2); (0, 3)]) []
       = Ok (fdiv (f_of_Z (len [(1, 2); (0, 3)]))
                  (f_of_Z (len [(1, 2); (0, 3)]))).
Proof.
  apply (@span_to_y_exact_match_round_trip Q Q_float 9 [(1, 2); (0, 3)] 4
           [1; 0] [2; 1] []).
  - discriminate.
  - intros s e [Heq|[Heq|[]]]; inversion Heq; subst; lia.
  - unfold len; simpl; lia.
  - unfold len; simpl; lia.
Defined.

Lemma get_f1_loop {F : Type} `{FloatOps F}
      (max_c_length : Z) (yS yE : list (list Z)) (ypS ypE : list Z) :
  0 <= max_c_length ->
  len yS <= len yE -> len yS <= len ypS -> len yS <= len ypE ->
  Forall (fun row => row <> []) yS -> Forall (fun row => row <> []) yE ->
  for_each (arange (len yS))
           (fun i f1_tot =>
              y <- np_zeros max_c_length ;;
              rowS <- getitem yS i ;;
              s <- np_argmax rowS ;;
              rowE <- getitem yE i ;;
              e <- np_argmax rowE ;;
              let y := fill_slice y s (e + 1) 1 in
              pS <- getitem ypS i ;;
              pE <- getitem ypE i ;;
              let yp := pred_cover y pS pE in
              Ok (f1_add f1_tot y yp))
           (f_of_Z 0)
  = Ok (fold_left (f1_sample_add max_c_length) (samples yS yE ypS ypE)
                  (f_of_Z 0)).
Proof.
  intros HL HE HpS HpE HrS HrE.
  rewrite <- (samples_length yS yE ypS ypE HE HpS HpE) at 1.
  rewrite (for_each_indexed _ _
             (fun z f1_tot => Ok (f1_sample_add max_c_length f1_tot z))).
  - apply for_each_pure.
  - intros k [rowS [rowE [pS pE]]] f1_tot Hk.
    apply nth_error_samples in Hk. destruct Hk as [HS [HE' [HPS HPE]]].
    unfold np_zeros.
    replace (max_c_length <? 0) with false
      by (symmetry; apply Z.ltb_ge; assumption).
    cbn [bind].
    rewrite (getitem_nth_error _ _ _ HS), (getitem_nth_error _ _ _ HE'),
      (getitem_nth_error _ _ _ HPS), (getitem_nth_error _ _ _ HPE).
    cbn [bind].
    rewrite Forall_forall in HrS, HrE.
    rewrite (np_argmax_nonempty rowS)
      by (apply HrS; eapply nth_error_In; eassumption).
    rewrite (np_argmax_nonempty rowE)
      by (apply HrE; eapply nth_error_In; eassumption).
    reflexivity.
Qed.

Lemma len_nonempty {A} (l : list A) : l <> [] -> (len l =? 0) = false.
Proof.
  intros Hne. apply Z.eqb_neq. destruct l; [congruence|].
  unfold len; simpl; lia.
Qed.

(** X9: on a batch of [n > 0] samples with non-empty gold rows, prediction
    arrays at least as long as the gold arrays and a context length
    [>= 0], [get_f1] raises nothing, whatever integers the predictions are
    (a predicted index outside the context is clamped by the slice, not
    rejected), and returns the running total of the per-sample F1 terms
    divided by [n]. *)
Theorem get_f1_mean_of_samples {F : Type} `{FloatOps F}
        (max_c_length : Z) (yS yE : list (list Z)) (ypS ypE : list Z)
        (mask : list (list bool)) :
  0 <= max_c_length ->
  yS <> [] ->
  len yS <= len yE -> len yS <= len ypS -> len yS <= len ypE ->
  Forall (fun row => row <> []) yS -> Forall (fun row => row <> []) yE ->
  get_f1 max_c_length yS yE ypS ypE mask
  = Ok (fdiv (fold_left (f1_sample_add max_c_length)
                        (samples yS yE ypS ypE) (f_of_Z 0))
             (f_of_Z (len yS))).
Proof.
  intros HL Hne HE HpS HpE HrS HrE. unfold get_f1.
  rewrite get_f1_loop by assumption. cbn [bind].
  now rewrite len_nonempty.
Qed.

Lemma get_f1_mean_of_samples_witness :
  @get_f1 Q Q_float 3 [[0; 1; 0]] [[0; 0; 1]] [-7] [40] []
  = Ok (fdiv (fold_left (f1_sample_add 3)
                        (samples [[0; 1; 0]] [[0; 0; 1]] [-7] [40])
                        (f_of_Z 0))
             (f_of_Z (len [[0; 1; 0]]))).
Proof.
  apply (@get_f1_mean_of_samples Q Q_float);
    try discriminate; try (unfold len; simpl; lia);
    repeat constructor; discriminate.
Defined.

Lemma gold_cover_length (L s e : Z) :
  length (gold_cover L s e) = Z.to_nat L.
Proof.
  unfold gold_cover, replicate. now rewrite fill_slice_length, repeat_length.
Qed.

Lemma pred_cover_length (y : list Z) (pS pE : Z) :
  length (pred_cover y pS pE) = length y.
Proof.
  unfold pred_cover. now rewrite !fill_slice_length, length_map.
Qed.

Lemma slice_bound_nonneg (n i : Z) : 0 <= i -> slice_bound n i = Z.min i n.
Proof.
  intros Hi; unfold slice_bound.
  now replace (i <? 0) with false by (symmetry; apply Z.ltb_ge; lia).
Qed.

Ltac split_bools :=
  repeat match goal with
         | |- context [Z.leb ?a ?b] => destruct (Z.leb_spec a b)
         | |- context [Z.ltb ?a ?b] => destruct (Z.ltb_spec a b)
         end;
  cbn [andb]; try reflexivity; try lia.

(** X10: for decoded gold indices and predicted indices that are not
    negative, the gold coverage vector of [get_f1] is 1 exactly on the
    inclusive span [s..e] (nowhere when [s > e]), and the predicted coverage
    vector is 1 exactly from the smaller to the larger of the two predicted
    indices, so a reversed prediction covers the same positions as the
    ordered one. Both vectors have the context length. *)
Theorem coverage_vectors (L s e pS pE j : Z) :
  0 <= s -> 0 <= e -> 0 <= pS -> 0 <= pE -> 0 <= j < L ->
  let y := gold_cover L s e in
  let yp := pred_cover y pS pE in
  len y = L /\ len yp = L
  /\ nth (Z.to_nat j) y 0 = (if (s <=? j) && (j <=? e) then 1 else 0)
  /\ nth (Z.to_nat j) yp 0
     = (if (Z.min pS pE <=? j) && (j <=? Z.max pS pE) then 1 else 0).
Proof.
  intros Hs He HpS HpE Hj y yp.
  assert (Hly : length y = Z.to_nat L) by apply gold_cover_length.
  assert (Hlyp : length yp = Z.to_nat L)
    by (unfold yp; now rewrite pred_cover_length).
  split; [unfold len; lia|]. split; [unfold len; lia|]. split.
  - unfold y, gold_cover.
    rewrite fill_slice_nth by (unfold replicate; rewrite repeat_length; lia).
    rewrite len_replicate by lia.
    rewrite !slice_bound_nonneg by lia. rewrite Z2Nat.id by lia.
    unfold replicate. rewrite nth_repeat. split_bools.
  - unfold yp, pred_cover.
    rewrite !fill_slice_nth
      by (rewrite ?fill_slice_length, length_map; lia).
    unfold len. rewrite !fill_slice_length, length_map, Hly.
    rewrite !slice_bound_nonneg by lia. rewrite !Z2Nat.id by lia.
    replace (nth (Z.to_nat j) (map (fun _ : Z => 0) y) 0) with 0.
    + split_bools.
    + clear. generalize (Z.to_nat j) as k. induction y as [|x y IH];
        intros [|k]; simpl; auto.
Qed.

Lemma coverage_vectors_witness :
  let y := gold_cover 6 1 3 in
  let yp := pred_cover y 4 2 in
  len y = 6 /\ len yp = 6
  /\ nth (Z.to_nat 3) y 0 = (if (1 <=? 3) && (3 <=? 3) then 1 else 0)
  /\ nth (Z.to_nat 3) yp 0
     = (if (Z.min 4 2 <=? 3) && (3 <=? Z.max 4 2) then 1 else 0).
Proof. apply (coverage_vectors 6 1 3 4 2 3); lia. Defined.

Lemma bits_repeat_0 (n : nat) : bits (repeat 0 n).
Proof. apply Forall_forall. intros x Hx. apply repeat_spec in Hx. auto. Qed.

Lemma In_skipn_In {A} (n : nat) (l : list A) (x : A) :
  In x (skipn n l) -> In x l.
Proof.
  intros Hin. rewrite <- (firstn_skipn n l). apply in_or_app. now right.
Qed.

Lemma bits_fill_slice (a : list Z) (s e : Z) :
  bits a -> bits (fill_slice a s e 1).
Proof.
  intros Ha; unfold fill_slice, bits in *.
  rewrite Forall_forall in Ha.
  rewrite !Forall_app. repeat split; apply Forall_forall; intros x Hx.
  - eapply Ha, In_firstn_In; eassumption.
  - apply repeat_spec in Hx. auto.
  - eapply Ha, In_skipn_In; eassumption.
Qed.

Lemma bits_pred_cover (y : list Z) (pS pE : Z) : bits (pred_cover y pS pE).
Proof.
  unfold pred_cover. do 2 apply bits_fill_slice.
  apply Forall_forall. intros x Hx. apply in_map_iff in Hx.
  destruct Hx as [_ [<- _]]. auto.
Qed.

Lemma bits_sum_nonneg (a : list Z) : bits a -> 0 <= np_sum a.
Proof.
  induction 1 as [|x a Hx _ IH]; [reflexivity|].
  change (np_sum (x :: a)) with (x + np_sum a). lia.
Qed.

Lemma np_mul_bits (a b : list Z) :
  bits a -> bits b ->
  0 <= np_sum (np_mul a b) <= np_sum a /\ np_sum (np_mul a b) <= np_sum b.
Proof.
  intros Ha; revert b; induction Ha as [|x a Hx Ha IH]; intros b Hb.
  - cbn [np_mul]. change (np_sum []) with 0.
    pose proof (bits_sum_nonneg b Hb). lia.
  - destruct Hb as [|y b Hy Hb].
    + pose proof (bits_sum_nonneg (x :: a) (Forall_cons x Hx Ha)).
      cbn [np_mul]. change (np_sum []) with 0. lia.
    + specialize (IH b Hb).
      change (np_sum (np_mul (x :: a) (y :: b)))
        with (x * y + np_sum (np_mul a b)).
      change (np_sum (x :: a)) with (x + np_sum a).
      change (np_sum (y :: b)) with (y + np_sum b).
      destruct Hx as [-> | ->], Hy as [-> | ->]; lia.
Qed.

(** X11: the counts [get_f1] divides with. For every sample the number of
    true positives is at least 0 and at most both the number of predicted
    and the number of actual positives; so whenever it is not 0, which is
    when precision and recall are computed, both divisors are positive. *)
Theorem f1_counts_bounded (L s e pS pE : Z) :
  let y := gold_cover L s e in
  let yp := pred_cover y pS pE in
  let n_true_pos := np_sum (np_mul y yp) in
  0 <= n_true_pos <= np_sum yp
  /\ n_true_pos <= np_sum y
  /\ (n_true_pos <> 0 -> 0 < np_sum yp /\ 0 < np_sum y).
Proof.
  intros y yp n_true_pos.
  assert (Hy : bits y)
    by (apply bits_fill_slice; unfold replicate; apply bits_repeat_0).
  pose proof (np_mul_bits y yp Hy (bits_pred_cover y pS pE)) as Hb.
  fold n_true_pos in Hb. lia.
Qed.

Lemma f1_counts_bounded_witness :
  0 < np_sum (pred_cover (gold_cover 6 1 3) 5 2)
  /\ 0 < np_sum (gold_cover 6 1 3).
Proof.
  apply (proj2 (proj2 (f1_counts_bounded 6 1 3 5 2))).
  vm_compute. discriminate.
Defined.

(* ------------------------------------------------------------------ *)
(** * Further properties of the batch iterator *)
(* ------------------------------------------------------------------ *)

Lemma NoDup_firstn {A} (n : nat) (l : list A) : NoDup l -> NoDup (firstn n l).
Proof.
  intros Hl. rewrite <- (firstn_skipn n l) in Hl.
  eapply NoDup_app_remove_r. eassumption.
Qed.

Lemma NoDup_skipn {A} (n : nat) (l : list A) : NoDup l -> NoDup (skipn n l).
Proof.
  intros Hl. rewrite <- (firstn_skipn n l) in Hl.
  eapply NoDup_app_remove_l. eassumption.
Qed.

Lemma perm_arange_facts (N : Z) (p : list Z) :
  Permutation p (arange N) ->
  length p = Z.to_nat N /\ NoDup p /\ forall i, In i p -> 0 <= i < N.
Proof.
  intros Hp. split; [|split].
  - rewrite (Permutation_length Hp). apply arange_length.
  - apply (Permutation_NoDup (Permutation_sym Hp)), arange_NoDup.
  - intros i Hi. apply arange_In. eapply Permutation_in; eassumption.
Qed.

Section CursorProps.
Context {R : Type} `{Rng R} `{!RngLawful R}.

Lemma next_indices_below (N B : Z) (b : Batching) (r : R) :
  0 < B -> cursor_ok N b -> batch_index b < N ->
  next_indices b r B
  = (firstn (Z.to_nat B)
            (skipn (Z.to_nat (batch_index b)) (batch_permutation b)),
     {| batch_index := batch_index b + B; max_batch_index := N;
        batch_permutation := batch_permutation b |}, r)
  /\ valid_batch N B
       (firstn (Z.to_nat B)
               (skipn (Z.to_nat (batch_index b)) (batch_permutation b))).
Proof.
  intros HB [Hmax [Hidx Hp]] Hlt. split.
  - unfold next_indices. rewrite Hmax.
    replace (N <=? batch_index b) with false
      by (symmetry; apply Z.leb_gt; assumption).
    rewrite slice_nonneg by lia.
    replace (batch_index b + B - batch_index b) with B by lia.
    now rewrite Hmax.
  - destruct (perm_arange_facts N _ Hp) as [Hlen [Hnd Hin]].
    set (idx := firstn _ _).
    assert (Hl : length idx = Nat.min (Z.to_nat B)
                                      (Z.to_nat N - Z.to_nat (batch_index b)))
      by (unfold idx; now rewrite length_firstn, length_skipn, Hlen).
    unfold valid_batch. repeat split.
    + intros Hnil. rewrite Hnil in Hl. simpl in Hl. lia.
    + unfold len. lia.
    + apply NoDup_firstn, NoDup_skipn, Hnd.
    + apply Hin. eapply In_skipn_In, In_firstn_In. eassumption.
    + apply Hin. eapply In_skipn_In, In_firstn_In. eassumption.
Qed.

Lemma next_indices_ok (N B : Z) (b : Batching) (r : R) :
  0 < N -> 0 < B -> cursor_ok N b ->
  cursor_ok N (snd (fst (next_indices b r B)))
  /\ valid_batch N B (fst (fst (next_indices b r B))).
Proof.
  intros HN HB Hok.
  assert (Hbelow : forall b0 r0,
             cursor_ok N b0 -> batch_index b0 < N ->
             cursor_ok N (snd (fst (next_indices b0 r0 B)))
             /\ valid_batch N B (fst (fst (next_indices b0 r0 B)))).
  { intros b0 r0 Hok0 Hlt.
    destruct (next_indices_below N B b0 r0 HB Hok0 Hlt) as [-> Hvalid].
    cbn [fst snd]. split; [|assumption].
    destruct Hok0 as [Hmax [Hidx Hp]]. unfold cursor_ok; cbn. repeat split;
      [lia|assumption]. }
  destruct (Z.lt_ge_cases (batch_index b) N) as [Hlt|Hge];
    [now apply Hbelow|].
  destruct Hok as [Hmax [Hidx Hp]].
  rewrite next_indices_wrap by lia. rewrite Hmax.
  apply Hbelow; [|cbn; lia].
  unfold cursor_ok; cbn. repeat split; [lia|].
  apply random_permutation_perm.
Qed.

End CursorProps.

(** X12: the batch iterator keeps a sound state over any number of calls,
    wraps included. From a state whose bound is [N > 0], whose cursor is not
    negative and whose permutation is a permutation of [0, N) (as
    [initialize_batch_processing] leaves it), [k] calls with a batch size
    [B > 0] lead to such a state again, and each of the [k] index arrays
    they gather with is non-empty, at most [B] long, free of repetitions and
    within [0, N). *)
Theorem next_batch_keeps_cursor_sound {R : Type} `{Rng R} `{!RngLawful R}
        (N B : Z) (k : nat) (b : Batching) (r : R) :
  0 < N -> 0 < B -> cursor_ok N b ->
  cursor_ok N (snd (fst (issue k b r B)))
  /\ Forall (valid_batch N B) (fst (fst (issue k b r B)))
  /\ length (fst (fst (issue k b r B))) = k.
Proof.
  intros HN HB; revert b r; induction k as [|k IH]; intros b r Hok.
  - cbn. auto.
  - cbn [issue].
    destruct (next_indices_ok N B b r HN HB Hok) as [Hok1 Hvalid].
    destruct (next_indices b r B) as [[idx b1] r1]. cbn [fst snd] in *.
    specialize (IH b1 r1 Hok1).
    destruct (issue k b1 r1 B) as [[rest b2] r2]. cbn [fst snd] in *.
    destruct IH as [Hok2 [Hall Hlen]].
    split; [assumption|]. split; [now constructor|]. simpl. now f_equal.
Qed.

Lemma next_batch_keeps_cursor_sound_witness :
  let b := fst (initialize_batch_processing (toy_data 5) 5 random 1%nat) in
  cursor_ok 5 (snd (fst (issue 7 b 2%nat 2)))
  /\ Forall (valid_batch 5 2) (fst (fst (issue 7 b 2%nat 2)))
  /\ length (fst (fst (issue 7 b 2%nat 2))) = 7%nat.
Proof.
  intros b.
  apply (@next_batch_keeps_cursor_sound nat rotating_rng rotating_rng_lawful
           5 2 7 b 2%nat); [lia|lia|].
  unfold cursor_ok, b. cbn [initialize_batch_processing fst
    random_permutation rotating_rng batch_index max_batch_index
    batch_permutation].
  split; [reflexivity|]. split; [lia|]. apply rotate_perm.
Defined.

Lemma np_take_gathered {A} (X : list A) (idx : list Z) :
  (forall i, In i idx -> 0 <= i < len X) ->
  exists rows, np_take X idx = Ok rows /\ gathered X idx rows.
Proof.
  unfold np_take, gathered.
  induction idx as [|i idx IH]; intros Hidx.
  - exists []. split; [reflexivity|constructor].
  - destruct IH as [rows [Hrows Hg]];
      [intros j Hj; apply Hidx; now right|].
    assert (Hi : 0 <= i < len X) by (apply Hidx; now left).
    destruct (nth_error X (Z.to_nat i)) as [row|] eqn:Hrow;
      [|apply nth_error_None in Hrow; unfold len in Hi; lia].
    exists (row :: rows). split; [|now constructor].
    cbn [mapM]. unfold getitem at 1. rewrite index_nonneg by assumption.
    cbn [bind]. rewrite Hrow. cbn [bind]. now rewrite Hrows.
Qed.

Lemma gather_aligned (N B : Z) (d : TrainData) (idx : list Z) :
  data_rows N d -> valid_batch N B idx ->
  exists batch, gather d idx = Ok batch /\ aligned d idx batch.
Proof.
  intros [H1 [H2 [H3 [H4 [H5 H6]]]]] [_ [_ [_ Hin]]]. unfold gather.
  destruct (np_take_gathered (X_c d) idx) as [xc [-> Gxc]];
    [now rewrite H1|].
  destruct (np_take_gathered (X_c_mask d) idx) as [xcm [-> Gxcm]];
    [now rewrite H2|].
  destruct (np_take_gathered (X_q d) idx) as [xq [-> Gxq]];
    [now rewrite H3|].
  destruct (np_take_gathered (X_q_mask d) idx) as [xqm [-> Gxqm]];
    [now rewrite H4|].
  destruct (np_take_gathered (yS d) idx) as [ys [-> Gys]];
    [now rewrite H5|].
  destruct (np_take_gathered (yE d) idx) as [ye [-> Gye]];
    [now rewrite H6|].
  cbn [bind]. eexists. split; [reflexivity|].
  unfold aligned; cbn. auto 10.
Qed.

Lemma gathered_length {A} (X : list A) idx rows :
  gathered X idx rows -> length rows = length idx.
Proof. intros Hg. symmetry. eapply Forall2_length. eassumption. Qed.

(** X13: [next_batch] on well-shaped data. When the six training arrays
    have [N > 0] rows each and the iterator state is sound, a call with
    [B > 0] raises nothing; the six arrays of the batch hold, position by
    position, the rows of the same sample (the index array of the call is
    applied to all six), the batch is not empty and has at most [B] rows,
    and the state stays sound. *)
Theorem next_batch_aligned {R : Type} `{Rng R} `{!RngLawful R}
        (N B : Z) (d : TrainData) (b : Batching) (r : R) :
  0 < N -> 0 < B -> data_rows N d -> cursor_ok N b ->
  exists batch b' r' idx,
    next_batch d b r B = Ok (batch, b', r')
    /\ aligned d idx batch
    /\ valid_batch N B idx
    /\ len (yresS batch) = len idx
    /\ cursor_ok N b'.
Proof.
  intros HN HB Hd Hok. unfold next_batch.
  destruct (next_indices_ok N B b r HN HB Hok) as [Hok' Hvalid].
  destruct (next_indices b r B) as [[idx b'] r']. cbn [fst snd] in *.
  destruct (gather_aligned N B d idx Hd Hvalid) as [batch [-> Hal]].
  exists batch, b', r', idx. cbn [bind].
  split; [reflexivity|]. split; [assumption|]. split; [assumption|].
  split; [|assumption].
  destruct Hal as [_ [_ [_ [_ [Hys _]]]]].
  unfold len. now rewrite (gathered_length _ _ _ Hys).
Qed.

Lemma toy_data_rows : data_rows 5 (toy_data 5).
Proof. unfold data_rows. repeat split. Qed.

Lemma next_batch_aligned_witness :
  exists batch b' r' idx,
    next_batch (toy_data 5)
               {| batch_index := 6; max_batch_index := 5;
                  batch_permutation := arange 5 |} 3%nat 2
    = Ok (batch, b', r')
    /\ aligned (toy_data 5) idx batch
    /\ valid_batch 5 2 idx
    /\ len (yresS batch) = len idx
    /\ cursor_ok 5 b'.
Proof.
  apply (@next_batch_aligned nat rotating_rng rotating_rng_lawful 5 2).
  - lia.
  - lia.
  - exact toy_data_rows.
  - unfold cursor_ok. cbn. split; [reflexivity|]. split; [lia|reflexivity].
Defined.

Lemma chunks_all_full {A} (k n : nat) (l : list A) :
  (k * n <= length l)%nat ->
  Forall (fun c => length c = n) (chunks k n l).
Proof.
  revert l; induction k as [|k IH]; intros l Hl; simpl; constructor.
  - rewrite length_firstn. lia.
  - apply IH. rewrite length_skipn. lia.
Qed.

(** X14: the steps of one epoch against one pass. Starting a pass (cursor
    0, a permutation of [0, N) in force), the [floor(N / B)] calls that
    [train] makes in an epoch gather with full index arrays of exactly [B]
    indices, together the first [floor(N / B) * B] entries of the
    permutation without repetition; no reshuffle happens, and the cursor
    ends at [N - N mod B], so the last [N mod B] indices of the pass are
    left to the next epoch. *)
Theorem epoch_steps_within_pass {R : Type} `{Rng R}
        (N B : Z) (b : Batching) (r : R) :
  0 < B -> 0 <= N ->
  max_batch_index b = N -> batch_index b = 0 ->
  Permutation (batch_permutation b) (arange N) ->
  let K := Z.to_nat (N / B) in
  exists batches b',
    issue K b r B = (batches, b', r)
    /\ Forall (fun idx => len idx = B) batches
    /\ concat batches = firstn (K * Z.to_nat B) (batch_permutation b)
    /\ NoDup (concat batches)
    /\ batch_permutation b' = batch_permutation b
    /\ batch_index b' = N - N mod B.
Proof.
  intros HB HN Hmax Hidx Hp K.
  destruct (perm_arange_facts N _ Hp) as [Hlen [Hnd _]].
  assert (HK : Z.of_nat K * B <= N).
  { unfold K. rewrite Z2Nat.id by (apply Z.div_pos; lia).
    rewrite Z.mul_comm. apply Z.mul_div_le. assumption. }
  eexists _, _. split.
  - apply issue_no_wrap; [assumption|lia|]. intros _. rewrite Hmax. nia.
  - rewrite Hidx. change (Z.to_nat 0) with O. rewrite skipn_O.
    cbn [batch_permutation batch_index].
    split; [|split; [|split; [|split]]].
    + eapply Forall_impl; [|apply chunks_all_full; nia].
      intros c Hc. cbv beta in Hc. unfold len. lia.
    + apply concat_chunks.
    + rewrite concat_chunks. now apply NoDup_firstn.
    + reflexivity.
    + unfold K. rewrite Z2Nat.id by (apply Z.div_pos; lia).
      rewrite Z.mod_eq by lia. lia.
Qed.

Lemma epoch_steps_within_pass_witness :
  exists batches b',
    issue (Z.to_nat (7 / 3))
          {| batch_index := 0; max_batch_index := 7;
             batch_permutation := [4; 5; 6; 0; 1; 2; 3] |} 0%nat 3
    = (batches, b', 0%nat)
    /\ Forall (fun idx => len idx = 3) batches
    /\ concat batches
       = firstn (Z.to_nat (7 / 3) * Z.to_nat 3) [4; 5; 6; 0; 1; 2; 3]
    /\ NoDup (concat batches)
    /\ batch_permutation b' = [4; 5; 6; 0; 1; 2; 3]
    /\ batch_index b' = 7 - 7 mod 3.
Proof.
  apply (@epoch_steps_within_pass nat rotating_rng 7 3
           {| batch_index := 0; max_batch_index := 7;
              batch_permutation := [4; 5; 6; 0; 1; 2; 3] |} 0%nat);
    try lia; try reflexivity.
  apply (rotate_perm 4 (arange 7)).
Defined.

Section PassesProps.
Context {R : Type} `{Rng R} `{!RngLawful R}.

Lemma issue_app (k1 k2 : nat) (b : Batching) (r : R) (B : Z) :
  issue (k1 + k2) b r B
  = let '(l1, b1, r1) := issue k1 b r B in
    let '(l2, b2, r2) := issue k2 b1 r1 B in
    (l1 ++ l2, b2, r2).
Proof.
  revert b r; induction k1 as [|k1 IH]; intros b r.
  - cbn [Nat.add issue]. now destruct (issue k2 b r B) as [[l2 b2] r2].
  - cbn [Nat.add issue]. destruct (next_indices b r B) as [[idx b0] r0].
    rewrite IH. destruct (issue k1 b0 r0 B) as [[l1 b1] r1].
    now destruct (issue k2 b1 r1 B) as [[l2 b2] r2].
Qed.

(** One pass from a pass start issues a permutation of [0, N) and ends at
    a pass start. *)
Lemma issue_one_pass (N B : Z) (b : Batching) (r : R) :
  0 < N -> 0 < B -> pass_start N b ->
  Permutation (concat (fst (fst (issue (calls_per_pass N B) b r B))))
              (arange N)
  /\ pass_start N (snd (fst (issue (calls_per_pass N B) b r B))).
Proof.
  intros HN HB [Hmax Hstart].
  assert (Hfresh : forall b0 r0,
             max_batch_index b0 = N -> batch_index b0 = 0 ->
             Permutation (batch_permutation b0) (arange N) ->
             Permutation
               (concat (fst (fst (issue (calls_per_pass N B) b0 r0 B))))
               (arange N)
             /\ pass_start N
                  (snd (fst (issue (calls_per_pass N B) b0 r0 B)))).
  { intros b0 r0 Hmax0 Hidx0 Hp0.
    destruct (issue_pass N B b0 r0 HN HB Hmax0 Hidx0 Hp0)
      as [batches [b' [-> [Hpass [_ [Hend Hmax']]]]]].
    cbn [fst snd]. destruct Hpass as [_ [Hperm _]].
    split; [assumption|]. split; [assumption|now right]. }
  destruct Hstart as [[Hidx Hp]|Hwrap]; [now apply Hfresh|].
  destruct (calls_per_pass_bounds N B HN HB) as [HK1 _].
  destruct (calls_per_pass N B) as [|k] eqn:HK; [lia|].
  cbn [issue]. rewrite next_indices_wrap by lia. rewrite Hmax.
  specialize (Hfresh
                {| batch_index := 0; max_batch_index := N;
                   batch_permutation := fst (random_permutation N r) |}
                (snd (random_permutation N r)) eq_refl eq_refl
                (random_permutation_perm N r)).
  cbn [issue] in Hfresh. exact Hfresh.
Qed.

Lemma count_occ_arange (N i : Z) :
  0 <= i < N -> count_occ Z.eq_dec (arange N) i = 1%nat.
Proof.
  intros Hi. apply NoDup_count_occ'; [apply arange_NoDup|].
  now apply arange_In.
Qed.

End PassesProps.

(** X15: passes compose. From the start of a pass (a fresh or an exhausted
    iterator over [N > 0] samples), [m] times [ceil(N / B)] calls of
    [next_batch] gather with every index of [0, N) exactly [m] times in
    all, and leave the iterator at the start of a pass again. *)
Theorem next_batch_passes_are_fair {R : Type} `{Rng R} `{!RngLawful R}
        (N B : Z) (m : nat) (b : Batching) (r : R) :
  0 < N -> 0 < B -> pass_start N b ->
  (forall i, 0 <= i < N ->
             count_occ Z.eq_dec
                       (concat (fst (fst (issue (m * calls_per_pass N B)
                                                b r B)))) i = m)
  /\ pass_start N (snd (fst (issue (m * calls_per_pass N B) b r B))).
Proof.
  intros HN HB; revert b r; induction m as [|m IH]; intros b r Hstart.
  - cbn. auto.
  - cbn [Nat.mul]. rewrite issue_app.
    destruct (issue_one_pass N B b r HN HB Hstart) as [Hperm Hstart1].
    destruct (issue (calls_per_pass N B) b r B) as [[l1 b1] r1].
    cbn [fst snd] in *.
    specialize (IH b1 r1 Hstart1).
    destruct (issue (m * calls_per_pass N B) b1 r1 B) as [[l2 b2] r2].
    cbn [fst snd] in *. destruct IH as [Hcount Hstart2].
    split; [|assumption].
    intros i Hi. rewrite concat_app, count_occ_app, (Hcount i Hi).
    rewrite (Permutation_count_occ Z.eq_dec) in Hperm.
    rewrite (Hperm i), count_occ_arange by assumption. reflexivity.
Qed.

Lemma next_batch_passes_are_fair_witness :
  let b := {| batch_index := 8; max_batch_index := 5;
              batch_permutation := [] |} in
  (forall i, 0 <= i < 5 ->
             count_occ Z.eq_dec
                       (concat (fst (fst (issue (3 * calls_per_pass 5 2)
                                                b 1%nat 2)))) i = 3%nat)
  /\ pass_start 5 (snd (fst (issue (3 * calls_per_pass 5 2) b 1%nat 2))).
Proof.
  intros b.
  apply (@next_batch_passes_are_fair nat rotating_rng rotating_rng_lawful
           5 2 3 b 1%nat); [lia|lia|].
  unfold pass_start, b. cbn. split; [reflexivity|right; lia].
Defined.

(* ------------------------------------------------------------------ *)
(** * Further properties of the training loop *)
(* ------------------------------------------------------------------ *)

Lemma gathered_Forall {A} (P : A -> Prop) (X : list A) idx rows :
  Forall P X -> gathered X idx rows -> Forall P rows.
Proof.
  intros HX Hg. rewrite Forall_forall in HX.
  induction Hg as [|i row idx rows Hrow _ IH]; constructor; [|assumption].
  eapply HX, nth_error_In. eassumption.
Qed.

Lemma concat_length_const {A} (n : nat) (ws : list (list A)) :
  Forall (fun w => length w = n) ws ->
  length (concat ws) = (n * length ws)%nat.
Proof.
  induction 1 as [|w ws Hw _ IH]; simpl; [lia|].
  rewrite length_app, IH, Hw. lia.
Qed.

Lemma windows_count {A} (t : list A) :
  length (fst (windows 20 t)) = (length t / 20)%nat.
Proof.
  destruct (windows_spec 20 t ltac:(lia)) as [Hcat [Hfull Hrest]].
  apply (Nat.div_unique _ _ _ (length (snd (windows 20 t))));
    [assumption|].
  rewrite <- Hcat at 1.
  now rewrite length_app, (concat_length_const 20) by assumption.
Qed.

Section EpochProps.
Context {F S R : Type} `{FloatOps F} `{Rng R} `{Session F S}.

(** The inner loop of an epoch, in one equation. *)
Lemma train_one_epoch_record (mcl : Z) (d : TrainData) (B : Z)
      (sbr : S * Batching * R) (h : History F) :
  0 < B ->
  train_one_epoch mcl d B sbr h
  = match run_steps (Z.to_nat (len (yS d) / B)) mcl d B sbr with
    | Raise e => Raise e
    | Ok (t, sbr') =>
        Ok (sbr', (accum_of (snd (windows 20 t)),
                   extend_history h (fst (windows 20 t))))
    end.
Proof.
  intros HB. unfold train_one_epoch, n_steps.
  replace (B =? 0) with false by (symmetry; apply Z.eqb_neq; lia).
  cbn [bind]. rewrite train_loop_steps, arange_length.
  rewrite Z.quot_div_nonneg by (pose proof (len_nonneg (yS d)); lia).
  destruct (run_steps _ mcl d B sbr) as [[t sbr']|e]; [|reflexivity].
  change (@empty_accum F) with (accum_of (@nil (Scalars F))).
  rewrite record_steps by (simpl; lia). reflexivity.
Qed.

Lemma train_step_ok `{!RngLawful R} (N B mcl : Z) (d : TrainData)
      (s : S) (b : Batching) (r : R) :
  0 < N -> 0 < B -> 0 <= mcl ->
  data_rows N d ->
  Forall (fun row => row <> []) (yS d) ->
  Forall (fun row => row <> []) (yE d) ->
  predicts_whole_batch ->
  cursor_ok N b ->
  exists s' b' r' sc,
    train_step mcl d B (s, b, r) = Ok (s', b', r', sc) /\ cursor_ok N b'.
Proof.
  intros HN HB Hmcl Hd HrS HrE Hsess Hok. unfold train_step.
  unfold next_batch.
  destruct (next_indices_ok N B b r HN HB Hok) as [Hok' Hvalid].
  destruct (next_indices b r B) as [[idx b'] r']. cbn [fst snd] in *.
  destruct (gather_aligned N B d idx Hd Hvalid) as [batch [-> Hal]].
  cbn [bind].
  assert (Hlen : len (yresS batch) = len idx).
  { destruct Hal as [_ [_ [_ [_ [Hys _]]]]].
    unfold len. now rewrite (gathered_length _ _ _ Hys). }
  destruct (Hsess s batch) as [s' [loss [pS [pE [gn [-> [HpS HpE]]]]]]].
  cbn [bind].
  destruct Hal as [_ [_ [_ [_ [Hys Hye]]]]].
  assert (HlenE : len (yresE batch) = len idx)
    by (unfold len; now rewrite (gathered_length _ _ _ Hye)).
  assert (Hne : yresS batch <> []).
  { destruct Hvalid as [Hnil _]. intros Heq. rewrite Heq in Hlen.
    destruct idx; [congruence|]. unfold len in Hlen; simpl in Hlen. lia. }
  assert (HfS : Forall (fun row => row <> []) (yresS batch))
    by (apply (gathered_Forall _ (yS d) idx); assumption).
  assert (HfE : Forall (fun row => row <> []) (yresE batch))
    by (apply (gathered_Forall _ (yE d) idx); assumption).
  rewrite get_exact_match_eq; try assumption; try lia.
  cbn [bind].
  unfold get_f1. rewrite get_f1_loop; try assumption; try lia.
  cbn [bind]. rewrite len_nonempty by assumption. eexists _, _, _, _. split; [reflexivity|assumption].
Qed.

Lemma run_steps_ok `{!RngLawful R} (N B mcl : Z) (d : TrainData) (k : nat)
      (s : S) (b : Batching) (r : R) :
  0 < N -> 0 < B -> 0 <= mcl ->
  data_rows N d ->
  Forall (fun row => row <> []) (yS d) ->
  Forall (fun row => row <> []) (yE d) ->
  predicts_whole_batch ->
  cursor_ok N b ->
  exists t s' b' r',
    run_steps k mcl d B (s, b, r) = Ok (t, (s', b', r'))
    /\ cursor_ok N b'.
Proof.
  intros HN HB Hmcl Hd HrS HrE Hsess.
  revert s b r; induction k as [|k IH]; intros s b r Hok.
  - exists [], s, b, r. split; [reflexivity|assumption].
  - cbn [run_steps].
    destruct (train_step_ok N B mcl d s b r HN HB Hmcl Hd HrS HrE Hsess Hok)
      as [s1 [b1 [r1 [sc [-> Hok1]]]]].
    cbn [bind].
    destruct (IH s1 b1 r1 Hok1) as [t [s2 [b2 [r2 [-> Hok2]]]]].
    cbn [bind]. exists (sc :: t), s2, b2, r2. auto.
Qed.

End EpochProps.

(** X16: the training part of an epoch cannot fail on well-shaped data.
    When the six training arrays have [N > 0] rows, the gold rows are not
    empty, the context length is not negative, the batch size is positive,
    the iterator state is sound and the session run answers every batch
    with predictions for all its samples, the inner loop of [train] raises
    nothing: no batch is empty, so the metrics never divide by zero, and
    every gather stays in range. The iterator state is sound afterwards. *)
Theorem train_one_epoch_cannot_fail {F S R : Type} `{FloatOps F} `{Rng R}
        `{Session F S} `{!RngLawful R}
        (N B mcl : Z) (d : TrainData) (s : S) (b : Batching) (r : R)
        (h : History F) :
  0 < N -> 0 < B -> 0 <= mcl ->
  data_rows N d ->
  Forall (fun row => row <> []) (yS d) ->
  Forall (fun row => row <> []) (yE d) ->
  predicts_whole_batch ->
  cursor_ok N b ->
  exists s' b' r' a h',
    train_one_epoch mcl d B (s, b, r) h = Ok (s', b', r', (a, h'))
    /\ cursor_ok N b'.
Proof.
  intros HN HB Hmcl Hd HrS HrE Hsess Hok.
  rewrite train_one_epoch_record by assumption.
  destruct (run_steps_ok N B mcl d (Z.to_nat (len (yS d) / B)) s b r
                         HN HB Hmcl Hd HrS HrE Hsess Hok)
    as [t [s' [b' [r' [-> Hok']]]]].
  eexists _, _, _, _, _. split; [reflexivity|assumption].
Qed.

Lemma counting_session_predicts : @predicts_whole_batch Q nat _.
Proof.
  intros s batch. eexists _, _, _, _, _. split; [reflexivity|].
  unfold len. rewrite !length_map. lia.
Qed.

Lemma train_one_epoch_cannot_fail_witness :
  exists s' b' r' a h',
    train_one_epoch 3 (toy_data 5) 2
                    (0%nat,
                     {| batch_index := 0; max_batch_index := 5;
                        batch_permutation := arange 5 |}, 0%nat)
                    {| global_losses := []; global_EMs := [];
                       global_f1s := []; global_grad_norms := [] |}
    = Ok (s', b', r', (a, h'))
    /\ cursor_ok 5 b'.
Proof.
  apply (@train_one_epoch_cannot_fail Q nat nat _ _ _ rotating_rng_lawful
           5 2 3 (toy_data 5)).
  - lia.
  - lia.
  - lia.
  - exact toy_data_rows.
  - repeat constructor; discriminate.
  - repeat constructor; discriminate.
  - exact counting_session_predicts.
  - unfold cursor_ok. cbn. split; [reflexivity|]. split; [lia|reflexivity].
Defined.

Lemma for_each_count {A S} (l : list A) (body : A -> S -> result S)
      (I : nat -> S -> Prop) (s0 s : S) :
  (forall x n s1 s2, I n s1 -> body x s1 = Ok s2 -> I (Datatypes.S n) s2) ->
  I O s0 -> for_each l body s0 = Ok s -> I (length l) s.
Proof.
  intros Hstep.
  assert (Hgen : forall n s1, I n s1 -> for_each l body s1 = Ok s ->
                              I (n + length l)%nat s).
  { induction l as [|x l IH]; intros n s1 Hn Hrun; simpl in *.
    - inversion Hrun; subst. now rewrite Nat.add_0_r.
    - destruct (body x s1) as [s2|] eqn:Hb; cbn [bind] in Hrun;
        [|discriminate].
      rewrite <- Nat.add_succ_comm. apply (IH (Datatypes.S n) s2); [|assumption].
      eapply Hstep; eassumption. }
  intros H0 Hrun. apply (Hgen O s0 H0 Hrun).
Qed.

Section TrainProps.
Context {F S R : Type} `{FloatOps F} `{Rng R} `{Session F S}.

Lemma train_epoch_lengths (mcl : Z) (d : TrainData) (v : ValData) (B : Z)
      (run run' : @Run F S R) (points epochs : nat) :
  0 < B ->
  history_lengths run points epochs ->
  train_epoch mcl d v B run = Ok run' ->
  history_lengths run' (points + Z.to_nat (len (yS d) / B) / 20)
                  (Datatypes.S epochs).
Proof.
  intros HB [L1 [L2 [L3 [L4 [L5 L6]]]]]. unfold train_epoch.
  rewrite train_one_epoch_record by assumption.
  destruct (run_steps _ mcl d B (run_state run)) as [[t sbr']|] eqn:Hrun;
    cbn [bind]; [|discriminate].
  destruct sbr' as [[sess b] r].
  apply run_steps_length in Hrun.
  destruct (run_validation sess v) as [[[val_loss pS] pE]|]; cbn [bind];
    [|discriminate].
  destruct (get_exact_match _ _ _ _ _); cbn [bind]; [|discriminate].
  destruct (get_f1 _ _ _ _ _ _); cbn [bind]; [|discriminate].
  intros Heq; inversion Heq; subst run'; clear Heq.
  unfold history_lengths, extend_history; cbn.
  rewrite !length_app, !length_map, windows_count, Hrun. cbn. lia.
Qed.

End TrainProps.

(** X17: the size of what [train] returns. With a batch size [B > 0], a
    run of [train] that completes has appended one validation EM and one
    validation F1 per epoch, and to each of the four training histories
    [floor(floor(N / B) / 20)] points per epoch, [N] being the number of
    training samples. In particular fewer than 20 steps per epoch leave the
    training histories empty. *)
Theorem train_history_sizes {F S R : Type} `{FloatOps F} `{Rng R}
        `{Session F S}
        (mcl : Z) (d : TrainData) (v : ValData) (epochs B : Z)
        (sess : S) (r : R) (run : @Run F S R) :
  0 < B ->
  train mcl d v epochs B sess r = Ok run ->
  let per_epoch := (Z.to_nat (len (yS d) / B) / 20)%nat in
  length (global_losses (run_history run))
  = (Z.to_nat epochs * per_epoch)%nat
  /\ length (global_EMs (run_history run)) = (Z.to_nat epochs * per_epoch)%nat
  /\ length (global_f1s (run_history run)) = (Z.to_nat epochs * per_epoch)%nat
  /\ length (global_grad_norms (run_history run))
     = (Z.to_nat epochs * per_epoch)%nat
  /\ length (EMs_val run) = Z.to_nat epochs
  /\ length (F1s_val run) = Z.to_nat epochs.
Proof.
  intros HB Htrain per_epoch. unfold train in Htrain.
  destruct (initialize_batch_processing d (len (yS d)) no_permutation r)
    as [b r0].
  apply (for_each_count _ _
           (fun n (run : @Run F S R) =>
              history_lengths run (n * per_epoch) n)) in Htrain.
  - rewrite length_map, arange_length in Htrain. exact Htrain.
  - intros _ n run1 run2 Hn Hstep.
    replace (Datatypes.S n * per_epoch)%nat
      with (n * per_epoch + per_epoch)%nat by lia.
    eapply train_epoch_lengths; eassumption.
  - unfold history_lengths; cbn. repeat split.
Qed.

Lemma train_history_sizes_witness :
  exists run,
    @train Q nat nat _ _ _ 3 (toy_data 45)
           {| Xval_c := []; Xval_c_mask := []; Xval_q := [];
              Xval_q_mask := []; yvalS := [[0; 1]]; yvalE := [[0; 1]] |}
           2 2 0%nat 0%nat
    = Ok run
    /\ length (global_losses (run_history run))
       = (Z.to_nat 2 * (Z.to_nat (len (yS (toy_data 45)) / 2) / 20))%nat
    /\ length (EMs_val run) = Z.to_nat 2.
Proof.
  eexists. split; [vm_compute; reflexivity|].
  edestruct (@train_history_sizes Q nat nat _ _ _ 3 (toy_data 45)
               {| Xval_c := []; Xval_c_mask := []; Xval_q := [];
                  Xval_q_mask := []; yvalS := [[0; 1]]; yvalE := [[0; 1]] |}
               2 2 0%nat 0%nat)
    as [Hl [_ [_ [_ [He _]]]]]; [lia|vm_compute; reflexivity|].
  split; [exact Hl|exact He].
Defined.

(** X18: the degenerate runs of [train]. With no epoch to run
    ([epochs <= 0]) it returns at once, with the iterator initialised in
    identity order and all histories empty, the session untouched; with at
    least one epoch and batch size 0 it raises [ZeroDivisionError] before
    any training step. *)
Theorem train_degenerate_runs {F S R : Type} `{FloatOps F} `{Rng R}
        `{Session F S}
        (mcl : Z) (d : TrainData) (v : ValData) (epochs : Z)
        (sess : S) (r : R) :
  (forall B, epochs <= 0 ->
             train mcl d v epochs B sess r
             = Ok {| run_state :=
                       (sess,
                        {| batch_index := 0;
                           max_batch_index := len (yS d);
                           batch_permutation := arange (len (yS d)) |}, r);
                     run_history :=
                       {| global_losses := []; global_EMs := [];
                          global_f1s := []; global_grad_norms := [] |};
                     EMs_val := []; F1s_val := [] |})
  /\ (0 < epochs ->
      train mcl d v epochs 0 sess r = Raise ZeroDivisionError).
Proof.
  split.
  - intros B He. unfold train. cbn [initialize_batch_processing].
    unfold arange at 1. replace (Z.to_nat epochs) with O by lia.
    reflexivity.
  - intros He. unfold train. cbn [initialize_batch_processing].
    unfold arange at 1.
    destruct (Z.to_nat epochs) as [|n] eqn:Hn; [lia|].
    cbn [seq map for_each]. unfold train_epoch at 1, train_one_epoch, n_steps.
    reflexivity.
Qed.

Lemma train_degenerate_runs_witness :
  @train Q nat nat _ _ _ 3 (toy_data 4)
         {| Xval_c := []; Xval_c_mask := []; Xval_q := [];
            Xval_q_mask := []; yvalS := []; yvalE := [] |}
         1 0 0%nat 0%nat
  = Raise ZeroDivisionError.
Proof.
  apply (proj2 (@train_degenerate_runs Q nat nat _ _ _ 3 (toy_data 4) _ 1
                  0%nat 0%nat)).
  lia.
Defined.

(* ------------------------------------------------------------------ *)
(** * Further properties of [span_to_y] and [load_and_preprocess_data] *)
(* ------------------------------------------------------------------ *)

Lemma index_inv (n i : Z) (k : nat) : index n i = Ok k -> - n <= i < n.
Proof.
  unfold index.
  destruct (Z.leb_spec 0 i), (Z.ltb_spec i n), (Z.leb_spec (- n) i),
    (Z.ltb_spec i 0); cbn [andb]; intros Heq; try discriminate; lia.
Qed.

Lemma span_row_inv (L s e : Z) (rows : list Z * list Z) :
  span_row L (s, e) = Ok rows -> - L <= s < L /\ - L <= e < L.
Proof.
  unfold span_row, np_zeros.
  destruct (Z.ltb_spec L 0); cbn [bind]; [discriminate|].
  unfold setitem. rewrite len_replicate by assumption.
  destruct (index L s) as [ks|] eqn:Hs; cbn [bind]; [|discriminate].
  destruct (index L e) as [ke|] eqn:He; cbn [bind]; [|discriminate].
  intros _. split; eapply index_inv; eassumption.
Qed.

Lemma mapM_ok_inv {A B} (f : A -> result B) (l : list A) (l' : list B)
      (x : A) :
  mapM f l = Ok l' -> In x l -> exists y, f x = Ok y.
Proof.
  intros Hm Hin. apply mapM_inv in Hm.
  induction Hm as [|a b l l' Hab _ IH]; [destruct Hin|].
  destruct Hin as [->|Hin]; eauto.
Qed.

Lemma span_to_y_inv (mcl : Z) (y : list (Z * Z)) (L : Z)
      (S E : list (list Z)) :
  span_to_y mcl y (Some L) = Ok (S, E) ->
  (forall s e, In (s, e) y -> - L <= s < L /\ - L <= e < L)
  /\ S = map (fun se => one_hot L (wrap_index L (fst se))) y
  /\ E = map (fun se => one_hot L (wrap_index L (snd se))) y.
Proof.
  intros Hok.
  assert (Hy : forall s e, In (s, e) y -> - L <= s < L /\ - L <= e < L).
  { intros s e Hin. unfold span_to_y in Hok.
    destruct (mapM (span_row L) y) as [rows|] eqn:Hm; [|discriminate].
    destruct (mapM_ok_inv _ _ _ _ Hm Hin) as [r Hr].
    eapply span_row_inv. eassumption. }
  split; [assumption|].
  rewrite (span_to_y_in_range mcl y L Hy) in Hok. now inversion Hok.
Qed.

(** X19: [span_to_y] returns normally only on indices in range. If it
    returns [(S, E)] for the length [L], then every start and end index
    lies in [-L, L), the length is positive unless the span array is empty,
    and row [i] of [S] (of [E]) is the one-hot vector of the start (the
    end) of span [i], a negative index counted from the end. *)
Theorem span_to_y_returns_in_range_only (mcl : Z) (y : list (Z * Z)) (L : Z)
        (S E : list (list Z)) :
  span_to_y mcl y (Some L) = Ok (S, E) ->
  (forall s e, In (s, e) y -> - L <= s < L /\ - L <= e < L)
  /\ (y <> [] -> 0 < L)
  /\ S = map (fun se => one_hot L (if fst se <? 0 then fst se + L
                                   else fst se)) y
  /\ E = map (fun se => one_hot L (if snd se <? 0 then snd se + L
                                   else snd se)) y.
Proof.
  intros Hok. destruct (span_to_y_inv mcl y L S E Hok) as [Hy [HS HE]].
  split; [assumption|]. split; [|split; assumption].
  intros Hne. destruct y as [|[s e] y]; [congruence|].
  destruct (Hy s e (or_introl eq_refl)). lia.
Qed.

Lemma span_to_y_returns_in_range_only_witness :
  (forall s e, In (s, e) [(-1, 2); (0, 0)] -> - 3 <= s < 3 /\ - 3 <= e < 3)
  /\ ([(-1, 2); (0, 0)] <> [] -> 0 < 3)
  /\ [[0; 0; 1]; [1; 0; 0]]
     = map (fun se => one_hot 3 (if fst se <? 0 then fst se + 3
                                 else fst se)) [(-1, 2); (0, 0)]
  /\ [[0; 0; 1]; [1; 0; 0]]
     = map (fun se => one_hot 3 (if snd se <? 0 then snd se + 3
                                 else snd se)) [(-1, 2); (0, 0)].
Proof.
  apply (span_to_y_returns_in_range_only 7 [(-1, 2); (0, 0)] 3).
  reflexivity.
Defined.

Lemma read_and_pad_shape (lines : list string) (L P : Z) rows masks :
  0 <= L ->
  read_and_pad lines L P = Ok (rows, masks) ->
  shape rows (len lines) L /\ shape masks (len lines) L
  /\ Forall2 (fun row mask =>
                forall j, (j < length row)%nat ->
                          nth j mask true = false -> nth j row 0 = P)
             rows masks.
Proof.
  intros HL Hread.
  destruct (read_and_pad_lines lines L P rows masks HL Hread) as [-> Hrows].
  clear Hread.
  induction Hrows as [|line row lines rows Hrow _ IH].
  - unfold shape. cbn. repeat split; constructor.
  - destruct IH as [[Hn1 Hr1] [[Hn2 Hr2] Hpad]].
    destruct (pad_line_mask L P (split line) row HL Hrow)
      as [Hlr [Hlm [Hfalse _]]].
    unfold shape, len in *. cbn [map length].
    repeat split; try lia.
    + constructor; [lia|assumption].
    + constructor; [cbv zeta in Hlm; lia|assumption].
    + constructor; [|assumption]. intros j Hj. apply Hfalse. lia.
Qed.

(** Labels are encoded only from a span file of at least two rows. *)
Lemma span_to_y_loadtxt_inv (mc : Z) (rows : list (Z * Z))
      (S E : list (list Z)) :
  span_to_y_loadtxt mc rows = Ok (S, E) ->
  2 <= len rows /\ span_to_y mc rows (Some mc) = Ok (S, E).
Proof.
  unfold span_to_y_loadtxt, np_loadtxt.
  destruct rows as [|[s e] [|r rows]]; try discriminate.
  intros Hok. split; [unfold len; simpl; lia|].
  now rewrite <- span_to_y_default.
Qed.

Section LoadProps.
Context {F G : Type} `{FloatOps F} `{Network F G}.

(** What a completed load has done, step by step. *)
Lemma load_inv (mq mc : Z) (dir : DataDir F) (loaded : Loaded F G) :
  load_and_preprocess_data mq mc dir = Ok loaded ->
  let V := len (m_rows (glove dir)) in
  let td := train_data loaded in
  let vd := val_data loaded in
  m_rows (WordEmbeddingMatrix loaded)
  = map (map astype_float32) (m_rows (glove dir))
      ++ [replicate 100 (f_of_Z 0)]
  /\ (2 <= len (train_span dir)
      /\ span_to_y mc (train_span dir) (Some mc) = Ok (yS td, yE td))
  /\ (2 <= len (val_span dir)
      /\ span_to_y mc (val_span dir) (Some mc) = Ok (yvalS vd, yvalE vd))
  /\ read_and_pad (train_ids_context dir) mc V = Ok (X_c td, X_c_mask td)
  /\ read_and_pad (val_ids_context dir) mc V
     = Ok (Xval_c vd, Xval_c_mask vd)
  /\ read_and_pad (train_ids_question dir) mq V = Ok (X_q td, X_q_mask td)
  /\ read_and_pad (val_ids_question dir) mq V
     = Ok (Xval_q vd, Xval_q_mask vd).
Proof.
  unfold load_and_preprocess_data, vstack_zeros.
  destruct (n_cols (glove dir) =? 100); cbn [bind]; [|discriminate].
  destruct (build_model _ _ _) as [g|]; cbn [bind]; [|discriminate].
  destruct (span_to_y_loadtxt _ (train_span dir)) as [[yS_ yE_]|] eqn:HyS;
    cbn [bind]; [|discriminate].
  destruct (span_to_y_loadtxt _ (val_span dir)) as [[yvS yvE]|] eqn:HyvS;
    cbn [bind]; [|discriminate].
  apply span_to_y_loadtxt_inv in HyS, HyvS.
  destruct (read_and_pad (train_ids_context dir) _ _) as [[xc xcm]|];
    cbn [bind]; [|discriminate].
  destruct (read_and_pad (val_ids_context dir) _ _) as [[xvc xvcm]|];
    cbn [bind]; [|discriminate].
  destruct (read_and_pad (train_ids_question dir) _ _) as [[xq xqm]|];
    cbn [bind]; [|discriminate].
  destruct (read_and_pad (val_ids_question dir) _ _) as [[xvq xvqm]|];
    cbn [bind]; [|discriminate].
  intros Heq; inversion Heq; subst loaded; clear Heq. cbn.
  destruct HyS as [Hn HyS], HyvS as [Hvn HyvS].
  split; [|repeat split; assumption || reflexivity].
  rewrite map_app. cbn [map]. unfold replicate.
  now rewrite map_repeat, astype_float32_zero.
Qed.

End LoadProps.

Lemma span_to_y_shape (mcl : Z) (y : list (Z * Z)) (L : Z)
      (S E : list (list Z)) :
  span_to_y mcl y (Some L) = Ok (S, E) ->
  shape S (len y) L /\ shape E (len y) L.
Proof.
  intros Hok. destruct (span_to_y_inv mcl y L S E Hok) as [Hy [-> ->]].
  unfold shape, len. rewrite !length_map.
  split; (split; [reflexivity|]); apply Forall_forall; intros row Hin;
    apply in_map_iff in Hin; destruct Hin as [[s e] [<- Hin]];
    destruct (Hy s e Hin) as [Hs He]; cbn [fst snd];
    apply one_hot_hot_at; unfold wrap_index;
    [destruct (Z.ltb_spec s 0)|destruct (Z.ltb_spec e 0)]; lia.
Qed.

Lemma pads_embed_to_last {E} (W : list (list E)) (zero : list E) rows masks :
  Forall2 (fun row mask =>
             forall j, (j < length row)%nat ->
                       nth j mask true = false -> nth j row 0 = len W)
          rows masks ->
  pads_embed_to (W ++ [zero]) zero rows masks.
Proof.
  unfold pads_embed_to. intros Hall.
  eapply Forall2_impl; [|exact Hall].
  intros row mask Hrow j Hj Hmask. rewrite (Hrow j Hj Hmask).
  apply getitem_app_last.
Qed.

(** X20: padding looks up the zero vector. After a load that completes
    with lengths that are not negative, in each of the four id arrays every
    position that its mask marks [False] holds an id whose row in the stored
    embedding matrix is the row of 100 zeros. *)
Theorem load_padding_embeds_to_zero {F G : Type} `{FloatOps F}
        `{Network F G}
        (mq mc : Z) (dir : DataDir F) (loaded : Loaded F G) :
  0 <= mq -> 0 <= mc ->
  load_and_preprocess_data mq mc dir = Ok loaded ->
  let W := m_rows (WordEmbeddingMatrix loaded) in
  let zero := replicate 100 (f_of_Z 0) in
  let td := train_data loaded in
  let vd := val_data loaded in
  pads_embed_to W zero (X_c td) (X_c_mask td)
  /\ pads_embed_to W zero (Xval_c vd) (Xval_c_mask vd)
  /\ pads_embed_to W zero (X_q td) (X_q_mask td)
  /\ pads_embed_to W zero (Xval_q vd) (Xval_q_mask vd).
Proof.
  intros Hmq Hmc Hload W zero td vd.
  destruct (load_inv mq mc dir loaded Hload)
    as [HW [_ [_ [Hc [Hvc [Hq Hvq]]]]]].
  unfold W. rewrite HW.
  assert (HV : len (m_rows (glove dir))
               = len (map (map astype_float32) (m_rows (glove dir))))
    by (unfold len; now rewrite length_map).
  rewrite HV in Hc, Hvc, Hq, Hvq.
  destruct (read_and_pad_shape _ _ _ _ _ Hmc Hc) as [_ [_ Pc]].
  destruct (read_and_pad_shape _ _ _ _ _ Hmc Hvc) as [_ [_ Pvc]].
  destruct (read_and_pad_shape _ _ _ _ _ Hmq Hq) as [_ [_ Pq]].
  destruct (read_and_pad_shape _ _ _ _ _ Hmq Hvq) as [_ [_ Pvq]].
  repeat split; apply pads_embed_to_last; assumption.
Qed.

Lemma load_padding_embeds_to_zero_witness :
  exists loaded : Loaded Q unit,
    @load_and_preprocess_data Q unit Q_float trivial_network 2 3
                              (toy_dir 100)
    = Ok loaded
    /\ pads_embed_to (m_rows (WordEmbeddingMatrix loaded))
                     (replicate 100 (inject_Z 0))
                     (X_c (train_data loaded)) (X_c_mask (train_data loaded))
    /\ pads_embed_to (m_rows (WordEmbeddingMatrix loaded))
                     (replicate 100 (inject_Z 0))
                     (X_q (train_data loaded)) (X_q_mask (train_data loaded)).
Proof.
  eexists. split; [vm_compute; reflexivity|].
  edestruct (@load_padding_embeds_to_zero Q unit Q_float trivial_network
               2 3 (toy_dir 100))
    as [Hc [_ [Hq _]]]; [lia|lia|vm_compute; reflexivity|].
  split; [exact Hc|exact Hq].
Defined.

(** X21: the shapes of what a load stores. After a load that completes
    with lengths that are not negative, the label arrays have one row of
    [max_c_length] entries per row of their span file, the context arrays
    and masks one row of [max_c_length] entries per line of their id file,
    the question arrays and masks one row of [max_q_length] entries per
    line, and the embedding matrix one row more than the table read. Each
    span file has at least two rows: with fewer, [np.loadtxt] returns a 1-D
    array and the load raises. *)
Theorem load_shapes {F G : Type} `{FloatOps F} `{Network F G}
        (mq mc : Z) (dir : DataDir F) (loaded : Loaded F G) :
  0 <= mq -> 0 <= mc ->
  load_and_preprocess_data mq mc dir = Ok loaded ->
  let td := train_data loaded in
  let vd := val_data loaded in
  len (m_rows (WordEmbeddingMatrix loaded)) = len (m_rows (glove dir)) + 1
  /\ (shape (yS td) (len (train_span dir)) mc
      /\ shape (yE td) (len (train_span dir)) mc)
  /\ (shape (yvalS vd) (len (val_span dir)) mc
      /\ shape (yvalE vd) (len (val_span dir)) mc)
  /\ (shape (X_c td) (len (train_ids_context dir)) mc
      /\ shape (X_c_mask td) (len (train_ids_context dir)) mc)
  /\ (shape (Xval_c vd) (len (val_ids_context dir)) mc
      /\ shape (Xval_c_mask vd) (len (val_ids_context dir)) mc)
  /\ (shape (X_q td) (len (train_ids_question dir)) mq
      /\ shape (X_q_mask td) (len (train_ids_question dir)) mq)
  /\ (shape (Xval_q vd) (len (val_ids_question dir)) mq
      /\ shape (Xval_q_mask vd) (len (val_ids_question dir)) mq)
  /\ 2 <= len (train_span dir) /\ 2 <= len (val_span dir).
Proof.
  intros Hmq Hmc Hload td vd.
  destruct (load_inv mq mc dir loaded Hload)
    as [HW [[Hn HyS] [[Hvn HyvS] [Hc [Hvc [Hq Hvq]]]]]].
  split.
  { rewrite HW. unfold len. rewrite length_app, length_map. simpl. lia. }
  destruct (read_and_pad_shape _ _ _ _ _ Hmc Hc) as [Sc [Scm _]].
  destruct (read_and_pad_shape _ _ _ _ _ Hmc Hvc) as [Svc [Svcm _]].
  destruct (read_and_pad_shape _ _ _ _ _ Hmq Hq) as [Sq [Sqm _]].
  destruct (read_and_pad_shape _ _ _ _ _ Hmq Hvq) as [Svq [Svqm _]].
  split; [eapply span_to_y_shape; eassumption|].
  split; [eapply span_to_y_shape; eassumption|].
  auto 10.
Qed.

Lemma load_shapes_witness :
  exists loaded : Loaded Q unit,
    @load_and_preprocess_data Q unit Q_float trivial_network 2 3
                              (toy_dir 100)
    = Ok loaded
    /\ shape (yS (train_data loaded)) (len (train_span (toy_dir 100))) 3
    /\ shape (X_q (train_data loaded))
             (len (train_ids_question (toy_dir 100))) 2.
Proof.
  eexists. split; [vm_compute; reflexivity|].
  edestruct (@load_shapes Q unit Q_float trivial_network 2 3 (toy_dir 100))
    as [_ [[HyS _] [_ [_ [_ [[Hq _] _]]]]]];
    [lia|lia|vm_compute; reflexivity|].
  split; [exact HyS|exact Hq].
Defined.

(* ------------------------------------------------------------------ *)
(** * Error and edge behaviour of the metrics and the iterator *)
(* ------------------------------------------------------------------ *)

Lemma for_each_app {A S} (l1 l2 : list A) (body : A -> S -> result S)
      (s : S) :
  for_each (l1 ++ l2) body s
  = (s1 <- for_each l1 body s ;; for_each l2 body s1).
Proof.
  revert s; induction l1 as [|x l1 IH]; intros s; simpl; [reflexivity|].
  destruct (body x s); cbn [bind]; auto.
Qed.

Lemma arange_split (n k : Z) :
  0 <= k < n ->
  arange n = arange k ++ k :: map Z.of_nat (seq (S (Z.to_nat k))
                                               (Z.to_nat n - Z.to_nat k - 1)).
Proof.
  intros Hk. unfold arange.
  replace (Z.to_nat n) with (Z.to_nat k + S (Z.to_nat n - Z.to_nat k - 1))%nat
    at 1 by lia.
  rewrite seq_app, map_app. cbn [seq map Nat.add]. f_equal. f_equal. lia.
Qed.

Lemma getitem_beyond {A} (l : list A) : getitem l (len l) = Raise IndexError.
Proof.
  unfold getitem. rewrite index_outside; [reflexivity|lia|apply len_nonneg].
Qed.

Lemma samples_length_short yS yE ypS ypE :
  len ypS <= len yS -> len ypS <= len yE -> len ypS <= len ypE ->
  len (samples yS yE ypS ypE) = len ypS.
Proof. unfold samples, len. rewrite !length_combine. lia. Qed.

Section MetricErrors.
Context {F : Type} `{FloatOps F}.

(** X22: fewer predicted start indices than gold rows. When the gold rows
    are non-empty, the context length is not negative and the other arrays
    are long enough, both metrics raise [IndexError] at the first sample
    without a predicted start; no score over the shorter length is
    returned. *)
Theorem metrics_short_predictions_raise
        (max_c_length : Z) (yS yE : list (list Z)) (ypS ypE : list Z)
        (mask : list (list bool)) :
  0 <= max_c_length ->
  len ypS < len yS -> len yS <= len yE -> len ypS <= len ypE ->
  Forall (fun row => row <> []) yS -> Forall (fun row => row <> []) yE ->
  get_exact_match yS yE ypS ypE mask = Raise IndexError
  /\ get_f1 max_c_length yS yE ypS ypE mask = Raise IndexError.
Proof.
  intros HL Hshort HE HpE HrS HrE.
  pose proof (len_nonneg ypS) as Hk0.
  assert (Hlen : len (samples yS yE ypS ypE) = len ypS)
    by (apply samples_length_short; lia).
  destruct (nth_error yS (Z.to_nat (len ypS))) as [rowS|] eqn:HS;
    [|apply nth_error_None in HS; unfold len in *; lia].
  destruct (nth_error yE (Z.to_nat (len ypS))) as [rowE|] eqn:HEk;
    [|apply nth_error_None in HEk; unfold len in *; lia].
  assert (HgS : getitem yS (len ypS) = Ok rowS)
    by (rewrite <- (Z2Nat.id (len ypS)) by lia;
        now apply getitem_nth_error).
  assert (HgE : getitem yE (len ypS) = Ok rowE)
    by (rewrite <- (Z2Nat.id (len ypS)) by lia;
        now apply getitem_nth_error).
  rewrite Forall_forall in HrS, HrE.
  assert (HaS : np_argmax rowS = Ok (argmax_of rowS))
    by (apply np_argmax_nonempty, HrS; eapply nth_error_In; eassumption).
  assert (HaE : np_argmax rowE = Ok (argmax_of rowE))
    by (apply np_argmax_nonempty, HrE; eapply nth_error_In; eassumption).
  split.
  - unfold get_exact_match.
    rewrite (arange_split (len yS) (len ypS)) by lia.
    rewrite for_each_app. rewrite <- Hlen at 1.
    rewrite (for_each_indexed _ _
               (fun z count => Ok (if em_hit z then count + 1 else count))).
    + rewrite (for_each_pure _ (fun c z => if em_hit z then c + 1 else c)).
      cbn [bind for_each]. rewrite HgS. cbn [bind]. rewrite HaS.
      cbn [bind]. rewrite HgE. cbn [bind]. rewrite HaE. cbn [bind].
      now rewrite getitem_beyond.
    + intros k [rS [rE [pS pE]]] count Hnth.
      apply nth_error_samples in Hnth.
      destruct Hnth as [H1 [H2 [H3 H4]]].
      rewrite (getitem_nth_error _ _ _ H1), (getitem_nth_error _ _ _ H2),
        (getitem_nth_error _ _ _ H3), (getitem_nth_error _ _ _ H4).
      cbn [bind].
      rewrite (np_argmax_nonempty rS)
        by (apply HrS; eapply nth_error_In; eassumption).
      rewrite (np_argmax_nonempty rE)
        by (apply HrE; eapply nth_error_In; eassumption).
      cbn [bind]. unfold em_hit.
      destruct (argmax_of rS =? pS); [|reflexivity]. cbn [bind andb].
      destruct (argmax_of rE =? pE); reflexivity.
  - unfold get_f1.
    rewrite (arange_split (len yS) (len ypS)) by lia.
    rewrite for_each_app. rewrite <- Hlen at 1.
    rewrite (for_each_indexed _ _
               (fun z f1_tot => Ok (f1_sample_add max_c_length f1_tot z))).
    + rewrite (for_each_pure _ (f1_sample_add max_c_length)).
      cbn [bind for_each]. unfold np_zeros.
      replace (max_c_length <? 0) with false
        by (symmetry; apply Z.ltb_ge; assumption).
      cbn [bind]. rewrite HgS. cbn [bind]. rewrite HaS.
      cbn [bind]. rewrite HgE. cbn [bind]. rewrite HaE. cbn [bind].
      now rewrite getitem_beyond.
    + intros k [rS [rE [pS pE]]] f1_tot Hnth.
      apply nth_error_samples in Hnth.
      destruct Hnth as [H1 [H2 [H3 H4]]].
      unfold np_zeros.
      replace (max_c_length <? 0) with false
        by (symmetry; apply Z.ltb_ge; assumption).
      cbn [bind].
      rewrite (getitem_nth_error _ _ _ H1), (getitem_nth_error _ _ _ H2),
        (getitem_nth_error _ _ _ H3), (getitem_nth_error _ _ _ H4).
      cbn [bind].
      rewrite (np_argmax_nonempty rS)
        by (apply HrS; eapply nth_error_In; eassumption).
      rewrite (np_argmax_nonempty rE)
        by (apply HrE; eapply nth_error_In; eassumption).
      reflexivity.
Qed.

End MetricErrors.

Lemma metrics_short_predictions_raise_witness :
  @get_exact_match Q Q_float [[0; 1]; [1; 0]] [[0; 1]; [0; 1]] [1] [1; 1] []
  = Raise IndexError
  /\ @get_f1 Q Q_float 2 [[0; 1]; [1; 0]] [[0; 1]; [0; 1]] [1] [1; 1] []
     = Raise IndexError.
Proof.
  apply (@metrics_short_predictions_raise Q Q_float);
    try (unfold len; simpl; lia); repeat constructor; discriminate.
Defined.

Section StallProps.
Context {R : Type} `{Rng R}.

Lemma next_indices_zero_below (b : Batching) (r : R) :
  0 <= batch_index b < max_batch_index b ->
  next_indices b r 0 = ([], b, r).
Proof.
  intros Hb. unfold next_indices.
  replace (max_batch_index b <=? batch_index b) with false
    by (symmetry; apply Z.leb_gt; lia).
  rewrite slice_nonneg by lia.
  replace (batch_index b + 0 - batch_index b) with 0 by lia.
  destruct b as [c m p]; cbn. now rewrite Z.add_0_r.
Qed.

Lemma issue_zero_below (k : nat) (b : Batching) (r : R) :
  0 <= batch_index b < max_batch_index b ->
  issue k b r 0 = (repeat [] k, b, r).
Proof.
  intros Hb; induction k as [|k IH]; [reflexivity|].
  cbn [issue]. now rewrite next_indices_zero_below, IH.
Qed.

End StallProps.

(** X23: a batch size of 0 stalls the iterator. On [N > 0] samples and
    with a cursor that is not negative, every call of [next_batch] with
    batch size 0 gathers with an empty index array; the cursor stays below
    [N] (after at most one reshuffle, when the first call finds the
    iterator exhausted), so no number of calls completes a pass. *)
Theorem next_batch_zero_size_stalls {R : Type} `{Rng R}
        (k : nat) (b : Batching) (r : R) :
  0 < max_batch_index b -> 0 <= batch_index b ->
  exists b' r',
    issue (S k) b r 0 = (repeat [] (S k), b', r')
    /\ 0 <= batch_index b' < max_batch_index b'
    /\ max_batch_index b' = max_batch_index b
    /\ batch_index b' = (if max_batch_index b <=? batch_index b then 0
                         else batch_index b).
Proof.
  intros HN Hc.
  destruct (Z.leb_spec (max_batch_index b) (batch_index b)) as [Hwrap|Hlt].
  - cbn [issue]. rewrite next_indices_wrap by assumption.
    rewrite next_indices_zero_below by (cbn; lia).
    rewrite issue_zero_below by (cbn; lia).
    eexists _, _. split; [reflexivity|]. cbn. lia.
  - rewrite issue_zero_below by lia.
    exists b, r. split; [reflexivity|]. lia.
Qed.

Lemma next_batch_zero_size_stalls_witness :
  exists b' r',
    issue 4 {| batch_index := 9; max_batch_index := 5;
               batch_permutation := arange 5 |} 2%nat 0
    = (repeat [] 4, b', r')
    /\ 0 <= batch_index b' < max_batch_index b'
    /\ max_batch_index b' = 5
    /\ batch_index b' = 0.
Proof.
  apply (@next_batch_zero_size_stalls nat rotating_rng 3
           {| batch_index := 9; max_batch_index := 5;
              batch_permutation := arange 5 |} 2%nat); cbn; lia.
Defined.

(** A span file of a single row cannot be loaded: [np.loadtxt] returns its
    two entries as a 1-D array, and the column selection of [span_to_y]
    raises. *)
Example load_one_row_span_raises :
  @load_and_preprocess_data Q unit Q_float trivial_network 2 3
    {| glove := glove (toy_dir 100);
       train_span := train_span (toy_dir 100);
       val_span := [(2, 2)];
       train_ids_context := train_ids_context (toy_dir 100);
       val_ids_context := [ln "1"];
       train_ids_question := train_ids_question (toy_dir 100);
       val_ids_question := [ln ""] |}
  = Raise IndexError.
Proof. reflexivity. Qed.
